(** * xija.gui_fit.app

    A shallow embedding of the parameter panel (PanelText, PanelSlider,
    PanelCheckBox), of the command line (MainWindow.parse_command) and of the
    fit monitor (MainWindow.fit_monitor) of [xija/gui_fit/app.py], with the
    properties of the design document checked against it.

    Python objects become records, methods become state transformers that may
    raise, and the widgets keep only the attributes the methods read or
    write. *)

From Stdlib Require Import ZArith QArith Qabs Qround Qpower String Ascii List Bool Lia Lqa.
From Stdlib Require Import Floats.
From Stdlib Require DecimalString.
Import ListNotations.

Set Implicit Arguments.
Open Scope string_scope.
Open Scope list_scope.
Open Scope Z_scope.

(** ** Exceptions and the method monad *)

(** The Python exceptions the embedded methods can raise.  [ShapeMismatch] is
    the failure of the [parvals] setter, under the name the design document
    gives it. *)
Inductive exn : Type :=
| ZeroDivisionError
| OverflowError
| ValueError
| IndexError
| AttributeError (name : string)
| KeyError (key : string)
| ShapeMismatch.

(** A method running on an object of state [S]: it returns the state it
    leaves behind together with either the exception it raised or its
    result. *)
Definition M (S A : Type) : Type := S -> S * (exn + A).

Definition ret {S A} (a : A) : M S A := fun s => (s, inr a).

Definition raise {S A} (e : exn) : M S A := fun s => (s, inl e).

Definition bind {S A B} (m : M S A) (k : A -> M S B) : M S B :=
  fun s =>
    match m s with
    | (s', inl e) => (s', inl e)
    | (s', inr a) => k a s'
    end.

Definition get {S} : M S S := fun s => (s, inr s).

Definition modify {S} (f : S -> S) : M S unit := fun s => (f s, inr tt).

Definition lift {S A} (r : exn + A) : M S A := fun s => (s, r).

(** Run a method of a component held in a field of the enclosing object. *)
Definition zoom {S T A} (proj : T -> S) (upd : S -> T -> T) (m : M S A) : M T A :=
  fun t => let (s', r) := m (proj t) in (upd s' t, r).

Declare Scope py_scope.
Delimit Scope py_scope with py.
Notation "x <- c ;; k" := (bind c (fun x => k))
  (at level 100, c at next level, right associativity) : py_scope.
Notation "c ;; k" := (bind c (fun _ => k))
  (at level 100, right associativity) : py_scope.
Open Scope py_scope.

Definition when {S} (b : bool) (m : M S unit) : M S unit :=
  if b then m else ret tt.

(** The state a call leaves and what it returned or raised. *)
Definition state_of {S A} (r : S * (exn + A)) : S := fst r.
Definition outcome {S A} (r : S * (exn + A)) : exn + A := snd r.

(** [for x in xs: body] over a list of objects updated in place: an
    exception leaves the objects already visited updated and the others
    untouched. *)
Fixpoint for_each {S} (body : M S unit) (xs : list S) : list S * (exn + unit) :=
  match xs with
  | [] => ([], inr tt)
  | x :: xs' =>
      match body x with
      | (x', inl e) => (x' :: xs', inl e)
      | (x', inr _) => let (xs'', r) := for_each body xs' in (x' :: xs'', r)
      end
  end.

(** ** Python floats

    The methods are written once over the operations of Python's [float]
    they use, and read at binary64: the floats Python computes with, NaN and
    infinities included. *)
Class PyFloat (F : Type) : Type := {
  fadd : F -> F -> F;
  fsub : F -> F -> F;
  fmul : F -> F -> F;
  (** [x / y] for a divisor that is not zero *)
  fquot : F -> F -> F;
  (** [x < y] *)
  fltb : F -> F -> bool;
  (** [x == 0.0] *)
  fzero : F -> bool;
  (** [int(x)]: truncation toward zero *)
  fint : F -> exn + Z;
  (** [float(n)] of an integer *)
  of_int : Z -> F
}.

(** [x / y]: Python raises ZeroDivisionError on a zero divisor. *)
Definition truediv {F} `{PyFloat F} (x y : F) : exn + F :=
  if fzero y then inl ZeroDivisionError else inr (fquot x y).

(** [x > y] *)
Definition fgtb {F} `{PyFloat F} (x y : F) : bool := fltb y x.

(** *** binary64 *)

(** [int(x)] reads the integer part off the sign, mantissa and exponent;
    Python raises OverflowError on an infinity and ValueError on a NaN. *)
Definition float_int (x : float) : exn + Z :=
  match Prim2SF x with
  | S754_zero _ => inr 0
  | S754_finite s m e =>
      let a := if 0 <=? e then Z.shiftl (Zpos m) e else Z.shiftr (Zpos m) (- e) in
      inr (if s then - a else a)
  | S754_infinity _ => inl OverflowError
  | S754_nan => inl ValueError
  end.

(** [float(n)]: the nearest binary64 number. *)
Definition float_of_int (n : Z) : float :=
  SF2Prim (binary_normalize prec emax n 0 false).

#[export] Instance float64 : PyFloat float := {
  fadd := PrimFloat.add;
  fsub := PrimFloat.sub;
  fmul := PrimFloat.mul;
  fquot := PrimFloat.div;
  fltb := PrimFloat.ltb;
  fzero := fun x => PrimFloat.eqb x 0%float;
  fint := float_int;
  of_int := float_of_int
}.

(** ** Strings *)

(** The characters [str.split()] and [str.strip()] treat as whitespace
    (ASCII). *)
Definition is_space (c : ascii) : bool :=
  let n := nat_of_ascii c in
  ((9 <=? n) && (n <=? 13) || (28 <=? n) && (n <=? 32))%nat.

Fixpoint lstrip (s : string) : string :=
  match s with
  | String c s' => if is_space c then lstrip s' else s
  | EmptyString => EmptyString
  end.

(** Drops the whitespace at the end of [s]. *)
Fixpoint rstrip (s : string) : string :=
  match s with
  | String c s' =>
      match rstrip s' with
      | EmptyString => if is_space c then EmptyString else String c EmptyString
      | t => String c t
      end
  | EmptyString => EmptyString
  end.

(** [s.strip()] *)
Definition strip (s : string) : string := rstrip (lstrip s).

(** [s.split()]: the maximal runs of characters that are not whitespace.
    [cur] is the run being read, in reverse. *)
Fixpoint split_from (cur : list ascii) (s : string) : list string :=
  let close := match cur with
               | [] => []
               | _ => [string_of_list_ascii (rev cur)]
               end in
  match s with
  | EmptyString => close
  | String c s' =>
      if is_space c then close ++ split_from [] s' else split_from (c :: cur) s'
  end.

Definition split (s : string) : list string := split_from [] s.

(** [s.split(sep)] on a one-character separator: the pieces between the
    separators, empty ones kept. *)
Fixpoint split_on_from (sep : ascii) (cur : list ascii) (s : string) : list string :=
  match s with
  | EmptyString => [string_of_list_ascii (rev cur)]
  | String c s' =>
      if Ascii.eqb c sep
      then string_of_list_ascii (rev cur) :: split_on_from sep [] s'
      else split_on_from sep (c :: cur) s'
  end.

Definition split_on (sep : ascii) (s : string) : list string :=
  split_on_from sep [] s.

(** [sep in s] *)
Fixpoint has_char (sep : ascii) (s : string) : bool :=
  match s with
  | EmptyString => false
  | String c s' => Ascii.eqb c sep || has_char sep s'
  end.

(** [s.upper()] on ASCII letters. *)
Definition upper_ascii (c : ascii) : ascii :=
  let n := nat_of_ascii c in
  if ((97 <=? n) && (n <=? 122))%nat then ascii_of_nat (n - 32) else c.

Fixpoint upper (s : string) : string :=
  match s with
  | EmptyString => EmptyString
  | String c s' => String (upper_ascii c) (upper s')
  end.

(** *** fnmatch.translate and re.match

    A glob is compiled to an anchored pattern: [*] is any run of characters,
    [?] any one character, [[seq]] one character of [seq] (with ranges
    [a-z]), [[!seq]] one character not in it; a [[] that is never closed and
    every other character stand for themselves. *)
Inductive class_item : Type :=
| One (c : ascii)
| Range (lo hi : ascii).

Inductive glob_token : Type :=
| Star
| AnyChar
| Lit (c : ascii)
| Class (negated : bool) (items : list class_item).

(** The items of a bracket expression's body: [lo-hi] is a range, any other
    character (a [-] at either end included) stands for itself. *)
Fixpoint class_items (body : list ascii) : list class_item :=
  match body with
  | lo :: rest =>
      match rest with
      | d :: hi :: rest' =>
          if Ascii.eqb d "-" then Range lo hi :: class_items rest'
          else One lo :: class_items rest
      | _ => One lo :: class_items rest
      end
  | [] => []
  end.

(** The bracket expression read so far (in reverse) may be closed by a [']']:
    one that comes first, or right after the [!], belongs to the body. *)
Definition closable (body : list ascii) : bool :=
  match body with
  | [] => false
  | [c] => negb (Ascii.eqb c "!")
  | _ => true
  end.

(** Whether the text after a [[] holds the [']'] that closes it. *)
Fixpoint closes (body : list ascii) (p : list ascii) : bool :=
  match p with
  | [] => false
  | c :: p' =>
      if Ascii.eqb c "]" && closable body then true else closes (c :: body) p'
  end.

Definition make_class (body : list ascii) : glob_token :=
  match rev body with
  | c :: stuff =>
      if Ascii.eqb c "!" then Class true (class_items stuff)
      else Class false (class_items (c :: stuff))
  | [] => Class false []
  end.

(** The tokens of a glob; [open] is the body of the bracket expression being
    read, in reverse. *)
Fixpoint tokens (open : option (list ascii)) (p : list ascii) : list glob_token :=
  match p with
  | [] => []
  | c :: p' =>
      match open with
      | None =>
          if Ascii.eqb c "*" then Star :: tokens None p'
          else if Ascii.eqb c "?" then AnyChar :: tokens None p'
          else if Ascii.eqb c "[" then
            if closes [] p' then tokens (Some []) p' else Lit c :: tokens None p'
          else Lit c :: tokens None p'
      | Some body =>
          if Ascii.eqb c "]" && closable body
          then make_class body :: tokens None p'
          else tokens (Some (c :: body)) p'
      end
  end.

Definition in_item (c : ascii) (i : class_item) : bool :=
  match i with
  | One d => Ascii.eqb c d
  | Range lo hi =>
      ((nat_of_ascii lo <=? nat_of_ascii c) && (nat_of_ascii c <=? nat_of_ascii hi))%nat
  end.

Definition token_accepts (t : glob_token) (c : ascii) : bool :=
  match t with
  | Star | AnyChar => true
  | Lit d => Ascii.eqb c d
  | Class negated items => xorb negated (existsb (in_item c) items)
  end.

(** The whole of [s] matches the tokens. *)
Fixpoint glob_match (p : list glob_token) (s : list ascii) : bool :=
  match p with
  | [] => match s with [] => true | _ => false end
  | Star :: p' =>
      (fix skip (s : list ascii) : bool :=
         glob_match p' s || match s with [] => false | _ :: s' => skip s' end) s
  | t :: p' =>
      match s with
      | c :: s' => token_accepts t c && glob_match p' s'
      | [] => false
      end
  end.

(** [re.match(fnmatch.translate(pat), name)] as a truth value. *)
Definition fnmatch_translate_match (pat name : string) : bool :=
  glob_match (tokens None (list_ascii_of_string pat)) (list_ascii_of_string name).

(** ** The widgets of one parameter row *)

(** [self.attr] of a PanelText: which attribute of the parameter the entry
    edits. *)
Inductive attr : Type := Val | Min | Max.

Definition is_bound (a : attr) : bool :=
  match a with Val => false | Min | Max => true end.

Section Widgets.

Context {F : Type} `{PyFloat F}.

(** A model parameter ([xija] Param) as the GUI uses it; [fmt] stands for
    [par.fmt.format]. *)
Record Par : Type := mkPar {
  full_name : string;
  val : F;
  min : F;
  max : F;
  frozen : bool;
  fmt : F -> string
}.

Definition set_val (v : F) (p : Par) : Par :=
  mkPar (full_name p) v (min p) (max p) (frozen p) (fmt p).
Definition set_min (v : F) (p : Par) : Par :=
  mkPar (full_name p) (val p) v (max p) (frozen p) (fmt p).
Definition set_max (v : F) (p : Par) : Par :=
  mkPar (full_name p) (val p) (min p) v (frozen p) (fmt p).
Definition set_frozen (b : bool) (p : Par) : Par :=
  mkPar (full_name p) (val p) (min p) (max p) b (fmt p).

(** [setattr(par, attr, v)] and [getattr(par, attr)] *)
Definition setattr_par (a : attr) (v : F) : Par -> Par :=
  match a with Val => set_val v | Min => set_min v | Max => set_max v end.
Definition getattr_par (a : attr) (p : Par) : F :=
  match a with Val => val p | Min => min p | Max => max p end.

(** *** PanelSlider

    [dx] and [idx] are attributes that exist only once [set_dx] has assigned
    them; [minimum], [maximum] and [value] are the QSlider's own. *)
Record PanelSlider : Type := mkSlider {
  parmin : F;
  parmax : F;
  parval : F;
  dx : option F;
  idx : option F;
  minimum : Z;
  maximum : Z;
  value : Z;
  update_plots : bool
}.

Definition with_par (a : attr) (v : F) (s : PanelSlider) : PanelSlider :=
  match a with
  | Val => mkSlider (parmin s) (parmax s) v (dx s) (idx s)
             (minimum s) (maximum s) (value s) (update_plots s)
  | Min => mkSlider v (parmax s) (parval s) (dx s) (idx s)
             (minimum s) (maximum s) (value s) (update_plots s)
  | Max => mkSlider (parmin s) v (parval s) (dx s) (idx s)
             (minimum s) (maximum s) (value s) (update_plots s)
  end.
Definition with_dx (d : F) (s : PanelSlider) : PanelSlider :=
  mkSlider (parmin s) (parmax s) (parval s) (Some d) (idx s)
    (minimum s) (maximum s) (value s) (update_plots s).
Definition with_idx (d : F) (s : PanelSlider) : PanelSlider :=
  mkSlider (parmin s) (parmax s) (parval s) (dx s) (Some d)
    (minimum s) (maximum s) (value s) (update_plots s).
Definition with_value (n : Z) (s : PanelSlider) : PanelSlider :=
  mkSlider (parmin s) (parmax s) (parval s) (dx s) (idx s)
    (minimum s) (maximum s) n (update_plots s).
Definition with_update_plots (b : bool) (s : PanelSlider) : PanelSlider :=
  mkSlider (parmin s) (parmax s) (parval s) (dx s) (idx s)
    (minimum s) (maximum s) (value s) b.

(** Reading an attribute that was never assigned raises AttributeError. *)
Definition getattr {S} (name : string) (field : S -> option F) : M S F :=
  s <- get ;;
  match field s with
  | Some x => ret x
  | None => raise (AttributeError name)
  end.

(** An integer handed to Qt becomes a C [int]: PyQt raises OverflowError
    outside its range. *)
Definition c_int (n : Z) : exn + Z :=
  if (- 2 ^ 31 <=? n) && (n <? 2 ^ 31) then inr n else inl OverflowError.

(** [QSlider.setValue]: Qt keeps the value within [minimum .. maximum]. *)
Definition setValue (n : Z) : M PanelSlider unit :=
  k <- lift (c_int n) ;;
  modify (fun s => with_value (Z.max (minimum s) (Z.min (maximum s) k)) s).

(** [self.dx = 100.0/(self.parmax-self.parmin); self.idx = 1.0/self.dx] *)
Definition set_dx : M PanelSlider unit :=
  s <- get ;;
  d <- lift (truediv (of_int 100) (fsub (parmax s) (parmin s))) ;;
  modify (with_dx d) ;;
  i <- lift (truediv (of_int 1) d) ;;
  modify (with_idx i).

(** [step = int((val-self.parmin)*self.dx); self.setValue(step)] *)
Definition set_step_from_value (v : F) : M PanelSlider unit :=
  s <- get ;;
  d <- getattr "dx" dx ;;
  step <- lift (fint (fmul (fsub v (parmin s)) d)) ;;
  setValue step.

(** [return self.value()*self.idx + self.parmin] *)
Definition get_value_from_step : M PanelSlider F :=
  s <- get ;;
  i <- getattr "idx" idx ;;
  ret (fadd (fmul (of_int (value s)) i) (parmin s)).

Definition update_slider_val (v : F) (a : attr) : M PanelSlider unit :=
  modify (with_par a v) ;;
  when (is_bound a) set_dx ;;
  s <- get ;;
  set_step_from_value (parval s).

Definition block_plotting (block : bool) : M PanelSlider unit :=
  modify (with_update_plots (negb block)).

(** [PanelSlider.__init__]: the slider of a parameter, or the exception its
    construction raises.  A fresh QSlider has range 0..99 and value 0. *)
Definition new_PanelSlider (p : Par) : exn + PanelSlider :=
  let s0 := mkSlider (min p) (max p) (val p) None None 0 99 0 true in
  let init :=
    modify (fun s => mkSlider (parmin s) (parmax s) (parval s) (dx s) (idx s)
                       0 100 (Z.max 0 (Z.min 100 (value s))) (update_plots s)) ;;
    set_dx ;;
    set_step_from_value (val p) ;;
    modify (with_update_plots true) in
  match init s0 with
  | (s, inr _) => inr s
  | (_, inl e) => inl e
  end.

End Widgets.

Arguments Par : clear implicits.
Arguments PanelSlider : clear implicits.

(** ** A row of the parameter table and the panel around it *)

(** [QtCore.Qt.CheckState] *)
Inductive CheckState : Type := Unchecked | PartiallyChecked | Checked.

Definition is_checked (c : CheckState) : bool :=
  match c with Checked => true | _ => false end.

Section Panel.

Context {F : Type} `{PyFloat F}.

(** Row [row] of [params_table]: the parameter, column 0 (the fit
    checkbox), columns 2, 3 and 5 (the text of the val, min and max entries)
    and column 4 (the slider). *)
Record Row : Type := mkRow {
  par : Par F;
  checkbox : bool;
  text_val : string;
  text_min : string;
  slider : PanelSlider F;
  text_max : string
}.

Definition with_par_of (f : Par F -> Par F) (r : Row) : Row :=
  mkRow (f (par r)) (checkbox r) (text_val r) (text_min r) (slider r) (text_max r).
Definition with_checkbox (b : bool) (r : Row) : Row :=
  mkRow (par r) b (text_val r) (text_min r) (slider r) (text_max r).
Definition with_slider (s : PanelSlider F) (r : Row) : Row :=
  mkRow (par r) (checkbox r) (text_val r) (text_min r) s (text_max r).

(** [entry.text()] and [entry.setText(t)] of the entry that edits [a]. *)
Definition text (a : attr) (r : Row) : string :=
  match a with Val => text_val r | Min => text_min r | Max => text_max r end.
Definition setText (a : attr) (t : string) (r : Row) : Row :=
  match a with
  | Val => mkRow (par r) (checkbox r) t (text_min r) (slider r) (text_max r)
  | Min => mkRow (par r) (checkbox r) (text_val r) t (slider r) (text_max r)
  | Max => mkRow (par r) (checkbox r) (text_val r) (text_min r) (slider r) t
  end.

(** What a PanelText reaches through [self.params_panel]: its row, the
    calls of [plots_panel.update_plots] (each with its [redraw] flag) and the
    lines printed. *)
Record Panel : Type := mkPanel {
  row : Row;
  plots : list bool;
  stdout : list string
}.

Definition on_row (f : Row -> Row) (p : Panel) : Panel :=
  mkPanel (f (row p)) (plots p) (stdout p).
Definition plot (redraw : bool) : M Panel unit :=
  modify (fun p => mkPanel (row p) (plots p ++ [redraw]) (stdout p)).
Definition print (line : string) : M Panel unit :=
  modify (fun p => mkPanel (row p) (plots p) (stdout p ++ [line])).

(** *** PanelCheckBox *)

(** [self.par.frozen = state != QtCore.Qt.Checked] *)
Definition frozen_toggled (state : CheckState) (r : Row) : Row :=
  with_par_of (set_frozen (negb (is_checked state))) r.

(** [QCheckBox.setChecked]: a change of state is signalled to
    [frozen_toggled]. *)
Definition setChecked (b : bool) (r : Row) : Row :=
  if Bool.eqb (checkbox r) b then r
  else frozen_toggled (if b then Checked else Unchecked) (with_checkbox b r).

(** *** PanelText *)

Definition below_min : string :=
  "Attempted to set parameter value below minimum. Setting to min value.".
Definition above_max : string :=
  "Attempted to set parameter value below maximum. Setting to max value.".

(** The two tests run one after the other; the second reads the value the
    first may have written. *)
Definition _bounds_check (a : attr) : M Panel (option string) :=
  p <- get ;;
  msg1 <- (if fltb (val (par (row p))) (min (par (row p)))
           then
             modify (on_row (with_par_of (fun q => set_val (min q) q))) ;;
             modify (on_row (fun r => setText Val (fmt (par r) (val (par r))) r)) ;;
             ret (Some below_min)
           else ret None) ;;
  p <- get ;;
  if fgtb (val (par (row p))) (max (par (row p)))
  then
    modify (on_row (with_par_of (fun q => set_val (max q) q))) ;;
    modify (on_row (fun r => setText a (fmt (par r) (val (par r))) r)) ;;
    modify (on_row (fun r => setText Val (fmt (par r) (val (par r))) r)) ;;
    ret (Some above_max)
  else ret msg1.

Definition set_par_attr (a : attr) (v : F) : M Panel unit :=
  modify (on_row (with_par_of (setattr_par a v))) ;;
  msg <- _bounds_check a ;;
  match msg with Some m => print m | None => ret tt end ;;
  zoom (fun p => slider (row p)) (fun s => on_row (with_slider s))
    (update_slider_val v a) ;;
  plot true.

(** [float(self.text().strip())] is Python's own parser, [float_of]: it
    gives no number where Python raises ValueError. *)
Definition par_attr_changed (float_of : string -> option F) (a : attr) : M Panel unit :=
  p <- get ;;
  match float_of (strip (text a (row p))) with
  | None => ret tt
  | Some v => set_par_attr a v
  end.

(** *** PanelSlider.slider_moved *)

Definition slider_moved : M Panel unit :=
  v <- zoom (fun p => slider (row p)) (fun s => on_row (with_slider s))
         get_value_from_step ;;
  modify (on_row (with_par_of (set_val v))) ;;
  modify (on_row (fun r => setText Val (fmt (par r) v) r)) ;;
  p <- get ;;
  when (update_plots (slider (row p))) (plot false).

End Panel.

Arguments Row : clear implicits.
Arguments Panel : clear implicits.

(** ** MainWindow *)

Definition newline : string := String (ascii_of_nat 10) EmptyString.

Definition stars : string := "*********************************".

(** [str(val_label.text)]: the text of a bound method, as [text] is named
    and not called in [ParamsPanel.update].  Python ends it with the address
    of the object ([... object at 0x...>]), which is left out here: the
    properties of the refresh are stated for formatted values that do not
    begin with [<], which differ from this text and from Python's. *)
Definition str_of_text_method : string :=
  "<built-in method text of PanelText object>".

(** The characters [repr] writes with. *)
Definition single_quote : ascii := ascii_of_nat 39.
Definition double_quote : ascii := ascii_of_nat 34.
Definition backslash : ascii := ascii_of_nat 92.

Definition hex_digit (n : nat) : ascii :=
  ascii_of_nat (if (n <? 10)%nat then 48 + n else 87 + n).

(** One character of a text inside the quotes [quote]. *)
Definition repr_char (quote c : ascii) : string :=
  let n := nat_of_ascii c in
  if Ascii.eqb c quote || Ascii.eqb c backslash
  then String backslash (String c EmptyString)
  else if (n =? 9)%nat then String backslash "t"
  else if (n =? 10)%nat then String backslash "n"
  else if (n =? 13)%nat then String backslash "r"
  else if (n <? 32)%nat || (n =? 127)%nat
  then String backslash
         (String "x" (String (hex_digit (n / 16))
                        (String (hex_digit (n mod 16)) EmptyString)))
  else String c EmptyString.

Fixpoint repr_chars (quote : ascii) (s : string) : string :=
  match s with
  | EmptyString => EmptyString
  | String c s' => (repr_char quote c ++ repr_chars quote s')%string
  end.

(** [repr(s)] of a [str] (ASCII; the bytes of other characters are kept):
    double quotes when the text holds a single quote and no double quote,
    single quotes otherwise; the quote and the backslash are escaped by a
    backslash, tab, newline and return are written [\t], [\n], [\r], and any
    other control character [\xNN]. *)
Definition repr_str (s : string) : string :=
  let quote :=
    if has_char single_quote s && negb (has_char double_quote s)
    then double_quote else single_quote in
  String quote (repr_chars quote s ++ String quote EmptyString).

(** The text [str.format] puts for a list of strings. *)
Definition repr_list (l : list string) : string :=
  ("[" ++ String.concat ", " (map repr_str l) ++ "]")%string.

(** [status in ('terminated', 'finished')] *)
Definition terminal (st : string) : bool :=
  String.eqb st "terminated" || String.eqb st "finished".

Section MainWindow.

Context {F : Type} `{PyFloat F}.

(** A message of the fit worker: a dict that may lack either key. *)
Record Msg : Type := mkMsg {
  status : option string;
  parvals : option (list F)
}.

(** [bool(msg)] of a dict: it has a key. *)
Definition nonempty (m : Msg) : bool :=
  match status m, parvals m with
  | None, None => false
  | _, _ => true
  end.

(** The window with what its methods reach: the parameter table (one row
    per [model.pars] entry, in order), the calls of [plots_box.update_plots],
    the lines printed, the messages waiting in [fit_worker.parent_pipe], the
    calls of [fit_process.join], the delays of the single-shot timers armed,
    the vectors assigned to [model.parvals], the line-data window and the
    model's dates and mask. *)
Record MainWindow : Type := mkMainWindow {
  table : list (Row F);
  plot_calls : list bool;
  printed : list string;
  parent_pipe : list Msg;
  joins : nat;
  timers : list Z;
  assigned : list (list F);
  show_line : bool;
  line_updates : nat;
  datestart : string;
  datestop : string;
  mask_times : list (list string)
}.

Definition with_table (x : list (Row F)) (w : MainWindow) : MainWindow :=
  mkMainWindow x (plot_calls w) (printed w) (parent_pipe w)
    (joins w) (timers w) (assigned w) (show_line w)
    (line_updates w) (datestart w) (datestop w) (mask_times w).
Definition with_plot_calls (x : list bool) (w : MainWindow) : MainWindow :=
  mkMainWindow (table w) x (printed w) (parent_pipe w)
    (joins w) (timers w) (assigned w) (show_line w)
    (line_updates w) (datestart w) (datestop w) (mask_times w).
Definition with_printed (x : list string) (w : MainWindow) : MainWindow :=
  mkMainWindow (table w) (plot_calls w) x (parent_pipe w)
    (joins w) (timers w) (assigned w) (show_line w)
    (line_updates w) (datestart w) (datestop w) (mask_times w).
Definition with_parent_pipe (x : list Msg) (w : MainWindow) : MainWindow :=
  mkMainWindow (table w) (plot_calls w) (printed w) x
    (joins w) (timers w) (assigned w) (show_line w)
    (line_updates w) (datestart w) (datestop w) (mask_times w).
Definition with_joins (x : nat) (w : MainWindow) : MainWindow :=
  mkMainWindow (table w) (plot_calls w) (printed w) (parent_pipe w)
    x (timers w) (assigned w) (show_line w)
    (line_updates w) (datestart w) (datestop w) (mask_times w).
Definition with_timers (x : list Z) (w : MainWindow) : MainWindow :=
  mkMainWindow (table w) (plot_calls w) (printed w) (parent_pipe w)
    (joins w) x (assigned w) (show_line w)
    (line_updates w) (datestart w) (datestop w) (mask_times w).
Definition with_assigned (x : list (list F)) (w : MainWindow) : MainWindow :=
  mkMainWindow (table w) (plot_calls w) (printed w) (parent_pipe w)
    (joins w) (timers w) x (show_line w)
    (line_updates w) (datestart w) (datestop w) (mask_times w).
Definition with_line_updates (x : nat) (w : MainWindow) : MainWindow :=
  mkMainWindow (table w) (plot_calls w) (printed w) (parent_pipe w)
    (joins w) (timers w) (assigned w) (show_line w)
    x (datestart w) (datestop w) (mask_times w).
Definition with_mask_times (x : list (list string)) (w : MainWindow) : MainWindow :=
  mkMainWindow (table w) (plot_calls w) (printed w) (parent_pipe w)
    (joins w) (timers w) (assigned w) (show_line w)
    (line_updates w) (datestart w) (datestop w) x.

Definition say (line : string) : M MainWindow unit :=
  modify (fun w => with_printed (printed w ++ [line]) w).
Definition update_plots_box (redraw : bool) : M MainWindow unit :=
  modify (fun w => with_plot_calls (plot_calls w ++ [redraw]) w).

(** [msg[key]] *)
Definition getitem {S A} (key : string) (field : option A) : M S A :=
  match field with
  | Some x => ret x
  | None => raise (KeyError key)
  end.

(** Modelled from the spec: the setter of [model.parvals] (xija's
    ThermalModel is not among the sources).  A vector whose length is not
    the number of parameters fails with ShapeMismatch and changes nothing;
    any other overwrites every [val], in order. *)
Definition set_parvals (vals : list F) : M MainWindow unit :=
  w <- get ;;
  if negb (Nat.eqb (length vals) (length (table w)))
  then raise ShapeMismatch
  else
    modify (with_table
              (map (fun rv => with_par_of (set_val (snd rv)) (fst rv))
                   (combine (table w) vals))) ;;
    modify (fun w => with_assigned (assigned w ++ [vals]) w).

(** [model.parvals] *)
Definition get_parvals (w : MainWindow) : list F :=
  map (fun r => val (par r)) (table w).

(** The body of the loop of [ParamsPanel.update], on one row. *)
Definition update_row : M (Row F) unit :=
  r <- get ;;
  let par_val_text := fmt (par r) (val (par r)) in
  if negb (String.eqb str_of_text_method par_val_text)
  then
    modify (setText Val par_val_text) ;;
    zoom slider with_slider
      (block_plotting true ;;
       set_step_from_value (val (par r)) ;;
       block_plotting false)
  else ret tt.

(** [ParamsPanel.update] *)
Definition update : M MainWindow unit :=
  fun w => let (rs, r) := for_each update_row (table w) in (with_table rs w, r).

(** The [while] loop of [fit_monitor] over the messages [q] waiting in the
    pipe: [poll()] holds while one is left and [recv()] takes the first.  It
    returns the last message read and [fit_stopped]. *)
Fixpoint recv_loop (q : list Msg) (msg : option Msg) : M MainWindow (option Msg * bool) :=
  match q with
  | [] => ret (msg, false)
  | m :: q' =>
      modify (with_parent_pipe q') ;;
      st <- getitem "status" (status m) ;;
      if terminal st
      then
        modify (fun w => with_joins (S (joins w)) w) ;;
        say (newline ++ stars)%string ;;
        say ("  FIT " ++ upper st)%string ;;
        say (stars ++ newline)%string ;;
        ret (Some m, true)
      else recv_loop q' (Some m)
  end.

Definition fit_monitor : M MainWindow unit :=
  w <- get ;;
  r <- recv_loop (parent_pipe w) None ;;
  let (msg, fit_stopped) := r in
  match msg with
  | Some m =>
      when (nonempty m)
        (vals <- getitem "parvals" (parvals m) ;;
         set_parvals vals ;;
         update ;;
         update_plots_box fit_stopped ;;
         w <- get ;;
         when (show_line w)
           (modify (fun w => with_line_updates (S (line_updates w)) w)))
  | None => ret tt
  end ;;
  when (negb fit_stopped)
    (modify (fun w => with_timers (timers w ++ [200]) w)).

(** *** The command line *)

Definition known_command (cmd : string) : bool :=
  String.eqb cmd "freeze" || String.eqb cmd "thaw" ||
  String.eqb cmd "ignore" || String.eqb cmd "notice".

(** The body of the inner loop of freeze and thaw: a pattern that matches
    the full name sets the checkbox and the flag. *)
Definition freeze_step (thaw : bool) (r : Row F) (par_regex : string) : Row F :=
  if fnmatch_translate_match par_regex (full_name (par r))
  then with_par_of (set_frozen (negb thaw)) (setChecked thaw r)
  else r.

(** [for par_regex in par_regexes: ...] on one row. *)
Definition freeze_row (thaw : bool) (par_regexes : list string) (r : Row F) : Row F :=
  fold_left (freeze_step thaw) par_regexes r.

(** [lim[i] = date if lim[i] == "*"], for an index that exists. *)
Definition star_to (date : string) (s : string) : string :=
  if String.eqb s "*" then date else s.

(** [DateTime_date] stands for [DateTime(lim).date] of Chandra.Time, with no
    result where it raises ChandraTimeError.

    Modelled from the spec: [model.append_mask_times] and
    [model.reset_mask_times] (xija's ThermalModel is not among the sources):
    the first appends one interval to the mask, the second empties it. *)
Definition parse_command (DateTime_date : list string -> option (list string))
  (command : string) : M MainWindow unit :=
  match split command with
  | [] => raise IndexError
  | cmd :: args =>
      if negb (known_command cmd) ||
         (negb (String.eqb cmd "notice") && (length (cmd :: args) <? 2)%nat)
      then say ("ERROR: bad command: " ++ command)%string
      else if String.eqb cmd "freeze" || String.eqb cmd "thaw"
      then
        modify (fun w => with_table
                  (map (freeze_row (String.eqb cmd "thaw") args) (table w)) w)
      else if String.eqb cmd "ignore"
      then
        w <- get ;;
        let arg := hd EmptyString args in
        match split_on "-" arg with
        | start :: stop :: more =>
            let lim := star_to (datestart w) start :: star_to (datestop w) stop :: more in
            match DateTime_date lim with
            | Some dates =>
                modify (with_mask_times (mask_times w ++ [dates])) ;;
                update_plots_box true
            | None => say ("Invalid input for ignore: " ++ arg)%string
            end
        | _ => say ("Invalid input for ignore: " ++ arg)%string
        end
      else
        match args with
        | [] => modify (with_mask_times []) ;; update_plots_box true
        | _ => say ("Invalid input for notice: " ++ repr_list args)%string
        end
  end.

End MainWindow.

Arguments Msg : clear implicits.
Arguments MainWindow : clear implicits.

(** ** Notions the properties are stated with *)

Section Notions.

Context {F : Type} `{PyFloat F}.

(** The parameter [_bounds_check] leaves: the second test reads the value
    the first one wrote. *)
Definition bounds_checked (q : Par F) : Par F :=
  let q1 := if fltb (val q) (min q) then set_val (min q) q else q in
  if fgtb (val q1) (max q1) then set_val (max q1) q1 else q1.

(** [dx] as [set_dx] computes it from the bounds. *)
Definition scale_of (lo hi : F) : F := fquot (of_int 100) (fsub hi lo).

(** The value [v] of [p] sent to its slider and read back: the slider is
    built for [p] holding [v] (which sets its step from [v]), then
    [get_value_from_step()]. *)
Definition round_trip (p : Par F) (v : F) : exn + F :=
  match new_PanelSlider (set_val v p) with
  | inl e => inl e
  | inr s => outcome (get_value_from_step s)
  end.

(** Rounding to the nearest integer (ties away from zero). *)
Definition nearest (x : F) : exn + Z :=
  let half := fquot (of_int 1) (of_int 2) in
  if fltb x (of_int 0) then fint (fsub x half) else fint (fadd x half).

(** The position in the words of the design document:
    [round((val - min) * scale)] with [scale = 100 / (max - min)], clamped
    to 0..100. *)
Definition rounded_position (p : Par F) : exn + Z :=
  match truediv (of_int 100) (fsub (max p) (min p)) with
  | inl e => inl e
  | inr d =>
      match nearest (fmul (fsub (val p) (min p)) d) with
      | inl e => inl e
      | inr n => inr (Z.max 0 (Z.min 100 n))
      end
  end.

(** The rescale of the design document: a zero range is signalled by an
    error that is not the division's own, and any other range divides by
    nothing that is zero. *)
Definition guarded_rescale (s : PanelSlider F) : Prop :=
  (fzero (fsub (parmax s) (parmin s)) = true ->
   exists e, outcome (set_dx s) = inl e /\ e <> ZeroDivisionError) /\
  (fzero (fsub (parmax s) (parmin s)) = false ->
   outcome (set_dx s) <> inl ZeroDivisionError).

(** A message the loop reads past: its status is there and is not
    terminal. *)
Definition running (m : Msg F) : Prop :=
  exists st, status m = Some st /\ terminal st = false.

(** A malformed message for a model of [n] parameters. *)
Definition malformed (n : nat) (m : Msg F) : Prop :=
  status m = None \/ parvals m = None \/
  exists vals, parvals m = Some vals /\ length vals <> n.

(** The window after the join and the banner of a stopped fit. *)
Definition stopped (st : string) (w : MainWindow F) : MainWindow F :=
  with_printed
    (printed w ++ [(newline ++ stars)%string; ("  FIT " ++ upper st)%string;
                   (stars ++ newline)%string])
    (with_joins (S (joins w)) w).

(** The tick of the design document on a malformed message: it is logged,
    no value changes, the worker is not joined and the timer is armed
    again. *)
Definition skipped_tick (w w' : MainWindow F) : Prop :=
  printed w' <> printed w /\ get_parvals w' = get_parvals w /\
  joins w' = joins w /\ timers w' = timers w ++ [200].

(** A full name matches one of the patterns. *)
Definition matches_any (pats : list string) (name : string) : bool :=
  existsb (fun pat => fnmatch_translate_match pat name) pats.

End Notions.

Definition keyword (thaw : bool) : string := if thaw then "thaw" else "freeze".

(** The NaN of the specification of binary64. *)
Definition sf_nan (x : spec_float) : bool :=
  match x with S754_nan => true | _ => false end.

(** The exact value of a binary64 number that is finite. *)
Definition float_Q (x : float) : option Q :=
  match Prim2SF x with
  | S754_zero _ => Some 0%Q
  | S754_finite s m e =>
      let a := (inject_Z (Zpos m) * (if 0 <=? e then inject_Z (2 ^ e)
                                     else / inject_Z (2 ^ (- e))))%Q in
      Some (if s then (- a)%Q else a)
  | _ => None
  end.

(** *** The part of [float()] the examples use: integer literals *)

Fixpoint digits (acc : Z) (s : string) : option Z :=
  match s with
  | EmptyString => Some acc
  | String c s' =>
      let n := Z.of_nat (nat_of_ascii c) in
      if (48 <=? n) && (n <=? 57) then digits (10 * acc + (n - 48)) s' else None
  end.

Definition int_literal (s : string) : option Z :=
  match s with
  | EmptyString => None
  | String "-" (String c s' as t) => option_map Z.opp (digits 0 t)
  | _ => digits 0 s
  end.

Definition float_of_literal {F} `{PyFloat F} (s : string) : option F :=
  option_map of_int (int_literal s).

(** *** Example states *)

Open Scope float_scope.

(** A format that shows a mark, whatever the value. *)
Definition fmt_mark {F} (x : F) : string := "#".

(** val 5 in 0..10 *)
Definition par_5_in_0_10 : Par float :=
  mkPar "solarheat__pitch_P60" 5 0 10 false fmt_mark.

(** val 5 with the bounds the wrong way round: min 10, max 0 *)
Definition par_inverted : Par float :=
  mkPar "solarheat__pitch_P60" 5 10 0 false fmt_mark.

(** The row [ParamsPanel.__init__] builds for a parameter, once its slider
    is there. *)
Definition row_of {F} (p : Par F) (s : PanelSlider F) : Row F :=
  mkRow p (negb (frozen p)) (fmt p (val p)) (fmt p (min p)) s (fmt p (max p)).

Definition slider_5_in_0_10 : PanelSlider float :=
  mkSlider 0 10 5 (Some 10) (Some (1 / 10)) 0 100 50 true.

Definition slider_inverted : PanelSlider float :=
  mkSlider 10 0 5 (Some (-10)) (Some (1 / -10)) 0 100 50 true.

Definition panel_5_in_0_10 : Panel float :=
  mkPanel (row_of par_5_in_0_10 slider_5_in_0_10) [] [].

Definition panel_inverted : Panel float :=
  mkPanel (row_of par_inverted slider_inverted) [] [].

(** The entry of [val] holding text that is no number. *)
Definition panel_typed_junk : Panel float :=
  mkPanel (setText Val " 1.2.3 " (row_of par_5_in_0_10 slider_5_in_0_10)) [] [].

(** A slider whose range is zero, and one whose range overflows binary64. *)
Definition slider_flat : PanelSlider float :=
  mkSlider 1 1 1 None None 0 100 0 true.

Definition slider_huge : PanelSlider float :=
  mkSlider (-0x1p1023) 0x1p1023 0 None None 0 100 0 true.

(** val 2.75 in 0..100 *)
Definition par_2_75 : Par float := mkPar "a" 2.75 0 100 false fmt_mark.

(** bounds 1..4 and the binary64 number nearest 1.18 *)
Definition par_1_4 : Par float := mkPar "a" 1 1 4 false fmt_mark.

Definition near_1_18 : float := 0x1.2e147ae147ae1p+0.

(** A window of two parameters with the given messages waiting. *)
Definition window (names : string * string) (pipe : list (Msg float)) : MainWindow float :=
  let p1 := mkPar (fst names) 5 0 10 false fmt_mark in
  let p2 := mkPar (snd names) 5 0 10 false fmt_mark in
  mkMainWindow [row_of p1 slider_5_in_0_10; row_of p2 slider_5_in_0_10]
    [] [] pipe 0 [] [] false 0 "2020:001" "2021:001" [].

Definition batch : list (Msg float) :=
  [mkMsg (Some "running") (Some [1; 2]);
   mkMsg (Some "running") (Some [1; 3]);
   mkMsg (Some "finished") (Some [1; 4])].

Definition no_status : Msg float := mkMsg None (Some [1; 2]).

(** The panels after 20, 5 and NaN are written as values, and after 7 is
    written as min. *)
Definition wrote_20 : Panel float :=
  state_of (set_par_attr Val 20 panel_5_in_0_10).

Definition wrote_5_inverted : Panel float :=
  state_of (set_par_attr Val 5 panel_inverted).

Definition wrote_nan : Panel float :=
  state_of (set_par_attr Val nan panel_5_in_0_10).

Definition wrote_min_7 : Panel float :=
  state_of (set_par_attr Min 7 panel_5_in_0_10).

(** The window of foo.bar and qux.bar, and one tick on it. *)
Definition foo_qux (pipe : list (Msg float)) : MainWindow float :=
  window ("foo.bar", "qux.bar") pipe.

Definition tick (pipe : list (Msg float)) : MainWindow float :=
  state_of (fit_monitor (foo_qux pipe)).

(** The same window after the command [freeze foo*]. *)
Definition froze_foo : MainWindow float :=
  state_of (parse_command (fun _ => None) "freeze foo*" (foo_qux [])).

Close Scope float_scope.

(** ** More of the file: the widgets put together *)

Section Assembly.

Context {F : Type} `{PyFloat F}.

(** The loop of [ParamsPanel.__init__]: one row per parameter, in order, or
    the exception the first slider that cannot be built raises. *)
Fixpoint new_ParamsPanel (pars : list (Par F)) : exn + list (Row F) :=
  match pars with
  | [] => inr []
  | p :: pars' =>
      match new_PanelSlider p with
      | inl e => inl e
      | inr s =>
          match new_ParamsPanel pars' with
          | inl e => inl e
          | inr rows => inr (row_of p s :: rows)
          end
      end
  end.

(** [MainWindow.command_activated] on the text of the command entry and the
    window: an empty command returns at once, any other is parsed and the
    entry is cleared. *)
Definition command_activated
  (DateTime_date : list string -> option (list string))
  : M (string * MainWindow F) unit :=
  s <- get ;;
  let command := strip (fst s) in
  if String.eqb command EmptyString then ret tt
  else
    zoom snd (fun w s => (fst s, w)) (parse_command DateTime_date command) ;;
    modify (fun s => (EmptyString, snd s)).

(** The QSlider of a PanelSlider keeps the range its constructor set and a
    value within it. *)
Definition in_range (s : PanelSlider F) : Prop :=
  minimum s = 0 /\ maximum s = 100 /\ 0 <= value s <= 100.

(** The mapping of a slider is the one of its bounds. *)
Definition rescaled (s : PanelSlider F) : Prop :=
  dx s = Some (scale_of (parmin s) (parmax s)) /\
  idx s = Some (fquot (of_int 1) (scale_of (parmin s) (parmax s))).

(** The checkbox of a row shows its parameter as thawed. *)
Definition in_step (r : Row F) : Prop := checkbox r = negb (frozen (par r)).

(** What a command never writes: name, value and bounds of a row's
    parameter, its texts and its slider. *)
Definition untouched (r r' : Row F) : Prop :=
  full_name (par r') = full_name (par r) /\ val (par r') = val (par r) /\
  min (par r') = min (par r) /\ max (par r') = max (par r) /\
  text_val r' = text_val r /\ text_min r' = text_min r /\
  text_max r' = text_max r /\ slider r' = slider r.

(** The formatted value of the row is not of the form of a [repr]: it does
    not begin with [<], as no format of a number does. *)
Definition shows_number (r : Row F) : Prop :=
  forall t, fmt (par r) (val (par r)) <> String "<" t.

(** A row the loop body of [ParamsPanel.update] has returned on: the text
    of the value is the formatted value, the slider stands at the step of
    the value in the slider's own mapping, and plotting is on again. *)
Definition refreshed (r r' : Row F) : Prop :=
  par r' = par r /\
  text_val r' = fmt (par r) (val (par r)) /\
  update_plots (slider r') = true /\
  exists d step,
    dx (slider r) = Some d /\
    fint (fmul (fsub (val (par r)) (parmin (slider r))) d) = inr step /\
    value (slider r') =
      Z.max (minimum (slider r)) (Z.min (maximum (slider r)) step).

(** The row [ParamsPanel.__init__] makes of a parameter. *)
Definition built (p : Par F) (r : Row F) : Prop :=
  par r = p /\ checkbox r = negb (frozen p) /\
  text_val r = fmt p (val p) /\ text_min r = fmt p (min p) /\
  text_max r = fmt p (max p) /\
  parmin (slider r) = min p /\ parmax (slider r) = max p /\
  parval (slider r) = val p /\
  rescaled (slider r) /\ in_range (slider r) /\
  update_plots (slider r) = true.

(** The bounds of a row's slider are the bounds of its parameter. *)
Definition mirrors (r : Row F) : Prop :=
  parmin (slider r) = min (par r) /\ parmax (slider r) = max (par r).

(** The bounds of the parameter and of the slider are in [r'] what they
    are in [r]. *)
Definition same_bounds (r r' : Row F) : Prop :=
  min (par r') = min (par r) /\ max (par r') = max (par r) /\
  parmin (slider r') = parmin (slider r) /\
  parmax (slider r') = parmax (slider r).

End Assembly.

(** ** Dictionaries *)

(** A [dict] with string keys: the keys are distinct, a key that is set
    again keeps its place. *)
Definition dict (V : Type) : Type := list (string * V).

(** [d[k]], [None] for a missing key *)
Fixpoint dict_getitem {V} (k : string) (d : dict V) : option V :=
  match d with
  | [] => None
  | (k', v) :: d' => if String.eqb k k' then Some v else dict_getitem k d'
  end.

(** [d[k] = v] *)
Fixpoint dict_setitem {V} (k : string) (v : V) (d : dict V) : dict V :=
  match d with
  | [] => [(k, v)]
  | (k', v') :: d' =>
      if String.eqb k k' then (k, v) :: d' else (k', v') :: dict_setitem k v d'
  end.

(** ** WidgetTable

    A [dict] of widgets keyed by [(row, col)], beside the QTableWidget that
    shows them. *)

(** A column as [__getitem__] is given it: a numeric index or a column
    name. *)
Inductive column : Type :=
| Index (i : Z)
| Name (s : string).

Definition column_eqb (a b : column) : bool :=
  match a, b with
  | Index i, Index j => Z.eqb i j
  | Name s, Name t => String.eqb s t
  | _, _ => false
  end.

Definition rowcol_eqb (a b : Z * column) : bool :=
  Z.eqb (fst a) (fst b) && column_eqb (snd a) (snd b).

Section WidgetTable.

Variable W : Type.

(** [colnames], the items of the dict, and the calls of
    [table.setCellWidget] so far. *)
Record WidgetTable : Type := mkWidgetTable {
  colnames : list string;
  items : list ((Z * column) * W);
  cell_widgets : list (Z * Z * W)
}.

(** [dict.__getitem__(self, key)], [None] for KeyError *)
Fixpoint dict___getitem__ (key : Z * column) (d : list ((Z * column) * W))
  : option W :=
  match d with
  | [] => None
  | (k, w) :: d' => if rowcol_eqb key k then Some w else dict___getitem__ key d'
  end.

(** [dict.__setitem__(self, key, widget)] *)
Fixpoint dict___setitem__ (key : Z * column) (widget : W)
  (d : list ((Z * column) * W)) : list ((Z * column) * W) :=
  match d with
  | [] => [(key, widget)]
  | (k, w) :: d' =>
      if rowcol_eqb key k then (key, widget) :: d'
      else (k, w) :: dict___setitem__ key widget d'
  end.

(** [colnames.index(col)] for a [col in colnames]: the first place of the
    name, counted from [i]. *)
Fixpoint index_from (i : Z) (col : string) (colnames : list string) : option Z :=
  match colnames with
  | [] => None
  | c :: colnames' =>
      if String.eqb col c then Some i else index_from (i + 1) col colnames'
  end.

(** [self[row, col]]: a name among [colnames] stands for its index; a
    number, or a name that is no column, is looked up as it is. *)
Definition __getitem__ (rowcol : Z * column) (t : WidgetTable) : option W :=
  let (row, col) := rowcol in
  let col :=
    match col with
    | Name s =>
        match index_from 0 s (colnames t) with
        | Some i => Index i
        | None => col
        end
    | Index _ => col
    end in
  dict___getitem__ (row, col) (items t).

(** [self[row, col] = widget] for a numeric [col], as every assignment of
    the file has it. *)
Definition __setitem__ (row col : Z) (widget : W) (t : WidgetTable)
  : WidgetTable :=
  mkWidgetTable (colnames t)
    (dict___setitem__ (row, Index col) widget (items t))
    (cell_widgets t ++ [(row, col, widget)]).

(** The keys of the dict are numeric, as [__setitem__] leaves them. *)
Definition numeric_keys (t : WidgetTable) : Prop :=
  Forall (fun kw => exists i, snd (fst kw) = Index i) (items t).

End WidgetTable.

(** The columns of the table of parameters. *)
Definition params_colnames : list string :=
  ["fit"; "name"; "val"; "min"; EmptyString; "max"].

(** ** LineDataWindow

    The window that lists, for the time under the line of the plots, the
    date and the values of every telemetry item. *)

(** [s.endswith(suffix)]: the suffix, read backwards, starts [s] read
    backwards. *)
Fixpoint starts (prefix s : list ascii) : bool :=
  match prefix, s with
  | [], _ => true
  | c :: prefix', d :: s' => Ascii.eqb c d && starts prefix' s'
  | _ :: _, [] => false
  end.

Definition endswith (s suffix : string) : bool :=
  starts (rev (list_ascii_of_string suffix)) (rev (list_ascii_of_string s)).

(** [repr(n)] of a natural number *)
Definition repr_nat (n : nat) : string :=
  DecimalString.NilZero.string_of_uint (Nat.to_uint n).

(** [xs[i]] *)
Definition list_getitem {S A} (xs : list A) (i : nat) : M S A :=
  match nth_error xs i with
  | Some x => ret x
  | None => raise IndexError
  end.

(** [obj.name] for an attribute that may not be there *)
Definition attribute {S A} (name : string) (field : option A) : M S A :=
  match field with
  | Some x => ret x
  | None => raise (AttributeError name)
  end.

(** [for x in xs: body(x)] on one object *)
Fixpoint for_in {S A} (xs : list A) (body : A -> M S unit) : M S unit :=
  match xs with
  | [] => ret tt
  | x :: xs' => body x ;; for_in xs' body
  end.

Section LineDataWindow.

(** The values of the telemetry, and [fmt.format(val)]. *)
Variable V : Type.
Variable format : string -> V -> string.

(** A telemetry item: [dvals] with whether its dtype is [np.float64], and
    [mvals] and [resids] where the item has them. *)
Record TelemData : Type := mkTelemData {
  dvals : list V;
  dtype_float64 : bool;
  mvals : option (list V);
  resids : option (list V)
}.

(** The window: [labels] holds the texts of the two labels of each row of
    its table, column 0 and column 1. *)
Record LineDataWindow : Type := mkLineDataWindow {
  telem_data : dict TelemData;
  data_names : list string;
  data_basenames : list string;
  formats : list string;
  nrows : nat;
  labels : list (string * string)
}.

(** The body of the first loop of [__init__], on the three lists. *)
Definition add_names (item : string * TelemData)
  (l : list string * list string * list string)
  : list string * list string * list string :=
  let '(data_names, data_basenames, formats) := l in
  let (name, data) := item in
  let fmt := if dtype_float64 data then "{0:.4f}" else "{0}" in
  match resids data with
  | Some _ =>
      (data_names ++ [name; (name ++ "_model")%string; (name ++ "_resid")%string],
       data_basenames ++ [name; name; name],
       formats ++ [fmt; fmt; fmt])
  | None =>
      (data_names ++ [name], data_basenames ++ [name], formats ++ [fmt])
  end.

Definition with_labels (l : list (string * string)) (w : LineDataWindow)
  : LineDataWindow :=
  mkLineDataWindow (telem_data w) (data_names w) (data_basenames w)
    (formats w) (nrows w) l.

(** The labels with the text [t] in column 1 of the row [row]. *)
Definition set_label (row : nat) (t : string) (l : list (string * string))
  : list (string * string) :=
  firstn row l ++
  match skipn row l with
  | (name, _) :: rest => (name, t) :: rest
  | [] => []
  end.

(** [self.table[row, 1].setText(text)] *)
Definition setText_value (row : nat) (text : M LineDataWindow string)
  : M LineDataWindow unit :=
  w <- get ;;
  match nth_error (labels w) row with
  | None => raise (KeyError ("(" ++ repr_nat row ++ ", 1)"))
  | Some _ =>
      t <- text ;;
      modify (fun w => with_labels (set_label row t (labels w)) w)
  end.

(** The body of the loop of [update_data]. *)
Definition update_data_row (pos : nat) (row : nat) : M LineDataWindow unit :=
  w <- get ;;
  name <- list_getitem (data_names w) (row - 1) ;;
  basenm <- list_getitem (data_basenames w) (row - 1) ;;
  val <- (if endswith name "_model" then
            data <- getitem basenm (dict_getitem basenm (telem_data w)) ;;
            a <- attribute "mvals" (mvals data) ;;
            list_getitem a pos
          else if endswith name "_resid" then
            data <- getitem basenm (dict_getitem basenm (telem_data w)) ;;
            a <- attribute "resids" (resids data) ;;
            list_getitem a pos
          else
            data <- getitem basenm (dict_getitem basenm (telem_data w)) ;;
            list_getitem (dvals data) pos) ;;
  setText_value row
    (fmt <- list_getitem (formats w) (row - 1) ;; ret (format fmt val)).

(** [LineDataWindow.update_data], given the dates of the model and the
    place [np.searchsorted] finds for the line. *)
Definition update_data (dates : list string) (pos : nat)
  : M LineDataWindow unit :=
  date <- list_getitem dates pos ;;
  setText_value 0 (ret date) ;;
  w <- get ;;
  for_in (seq 1 (nrows w - 1)) (update_data_row pos).

(** [LineDataWindow.__init__] *)
Definition new_LineDataWindow (telem_data : dict TelemData)
  (dates : list string) (pos : nat) : exn + LineDataWindow :=
  let '(data_names, data_basenames, formats) :=
    fold_left (fun l item => add_names item l) telem_data ([], [], []) in
  let nrows := S (length data_names) in
  let init :=
    modify (fun w => with_labels (labels w ++ [("date", EmptyString)]) w) ;;
    for_in (seq 1 (nrows - 1)) (fun row =>
      name <- list_getitem data_names (row - 1) ;;
      modify (fun w => with_labels (labels w ++ [(name, EmptyString)]) w)) ;;
    update_data dates pos in
  match init (mkLineDataWindow telem_data data_names data_basenames formats
                nrows []) with
  | (w, inr _) => inr w
  | (_, inl e) => inl e
  end.

(** The value the row of the name [name] and base name [base] reads at
    [pos]. *)
Definition reads (telem : dict TelemData) (pos : nat) (name base : string)
  (v : V) : Prop :=
  exists data,
    dict_getitem base telem = Some data /\
    if endswith name "_model" then
      exists a, mvals data = Some a /\ nth_error a pos = Some v
    else if endswith name "_resid" then
      exists a, resids data = Some a /\ nth_error a pos = Some v
    else nth_error (dvals data) pos = Some v.

(** The names, base names and formats one item adds. *)
Definition item_names (item : string * TelemData) : list string :=
  match resids (snd item) with
  | Some _ => [fst item; (fst item ++ "_model")%string;
               (fst item ++ "_resid")%string]
  | None => [fst item]
  end.

Definition item_basenames (item : string * TelemData) : list string :=
  match resids (snd item) with
  | Some _ => [fst item; fst item; fst item]
  | None => [fst item]
  end.

Definition item_formats (item : string * TelemData) : list string :=
  let fmt := if dtype_float64 (snd item) then "{0:.4f}" else "{0}" in
  match resids (snd item) with
  | Some _ => [fmt; fmt; fmt]
  | None => [fmt]
  end.

(** A window as [__init__] lays it out for the telemetry [telem]: the
    three lists item by item, one row for the date and one for each
    name. *)
Definition laid_out (telem : dict TelemData) (w : LineDataWindow) : Prop :=
  telem_data w = telem /\
  data_names w = flat_map item_names telem /\
  data_basenames w = flat_map item_basenames telem /\
  formats w = flat_map item_formats telem /\
  nrows w = S (length (data_names w)) /\
  map fst (labels w) = "date" :: data_names w.

(** What the rows of one item show when the line is at [pos]: the data,
    and for an item with residuals the model and the residuals too. *)
Definition shows (pos : nat) (item : string * TelemData)
  (rows : list (string * string)) : Prop :=
  let (name, data) := item in
  let fmt := if dtype_float64 data then "{0:.4f}" else "{0}" in
  exists d,
    nth_error (dvals data) pos = Some d /\
    match resids data with
    | None => rows = [(name, format fmt d)]
    | Some rs =>
        exists ms m r,
          mvals data = Some ms /\ nth_error ms pos = Some m /\
          nth_error rs pos = Some r /\
          rows = [(name, format fmt d);
                  ((name ++ "_model")%string, format fmt m);
                  ((name ++ "_resid")%string, format fmt r)]
    end.

(** A name that is taken for neither a model nor a residual row. *)
Definition plain_name (name : string) : Prop :=
  endswith name "_model" = false /\ endswith name "_resid" = false.

End LineDataWindow.

(** ** The start of the program

    What [main] does to the model before the window opens: the data values
    of [--set-data] and the parameters of [--inherit-from]. *)

(** [re.sub('\s', '', s)] (ASCII) *)
Fixpoint remove_space (s : string) : string :=
  match s with
  | EmptyString => EmptyString
  | String c s' =>
      if is_space c then remove_space s' else String c (remove_space s')
  end.

(** [s.count(sep)] for a one-character [sep] *)
Fixpoint count_char (sep : ascii) (s : string) : nat :=
  match s with
  | EmptyString => O
  | String c s' => (if Ascii.eqb c sep then 1 else 0) + count_char sep s'
  end.

Section SetData.

(** The values [ast.literal_eval] gives, and the function itself. *)
Variable V : Type.
Variable literal_eval : string -> exn + V.

(** The body of the loop of [main] over [opt.set_data_exprs], on
    [set_data_vals]: an expression that is not of the form
    [<comp_name>=<value>] raises ValueError. *)
Definition set_data_expr (expr : string) : M (dict V) unit :=
  let expr := remove_space expr in
  match split_on "=" expr with
  | [comp_name; val] =>
      v <- lift (literal_eval val) ;;
      modify (dict_setitem comp_name v)
  | _ => raise ValueError
  end.

(** [for set_data_expr in opt.set_data_exprs: ...] *)
Fixpoint set_data_exprs (exprs : list string) : M (dict V) unit :=
  match exprs with
  | [] => ret tt
  | expr :: exprs' => set_data_expr expr ;; set_data_exprs exprs'
  end.

(** The value the last of the assignments [assigns] gives the key [k]. *)
Definition last_assigned (k : string) (assigns : list (string * V)) : option V :=
  option_map snd (find (fun nv => String.eqb k (fst nv)) (rev assigns)).

(** The expression reads [<name>=<text>] once its whitespace is removed,
    and the text evaluates to the value. *)
Definition reads_as (expr : string) (nv : string * V) : Prop :=
  exists t,
    remove_space expr = (fst nv ++ String "=" t)%string /\
    has_char "=" (fst nv) = false /\ has_char "=" t = false /\
    literal_eval t = inr (snd nv).

End SetData.

Section Inherit.

Context {F : Type} `{PyFloat F}.

(** An entry of [inherit_spec['pars']]: a JSON object, each key there or
    not.  [spec_fmt] stands for the [format] of the string under [fmt]. *)
Record ParSpec : Type := mkParSpec {
  spec_full_name : option string;
  spec_val : option F;
  spec_min : option F;
  spec_max : option F;
  spec_frozen : option bool;
  spec_fmt : option (F -> string)
}.

Definition set_fmt (f : F -> string) (p : Par F) : Par F :=
  mkPar (full_name p) (val p) (min p) (max p) (frozen p) f.

(** [{par['full_name']: par for par in inherit_spec['pars']}], added to
    [d]. *)
Fixpoint inherit_pars_of (specs : list ParSpec) (d : dict ParSpec)
  : exn + dict ParSpec :=
  match specs with
  | [] => inr d
  | e :: specs' =>
      match spec_full_name e with
      | None => inl (KeyError "full_name")
      | Some n => inherit_pars_of specs' (dict_setitem n e d)
      end
  end.

(** The body of the loop over [model.pars], on the parameter and the lines
    printed. *)
Definition inherit_par (inherit_pars : dict ParSpec)
  : M (Par F * list string) unit :=
  s <- get ;;
  match dict_getitem (full_name (fst s)) inherit_pars with
  | None => ret tt
  | Some e =>
      modify (fun s => (fst s,
                        snd s ++ [("Inheriting par " ++ full_name (fst s))%string])) ;;
      v <- getitem "val" (spec_val e) ;;
      modify (fun s => (set_val v (fst s), snd s)) ;;
      v <- getitem "min" (spec_min e) ;;
      modify (fun s => (set_min v (fst s), snd s)) ;;
      v <- getitem "max" (spec_max e) ;;
      modify (fun s => (set_max v (fst s), snd s)) ;;
      b <- getitem "frozen" (spec_frozen e) ;;
      modify (fun s => (set_frozen b (fst s), snd s)) ;;
      f <- getitem "fmt" (spec_fmt e) ;;
      modify (fun s => (set_fmt f (fst s), snd s))
  end.

(** [for par in model.pars: ...], on the parameters and the lines printed:
    an exception leaves the parameters behind the one it stopped at as
    they were. *)
Fixpoint inherit_loop (inherit_pars : dict ParSpec) (pars : list (Par F))
  (out : list string) : (list (Par F) * list string) * (exn + unit) :=
  match pars with
  | [] => (([], out), inr tt)
  | p :: pars' =>
      match inherit_par inherit_pars (p, out) with
      | ((p', out'), inl e) => ((p' :: pars', out'), inl e)
      | ((p', out'), inr _) =>
          let (s, r) := inherit_loop inherit_pars pars' out' in
          ((p' :: fst s, snd s), r)
      end
  end.

(** [if opt.inherit_from: ...] of [main], given what [json.load] read, on
    the parameters of the model and the lines printed. *)
Definition inherit_from (inherit_spec_pars : option (list ParSpec))
  : M (list (Par F) * list string) unit :=
  specs <- getitem "pars" inherit_spec_pars ;;
  inherit_pars <- lift (inherit_pars_of specs []) ;;
  fun s => inherit_loop inherit_pars (fst s) (snd s).

(** The last entry of the file with the name [n]. *)
Definition last_named (n : string) (specs : list ParSpec) : option ParSpec :=
  find (fun e => match spec_full_name e with
                 | Some m => String.eqb n m
                 | None => false
                 end) (rev specs).

(** An entry with every key the loop reads. *)
Definition complete (e : ParSpec) : Prop :=
  spec_full_name e <> None /\ spec_val e <> None /\ spec_min e <> None /\
  spec_max e <> None /\ spec_frozen e <> None /\ spec_fmt e <> None.

(** The parameter [p'] is [p] after the file [specs] was inherited from:
    as it was when the file does not name it, with the five attributes of
    the last entry of its name otherwise. *)
Definition inherited (specs : list ParSpec) (p p' : Par F) : Prop :=
  full_name p' = full_name p /\
  match last_named (full_name p) specs with
  | None => p' = p
  | Some e =>
      spec_val e = Some (val p') /\ spec_min e = Some (min p') /\
      spec_max e = Some (max p') /\ spec_frozen e = Some (frozen p') /\
      spec_fmt e = Some (fmt p')
  end.

(** [par.full_name in inherit_pars], read off the file. *)
Definition named_in (specs : list ParSpec) (p : Par F) : bool :=
  match last_named (full_name p) specs with Some _ => true | None => false end.

End Inherit.

(** *** More example states *)

(** A window of three parameters, the value of the second not a number. *)
Definition lost_value : MainWindow float :=
  mkMainWindow
    [row_of (mkPar "foo.bar" 5%float 0%float 10%float false fmt_mark) slider_5_in_0_10;
     row_of (mkPar "qux.bar" nan 0%float 10%float false fmt_mark) slider_5_in_0_10;
     row_of (mkPar "zap.bar" 7%float 0%float 10%float false fmt_mark) slider_5_in_0_10]
    [] [] [] 0 [] [] false 0 "2020:001" "2021:001" [].

(** [ast.literal_eval] on integer literals. *)
Definition literal_int (s : string) : exn + Z :=
  match int_literal s with
  | Some n => inr n
  | None => inl ValueError
  end.

(** A file that names [foo.bar] twice and [new.bar] once. *)
Definition two_for_foo : list (@ParSpec float) :=
  [mkParSpec (Some "foo.bar") (Some 1%float) (Some 0%float) (Some 2%float)
     (Some true) (Some (fun _ => "first"));
   mkParSpec (Some "new.bar") (Some 3%float) (Some 0%float) (Some 4%float)
     (Some false) (Some (fun _ => "other"));
   mkParSpec (Some "foo.bar") (Some 20%float) (Some 0%float) (Some 8%float)
     (Some false) (Some (fun _ => "second"))].

(** The parameters [foo.bar] and [qux.bar], val 5 in 0..10. *)
Definition foo_qux_pars : list (Par float) :=
  [mkPar "foo.bar" 5%float 0%float 10%float false fmt_mark;
   mkPar "qux.bar" 5%float 0%float 10%float false fmt_mark].

(** [fmt.format(val)] on natural numbers, as far as the examples go: the
    format and the number. *)
Definition format_nat (fmt : string) (v : nat) : string :=
  (fmt ++ " " ++ repr_nat v)%string.

(** A node with model and residuals, and a data item without. *)
Definition node_and_pitch : dict (TelemData nat) :=
  [("aacccdpt", mkTelemData [11; 12]%nat true (Some [21; 22]%nat)
                  (Some [31; 32]%nat));
   ("pitch", mkTelemData [150; 160]%nat false None None)].

Definition two_dates : list string := ["2020:001"; "2020:002"].

(** ** Binary64 numbers read exactly

    The notions the rounding of binary64 is stated with: the operations of
    [SpecFloat] round the exact result to nearest, and the properties below
    follow them on the rationals. *)

(** [2^e] as a rational *)
Definition pow2 (e : Z) : Q := (2 ^ e)%Q.

(** The place of a rational [X] by an integer [m] and a location: at [m],
    below, at or above the middle of [m] and [m + 1]. *)
Definition places (m : Z) (l : location) (X : Q) : Prop :=
  match l with
  | loc_Exact => (X == inject_Z m)%Q
  | loc_Inexact Lt => (inject_Z m < X /\ X < inject_Z m + (1 # 2))%Q
  | loc_Inexact Eq => (X == inject_Z m + (1 # 2))%Q
  | loc_Inexact Gt => (inject_Z m + (1 # 2) < X /\ X < inject_Z m + 1)%Q
  end.

(** Half an ulp of 1, and half the least positive number. *)
Definition eps : Q := pow2 (-53).
Definition eta : Q := pow2 (-1075).

(** [2^-52]: the relative error of one operation, underflow apart. *)
Definition u52 : Q := (1 # 4503599627370496)%Q.

Definition signed (s : bool) (q : Q) : Q := if s then (- q)%Q else q.

(** The exact value of a number of the specification that is zero or
    finite. *)
Definition SFval (x : spec_float) : option Q :=
  match x with
  | S754_zero _ => Some 0%Q
  | S754_finite s m e => Some (signed s (inject_Z (Zpos m) * pow2 e)%Q)
  | _ => None
  end.

(** The end of [binary_round_aux]: the rounded mantissa is shifted once more
    and packed. *)
Definition pack (sx : bool) (N e : Z) : spec_float :=
  let '(mrs, e') := shr_fexp prec emax N e loc_Exact in
  match shr_m mrs with
  | Z0 => S754_zero sx
  | Zpos m => if (e' <=? emax - prec)%Z then S754_finite sx m e' else S754_infinity sx
  | _ => S754_nan
  end.

(** [e] is the exponent binary64 gives a number of magnitude [x]. *)
Definition canonical (e : Z) (x : Q) : Prop :=
  (-1074 <= e)%Z /\ (x < pow2 (e + 53))%Q /\
  ((e = -1074)%Z \/ (pow2 (e + 52) <= x)%Q).

(** [q] is [x] rounded to nearest, ties to even, at the exponent of [x]. *)
Definition rounded (x q : Q) : Prop :=
  exists e m l, canonical e x /\ places m l (x * pow2 (- e))%Q /\
    (q == inject_Z (round_nearest_even m l) * pow2 e)%Q.

(** [near x q]: [q] is within the error of a rounding to nearest of [x],
    underflow included. *)
Definition near (x q : Q) : Prop := (Qabs (q - x) <= eps * Qabs x + eta)%Q.

(** A slider between -5 and 5 at position 1, and a panel whose slider lies
    between 0 and 0.7 at position 100. *)
Definition slider_m5_5 : PanelSlider float :=
  mkSlider (-5)%float 5%float 0%float (Some (scale_of (-5)%float 5%float))
    (Some (fquot (of_int 1) (scale_of (-5)%float 5%float))) 0 100 1 true.

Definition seven_tenths : float := 0x1.6666666666666p-1%float.

Definition panel_0_07 : Panel float :=
  mkPanel
    (row_of (mkPar "a" 0%float 0%float seven_tenths false fmt_mark)
       (mkSlider 0%float seven_tenths 0%float (Some (scale_of 0%float seven_tenths))
          (Some (fquot (of_int 1) (scale_of 0%float seven_tenths))) 0 100 100 true))
    [] [].

(** Bounds too close and bounds too far apart for the mapping: 0 and
    [2^-1020], and [-2^1023] and [2^1023]. *)
Definition par_narrow : Par float :=
  mkPar "a" 0%float 0%float 0x1p-1020%float false fmt_mark.

Definition par_huge : Par float :=
  mkPar "a" 0%float (-0x1p1023)%float 0x1p1023%float false fmt_mark.

(** * Properties *)

Unset Implicit Arguments.

Lemma bind_state {S A B} (m : M S A) (k : A -> M S B) (s : S) :
  bind m k s =
  match m s with
  | (s', inl e) => (s', inl e)
  | (s', inr a) => k a s'
  end.
Proof. reflexivity. Qed.

(** ** The order of binary64 *)

Ltac pos_compare :=
  repeat match goal with
    | H : context [PosDef.Pos.compare_cont Eq ?a ?b] |- _ =>
        change (PosDef.Pos.compare_cont Eq a b) with (Pos.compare a b) in H
    | |- context [PosDef.Pos.compare_cont Eq ?a ?b] =>
        change (PosDef.Pos.compare_cont Eq a b) with (Pos.compare a b)
    end.

Lemma SFcompare_none (x y : spec_float) :
  SFcompare x y = None <-> sf_nan x = true \/ sf_nan y = true.
Proof.
  destruct x, y; simpl; split; intros E; try discriminate; auto;
    destruct E; discriminate.
Qed.

Lemma SFcompare_antisym (x y : spec_float) :
  SFcompare y x = option_map CompOpp (SFcompare x y).
Proof.
  destruct x as [s1|s1| |s1 m1 e1], y as [s2|s2| |s2 m2 e2]; simpl; trivial;
    try (destruct s1; reflexivity); try (destruct s2; reflexivity);
    try (destruct s1, s2; reflexivity).
  pos_compare.
  rewrite (Z.compare_antisym e1 e2), (Pos.compare_antisym m1 m2).
  destruct s1, s2; simpl; trivial;
    destruct (e1 ?= e2); simpl; trivial; destruct (m1 ?= m2)%positive; reflexivity.
Qed.

Lemma SFcompare_refl (x : spec_float) : sf_nan x = false -> SFcompare x x = Some Eq.
Proof.
  destruct x as [s|s| |s m e]; simpl; try discriminate; trivial.
  - destruct s; reflexivity.
  - pos_compare. rewrite Z.compare_refl, Pos.compare_refl. destruct s; reflexivity.
Qed.

Lemma SFcompare_lt_le_trans (x y z : spec_float) :
  SFcompare x y = Some Lt ->
  SFcompare y z = Some Lt \/ SFcompare y z = Some Eq ->
  SFcompare x z = Some Lt.
Proof.
  destruct x as [s1|s1| |s1 m1 e1], y as [s2|s2| |s2 m2 e2],
           z as [s3|s3| |s3 m3 e3];
    simpl; intros H1 [H2|H2]; try discriminate; trivial;
    repeat match goal with s : bool |- _ => destruct s end;
    try discriminate; trivial; pos_compare;
    repeat match goal with
      | H : context [Z.compare ?a ?b] |- _ => destruct (Z.compare_spec a b)
      | |- context [Z.compare ?a ?b] => destruct (Z.compare_spec a b)
      end; try discriminate; trivial; try lia; subst;
    repeat match goal with
      | H : context [Pos.compare ?a ?b] |- _ => destruct (Pos.compare_spec a b)
      | |- context [Pos.compare ?a ?b] => destruct (Pos.compare_spec a b)
      end; simpl in *; try discriminate; trivial; try lia.
Qed.

Lemma is_nan_sf (x : float) : PrimFloat.is_nan x = sf_nan (Prim2SF x).
Proof.
  unfold PrimFloat.is_nan. rewrite FloatAxioms.eqb_spec. unfold SFeqb.
  destruct (sf_nan (Prim2SF x)) eqn:E.
  - destruct (Prim2SF x); try discriminate. reflexivity.
  - rewrite (SFcompare_refl _ E). reflexivity.
Qed.

Lemma float_leb_refl (x : float) :
  PrimFloat.is_nan x = false -> PrimFloat.leb x x = true.
Proof.
  rewrite is_nan_sf, FloatAxioms.leb_spec. intros E. unfold SFleb.
  rewrite (SFcompare_refl _ E). reflexivity.
Qed.

Lemma float_leb_not_nan (x y : float) :
  PrimFloat.leb x y = true ->
  PrimFloat.is_nan x = false /\ PrimFloat.is_nan y = false.
Proof.
  rewrite !is_nan_sf, FloatAxioms.leb_spec. unfold SFleb.
  destruct (Prim2SF x), (Prim2SF y); simpl; intros E; try discriminate; auto.
Qed.

Lemma float_ltb_not_nan (x y : float) :
  PrimFloat.ltb x y = true ->
  PrimFloat.is_nan x = false /\ PrimFloat.is_nan y = false.
Proof.
  rewrite !is_nan_sf, FloatAxioms.ltb_spec. unfold SFltb.
  destruct (Prim2SF x), (Prim2SF y); simpl; intros E; try discriminate; auto.
Qed.

Lemma float_leb_not_gt (x y : float) :
  PrimFloat.leb x y = true -> PrimFloat.ltb y x = false.
Proof.
  rewrite FloatAxioms.leb_spec, FloatAxioms.ltb_spec. unfold SFleb, SFltb.
  rewrite (SFcompare_antisym (Prim2SF x) (Prim2SF y)).
  destruct (SFcompare (Prim2SF x) (Prim2SF y)) as [[]|]; simpl; congruence.
Qed.

Lemma float_not_lt_leb (x y : float) :
  PrimFloat.is_nan x = false -> PrimFloat.is_nan y = false ->
  PrimFloat.ltb x y = false -> PrimFloat.leb y x = true.
Proof.
  rewrite !is_nan_sf, FloatAxioms.leb_spec, FloatAxioms.ltb_spec.
  unfold SFleb, SFltb. intros Hx Hy.
  rewrite (SFcompare_antisym (Prim2SF x) (Prim2SF y)).
  destruct (SFcompare (Prim2SF x) (Prim2SF y)) as [[]|] eqn:E; simpl;
    try congruence.
  apply SFcompare_none in E. destruct E; congruence.
Qed.

Lemma float_ltb_leb_trans (x y z : float) :
  PrimFloat.ltb x y = true -> PrimFloat.leb y z = true ->
  PrimFloat.ltb x z = true.
Proof.
  rewrite FloatAxioms.leb_spec, !FloatAxioms.ltb_spec. unfold SFleb, SFltb.
  intros Hxy Hyz.
  rewrite (SFcompare_lt_le_trans (Prim2SF x) (Prim2SF y) (Prim2SF z)); trivial.
  - destruct (SFcompare (Prim2SF x) (Prim2SF y)) as [[]|]; congruence.
  - destruct (SFcompare (Prim2SF y) (Prim2SF z)) as [[]|]; auto; congruence.
Qed.

(** Two binary64 numbers that [==] tells apart are different. *)
Lemma float_eqb_false_neq (x y : float) :
  PrimFloat.eqb x y = false -> PrimFloat.is_nan x = false -> x <> y.
Proof.
  intros E N <-. unfold PrimFloat.is_nan in N. rewrite E in N. discriminate.
Qed.

(** [int(x)] of a binary64 number never fails as a division does. *)
Lemma float_int_no_division (x : float) : float_int x <> inl ZeroDivisionError.
Proof.
  unfold float_int. destruct (Prim2SF x); discriminate.
Qed.

(** ** Globs match whole names *)

(** A pattern without [*], [?] or [[] matches its own text and nothing
    else: the match is anchored at both ends. *)
Lemma glob_match_literal (l : list ascii) :
  forall s : list ascii, glob_match (map Lit l) s = true <-> s = l.
Proof.
  induction l as [|c l IH]; intros [|d s]; cbn; split; intros E;
    try discriminate; trivial.
  - apply andb_true_iff in E. destruct E as [E1 E2].
    apply Ascii.eqb_eq in E1. apply IH in E2. congruence.
  - injection E as -> ->. rewrite Ascii.eqb_refl. cbn. apply IH. reflexivity.
Qed.

(** [foo*] matches the names that begin with [foo], and [foo] only
    itself. *)
Lemma fnmatch_examples :
  map (fnmatch_translate_match "foo*") ["foo.bar"; "foo.baz"; "qux.bar"; "xfoo"] =
    [true; true; false; false] /\
  map (fnmatch_translate_match "foo") ["foo"; "foo.bar"] = [true; false] /\
  map (fnmatch_translate_match "*_P[0-9]?") ["solarheat__pitch_P60"; "solarheat__P6"] =
    [true; false].
Proof. vm_compute. auto. Qed.

(** ** PanelText: writing a value or a bound *)

Section PanelText.

Context {F : Type} `{PyFloat F}.

Lemma bounds_check_par (a : attr) (p : Panel F) :
  par (row (state_of (_bounds_check a p))) = bounds_checked (par (row p)).
Proof.
  unfold _bounds_check, bounds_checked, state_of, bind, get, modify, ret,
    on_row, with_par_of.
  destruct p as [[q c tv tm s tx] pl so]; simpl.
  destruct (fltb (val q) (min q)); simpl.
  - destruct (fgtb (min q) (max q)); simpl; destruct a; reflexivity.
  - destruct (fgtb (val q) (max q)); simpl; destruct a; reflexivity.
Qed.

(** Whatever the slider and the plots do afterwards, the parameter is the
    one the bounds check left. *)
Lemma set_par_attr_par (a : attr) (v : F) (p : Panel F) :
  par (row (state_of (set_par_attr a v p))) =
  bounds_checked (setattr_par a v (par (row p))).
Proof.
  unfold set_par_attr.
  rewrite bind_state. unfold modify at 1.
  rewrite bind_state.
  pose proof (bounds_check_par a (on_row (with_par_of (setattr_par a v)) p)) as E.
  destruct (_bounds_check a _) as [p1 [e|msg]]; unfold state_of in *; simpl in E.
  - simpl. exact E.
  - rewrite bind_state.
    destruct msg; unfold print, modify, ret; simpl;
      rewrite bind_state; unfold zoom; simpl;
      destruct (update_slider_val v a _) as [s' [e|[]]]; simpl; exact E.
Qed.

(** C4 (amended): writing a bound through [set_par_attr] stores the bound
    and then runs the same bounds check as a value write.  The value stays
    as it was only when it lies within the bounds as they now are; a value
    below the new min becomes the min, and a value (or that min) above the
    max becomes the max. *)
Theorem setBound_runs_bounds_check (a : attr) (v : F) (p : Panel F) :
  is_bound a = true ->
  let before := par (row p) in
  let bounds := setattr_par a v before in
  let after := par (row (state_of (set_par_attr a v p))) in
  getattr_par a after = v /\
  min after = min bounds /\ max after = max bounds /\
  val after =
    (if fltb (val before) (min bounds)
     then if fgtb (min bounds) (max bounds) then max bounds else min bounds
     else if fgtb (val before) (max bounds) then max bounds else val before).
Proof.
  intros Ha before bounds after. subst after. rewrite set_par_attr_par.
  fold before. fold bounds.
  assert (Ev : val bounds = val before) by (destruct a; [discriminate| |]; reflexivity).
  assert (Eg : getattr_par a bounds = v) by (destruct a; reflexivity).
  unfold bounds_checked. rewrite Ev.
  destruct (fltb (val before) (min bounds)); cbn [val min max set_val].
  - destruct (fgtb (min bounds) (max bounds)); cbn [val min max set_val];
      repeat split; trivial; destruct a; try discriminate; exact Eg.
  - rewrite Ev.
    destruct (fgtb (val before) (max bounds)); cbn [val min max set_val];
      repeat split; trivial; destruct a; try discriminate; exact Eg.
Qed.

(** C10: text that [float()] rejects is ignored: the entry's method returns
    normally and leaves the parameter, the slider, the texts, the plots and
    the output as they were. *)
Theorem par_attr_changed_unparsable (float_of : string -> option F) (a : attr)
  (p : Panel F) :
  float_of (strip (text a (row p))) = None ->
  par_attr_changed float_of a p = (p, inr tt).
Proof.
  intros E. unfold par_attr_changed. rewrite bind_state. unfold get.
  rewrite E. reflexivity.
Qed.

(** Text that parses goes to [set_par_attr]. *)
Lemma par_attr_changed_parsed (float_of : string -> option F) (a : attr)
  (p : Panel F) (v : F) :
  float_of (strip (text a (row p))) = Some v ->
  par_attr_changed float_of a p = set_par_attr a v p.
Proof.
  intros E. unfold par_attr_changed. rewrite bind_state. unfold get.
  rewrite E. reflexivity.
Qed.

End PanelText.

(** C1 (amended): for a parameter whose bounds are in order (min <= max)
    and a written value that is a number (not NaN), the value after
    [set_par_attr] lies within the bounds, which are unchanged. *)
Theorem setValue_within_ordered_bounds (p : Panel float) (v : float) :
  PrimFloat.leb (min (par (row p))) (max (par (row p))) = true ->
  PrimFloat.is_nan v = false ->
  PrimFloat.leb (min (par (row p)))
    (val (par (row (state_of (set_par_attr Val v p))))) = true /\
  PrimFloat.leb (val (par (row (state_of (set_par_attr Val v p)))))
    (max (par (row p))) = true /\
  min (par (row (state_of (set_par_attr Val v p)))) = min (par (row p)) /\
  max (par (row (state_of (set_par_attr Val v p)))) = max (par (row p)).
Proof.
  intros Hb Hv. rewrite set_par_attr_par.
  destruct p as [[[n x lo hi fz fm] c tv tm s tx] pl so]; simpl in *.
  destruct (float_leb_not_nan _ _ Hb) as [Hlo Hhi].
  unfold bounds_checked, fgtb; simpl.
  destruct (PrimFloat.ltb v lo) eqn:E1; simpl.
  - rewrite (float_leb_not_gt _ _ Hb). simpl. auto using float_leb_refl.
  - destruct (PrimFloat.ltb hi v) eqn:E2; simpl.
    + auto using float_leb_refl.
    + repeat split; trivial; apply float_not_lt_leb; auto.
Qed.

(** C3 (amended): the min test does run before the max test, but the max
    test runs as well: for a parameter with min > max and a written value
    that is a number, the value ends at max, whether it was first set to min
    or not. *)
Theorem setValue_inverted_bounds_gives_max (p : Panel float) (v : float) :
  PrimFloat.ltb (max (par (row p))) (min (par (row p))) = true ->
  PrimFloat.is_nan v = false ->
  val (par (row (state_of (set_par_attr Val v p)))) = max (par (row p)).
Proof.
  intros Hb Hv. rewrite set_par_attr_par.
  destruct p as [[[n x lo hi fz fm] c tv tm s tx] pl so]; simpl in *.
  destruct (float_ltb_not_nan _ _ Hb) as [Hhi Hlo].
  unfold bounds_checked, fgtb; simpl.
  destruct (PrimFloat.ltb v lo) eqn:E1; simpl.
  - rewrite Hb. reflexivity.
  - rewrite (float_ltb_leb_trans _ _ _ Hb (float_not_lt_leb _ _ Hv Hlo E1)).
    reflexivity.
Qed.

(** Writing 20 into a parameter bounded by 0 and 10. *)
Lemma setValue_within_ordered_bounds_witness :
  PrimFloat.leb 0 (val (par (row wrote_20))) = true /\
  PrimFloat.leb (val (par (row wrote_20))) 10 = true /\
  min (par (row wrote_20)) = 0%float /\
  max (par (row wrote_20)) = 10%float.
Proof.
  exact (setValue_within_ordered_bounds panel_5_in_0_10 20%float eq_refl eq_refl).
Defined.

(** C1 as stated fails: with min = 10 and max = 0, writing 5 first sets the
    value to 10 and then to 0, which is below the min. *)
Lemma setValue_escapes_inverted_bounds :
  ~ (PrimFloat.leb (min (par (row wrote_5_inverted)))
       (val (par (row wrote_5_inverted))) = true /\
     PrimFloat.leb (val (par (row wrote_5_inverted)))
       (max (par (row wrote_5_inverted))) = true).
Proof.
  intros [A _]. vm_compute in A. discriminate A.
Qed.

(** Nor does it hold with bounds in order when the text is [nan]: neither
    test fires, the value stays NaN, and [int()] then raises in the slider
    before the plots are updated. *)
Lemma setValue_keeps_nan :
  PrimFloat.is_nan (val (par (row wrote_nan))) = true /\
  PrimFloat.leb 0 (val (par (row wrote_nan))) = false /\
  outcome (set_par_attr Val nan panel_5_in_0_10) = inl ValueError /\
  plots wrote_nan = [].
Proof.
  vm_compute. auto.
Qed.

Lemma setValue_inverted_bounds_gives_max_witness :
  val (par (row wrote_5_inverted)) = 0%float.
Proof.
  exact (setValue_inverted_bounds_gives_max panel_inverted 5%float eq_refl eq_refl).
Defined.

(** C3 as stated fails: with min = 10 and max = 0, writing 5 does not leave
    the value at min. *)
Lemma setValue_inverted_bounds_not_min :
  val (par (row wrote_5_inverted)) <>
  min (par (row wrote_5_inverted)).
Proof.
  apply float_eqb_false_neq; vm_compute; reflexivity.
Qed.

(** Raising the min to 7 above a value of 5. *)
Lemma setBound_runs_bounds_check_witness :
  min (par (row wrote_min_7)) = 7%float /\
  val (par (row wrote_min_7)) = 7%float.
Proof.
  destruct (setBound_runs_bounds_check Min 7%float panel_5_in_0_10 eq_refl)
    as (A & _ & _ & B).
  split; [exact A | exact B].
Defined.

(** C4 as stated fails: raising the min to 7 moves a value of 5. *)
Lemma setBound_reclamps_val :
  val (par (row wrote_min_7)) <>
  val (par (row panel_5_in_0_10)).
Proof.
  apply float_eqb_false_neq; vm_compute; reflexivity.
Qed.

(** The text " 1.2.3 " in the entry of the value. *)
Lemma par_attr_changed_unparsable_witness :
  float_of_literal (strip (text Val (row panel_typed_junk))) = None /\
  par_attr_changed float_of_literal Val panel_typed_junk = (panel_typed_junk, inr tt).
Proof.
  split; [reflexivity|].
  exact (par_attr_changed_unparsable float_of_literal Val panel_typed_junk eq_refl).
Defined.

(** ** PanelSlider: the scale and the position *)

Section Slider.

Context {F : Type} `{PyFloat F}.

Lemma set_dx_zero_range (s : PanelSlider F) :
  fzero (fsub (parmax s) (parmin s)) = true ->
  set_dx s = (s, inl ZeroDivisionError).
Proof.
  intros E. unfold set_dx, bind, get, lift, truediv. rewrite E. reflexivity.
Qed.

(** A scale that is zero is stored in [dx] before [1.0/self.dx] raises. *)
Lemma set_dx_zero_scale (s : PanelSlider F) :
  fzero (fsub (parmax s) (parmin s)) = false ->
  fzero (scale_of (parmin s) (parmax s)) = true ->
  set_dx s = (with_dx (scale_of (parmin s) (parmax s)) s, inl ZeroDivisionError).
Proof.
  intros E1 E2. unfold set_dx, bind, get, lift, truediv, modify. rewrite E1.
  fold (scale_of (parmin s) (parmax s)). rewrite E2. reflexivity.
Qed.

Lemma set_dx_ok (s : PanelSlider F) :
  fzero (fsub (parmax s) (parmin s)) = false ->
  fzero (scale_of (parmin s) (parmax s)) = false ->
  set_dx s =
    (with_idx (fquot (of_int 1) (scale_of (parmin s) (parmax s)))
       (with_dx (scale_of (parmin s) (parmax s)) s), inr tt).
Proof.
  intros E1 E2. unfold set_dx, bind, get, lift, truediv, modify. rewrite E1.
  fold (scale_of (parmin s) (parmax s)). rewrite E2. reflexivity.
Qed.

Lemma c_int_in_range (n : Z) : - 2 ^ 31 <= n < 2 ^ 31 -> c_int n = inr n.
Proof.
  intros [Hlo Hhi]. unfold c_int.
  apply Z.leb_le in Hlo. apply Z.ltb_lt in Hhi. rewrite Hlo, Hhi. reflexivity.
Qed.

Lemma set_step_from_value_ok (s : PanelSlider F) (v d : F) (step : Z) :
  dx s = Some d ->
  fint (fmul (fsub v (parmin s)) d) = inr step ->
  - 2 ^ 31 <= step < 2 ^ 31 ->
  set_step_from_value v s =
    (with_value (Z.max (minimum s) (Z.min (maximum s) step)) s, inr tt).
Proof.
  intros E1 E2 E3.
  unfold set_step_from_value, getattr, bind, get, lift, ret, setValue, modify.
  rewrite E1, E2, (c_int_in_range step E3). reflexivity.
Qed.

Lemma get_value_from_step_ok (s : PanelSlider F) (i : F) :
  idx s = Some i ->
  get_value_from_step s =
    (s, inr (fadd (fmul (of_int (value s)) i) (parmin s))).
Proof.
  intros E. unfold get_value_from_step, getattr, bind, get, ret.
  rewrite E. reflexivity.
Qed.

(** The slider [PanelSlider.__init__] builds when the scale and the step
    are defined. *)
Lemma new_PanelSlider_ok (p : Par F) (step : Z) :
  fzero (fsub (max p) (min p)) = false ->
  fzero (scale_of (min p) (max p)) = false ->
  fint (fmul (fsub (val p) (min p)) (scale_of (min p) (max p))) = inr step ->
  - 2 ^ 31 <= step < 2 ^ 31 ->
  new_PanelSlider p =
    inr (mkSlider (min p) (max p) (val p)
           (Some (scale_of (min p) (max p)))
           (Some (fquot (of_int 1) (scale_of (min p) (max p))))
           0 100 (Z.max 0 (Z.min 100 step)) true).
Proof.
  intros E1 E2 E3 E4. unfold new_PanelSlider, bind, modify at 1. cbn [fst snd].
  rewrite set_dx_ok by assumption. cbn [parmin parmax].
  erewrite set_step_from_value_ok; [| reflexivity | exact E3 | exact E4].
  reflexivity.
Qed.

(** C6 (amended): whenever the scale [100 / (max - min)] exists and is not
    zero and [(val - min) * scale] has an integer part that fits a C int,
    the slider is built and its position is that product truncated toward
    zero (Python's [int], not a rounding), clamped to 0..100. *)
Theorem slider_position_truncates (p : Par F) (d : F) (step : Z) :
  truediv (of_int 100) (fsub (max p) (min p)) = inr d ->
  fzero d = false ->
  fint (fmul (fsub (val p) (min p)) d) = inr step ->
  - 2 ^ 31 <= step < 2 ^ 31 ->
  exists s, new_PanelSlider p = inr s /\ dx s = Some d /\
            value s = Z.max 0 (Z.min 100 step).
Proof.
  unfold truediv. intros Ed Ez Ei Er.
  destruct (fzero (fsub (max p) (min p))) eqn:E1; [discriminate|].
  injection Ed as <-. fold (scale_of (min p) (max p)) in Ez, Ei.
  rewrite (new_PanelSlider_ok p step E1 Ez Ei Er).
  eexists. split; [reflexivity|]. split; reflexivity.
Qed.

End Slider.

(** The position of 2.75 in 0..100 is 2. *)
Lemma slider_position_truncates_witness :
  exists s, new_PanelSlider par_2_75 = inr s /\ dx s = Some 1%float /\ value s = 2.
Proof.
  apply (slider_position_truncates par_2_75 1%float 2);
    [vm_compute; reflexivity .. | lia].
Defined.

(** C6 as stated fails: the position of 2.75 in 0..100 is 2, and the
    rounding of the design document gives 3. *)
Lemma slider_position_not_rounded :
  rounded_position par_2_75 = inr 3 /\
  exists s, new_PanelSlider par_2_75 = inr s /\
            inr (value s) <> rounded_position par_2_75.
Proof.
  split; [vm_compute; reflexivity|].
  eexists. split; [vm_compute; reflexivity|].
  vm_compute. discriminate.
Qed.

(** C5 (amended): on a zero range [set_dx] runs its division, Python raises
    ZeroDivisionError, and [dx] and [idx] stay as they were: there is no
    guard and no error of its own.  On any other range whose scale
    [100 / (max - min)] is not zero, [set_dx] returns; [set_step_from_value]
    and [get_value_from_step] never fail by a division. *)
Theorem set_dx_division (s : PanelSlider float) :
  (fzero (fsub (parmax s) (parmin s)) = true ->
   set_dx s = (s, inl ZeroDivisionError)) /\
  (fzero (fsub (parmax s) (parmin s)) = false ->
   fzero (scale_of (parmin s) (parmax s)) = false ->
   outcome (set_dx s) = inr tt /\
   dx (state_of (set_dx s)) = Some (scale_of (parmin s) (parmax s))) /\
  (forall v, outcome (set_step_from_value v s) <> inl ZeroDivisionError) /\
  outcome (get_value_from_step s) <> inl ZeroDivisionError.
Proof.
  split; [apply set_dx_zero_range|].
  split; [intros E1 E2; rewrite (set_dx_ok s E1 E2); split; reflexivity|].
  split.
  - intros v. unfold set_step_from_value, getattr, bind, get, lift, ret, raise,
      setValue, modify, outcome.
    destruct (dx s) as [d|]; cbn; [|discriminate].
    pose proof (float_int_no_division ((v - parmin s) * d)%float) as N.
    destruct (float_int _) as [e|n]; cbn.
    + intros E. apply N. injection E as ->. reflexivity.
    + unfold c_int. destruct (_ && _); cbn; discriminate.
  - unfold get_value_from_step, getattr, bind, get, ret, raise, outcome.
    destruct (idx s); cbn; discriminate.
Qed.

(** A range of zero, and the range 0..10. *)
Lemma set_dx_division_witness :
  set_dx slider_flat = (slider_flat, inl ZeroDivisionError) /\
  outcome (set_dx slider_5_in_0_10) = inr tt.
Proof.
  split.
  - apply (proj1 (set_dx_division slider_flat)). vm_compute. reflexivity.
  - apply (proj1 (proj2 (set_dx_division slider_5_in_0_10)));
      vm_compute; reflexivity.
Defined.

(** C5 as stated fails twice.  With min = max = 1 the error raised is the
    division's own ZeroDivisionError, and with min = -2^1023, max = 2^1023
    the bounds differ, yet their difference is infinite, the scale is 0 and
    [1.0/self.dx] divides by zero. *)
Lemma set_dx_divides_by_zero :
  ~ guarded_rescale slider_flat /\
  (PrimFloat.eqb (parmax slider_huge) (parmin slider_huge) = false /\
   ~ guarded_rescale slider_huge).
Proof.
  split; [|split; [reflexivity|]]; intros [A B].
  - destruct A as (e & E & N); [vm_compute; reflexivity|].
    vm_compute in E. injection E as <-. apply N. reflexivity.
  - apply B; vm_compute; reflexivity.
Qed.

(** *** The rounding of binary64 *)

Open Scope Q_scope.

Lemma pow2_pos (e : Z) : 0 < pow2 e.
Proof. apply Qpower_0_lt. reflexivity. Qed.

Lemma pow2_add (a b : Z) : pow2 (a + b) == pow2 a * pow2 b.
Proof. apply Qpower_plus. discriminate. Qed.

Lemma pow2_le (a b : Z) : (a <= b)%Z -> pow2 a <= pow2 b.
Proof. intros L. apply Qpower_le_compat_l; [exact L|]. discriminate. Qed.

Lemma pow2_lt (a b : Z) : (a < b)%Z -> pow2 a < pow2 b.
Proof. intros L. apply Qpower_lt_compat_l; [exact L|]. reflexivity. Qed.

Lemma pow2_Z (n : Z) : (0 <= n)%Z -> pow2 n == inject_Z (2 ^ n).
Proof. intros L. unfold pow2. rewrite Zpower_Qpower by exact L. reflexivity. Qed.

Lemma pow2_opp (n : Z) : pow2 (- n) == / pow2 n.
Proof. apply Qpower_opp. Qed.

Lemma pow2_S (e : Z) : pow2 (e + 1) == 2 * pow2 e.
Proof. rewrite pow2_add. change (pow2 1) with 2. ring. Qed.

Lemma pow2_half (e : Z) : pow2 (e - 1) == (1 # 2) * pow2 e.
Proof.
  replace (e - 1)%Z with (e + -1)%Z by lia. rewrite pow2_add.
  change (pow2 (-1)) with (/ 2). field.
Qed.

(** ** The number of digits *)

Lemma digits2_pos_bounds (p : positive) :
  (2 ^ (Zpos (digits2_pos p) - 1) <= Zpos p < 2 ^ Zpos (digits2_pos p))%Z.
Proof.
  induction p as [p IH|p IH|]; cbn [digits2_pos].
  - rewrite Pos2Z.inj_succ, (Pos2Z.inj_xI p).
    replace (Z.succ (Zpos (digits2_pos p)) - 1)%Z
      with (Z.succ (Zpos (digits2_pos p) - 1))%Z by lia.
    rewrite !Z.pow_succ_r by lia. lia.
  - rewrite Pos2Z.inj_succ, (Pos2Z.inj_xO p).
    replace (Z.succ (Zpos (digits2_pos p)) - 1)%Z
      with (Z.succ (Zpos (digits2_pos p) - 1))%Z by lia.
    rewrite !Z.pow_succ_r by lia. lia.
  - cbn. lia.
Qed.

Lemma Zdigits2_bounds (m : Z) :
  (0 < m)%Z -> (0 < Zdigits2 m /\ 2 ^ (Zdigits2 m - 1) <= m < 2 ^ Zdigits2 m)%Z.
Proof.
  destruct m as [|p|p]; try lia. intros _. cbn [Zdigits2].
  split; [lia | apply digits2_pos_bounds].
Qed.

(** A number below [2^n] has at most [n] digits. *)
Lemma Zdigits2_le (m n : Z) :
  (0 < m)%Z -> (0 <= n)%Z -> (m < 2 ^ n)%Z -> (Zdigits2 m <= n)%Z.
Proof.
  intros Hm Hn Hl. destruct (Zdigits2_bounds m Hm) as [Hd [Hlo _]].
  destruct (Z_le_gt_dec (Zdigits2 m) n) as [L|G]; [exact L|exfalso].
  assert (2 ^ n <= 2 ^ (Zdigits2 m - 1))%Z by (apply Z.pow_le_mono_r; lia).
  lia.
Qed.

Lemma Zdigits2_pow2 (n : Z) : (0 <= n)%Z -> Zdigits2 (2 ^ n) = (n + 1)%Z.
Proof.
  intros Hn.
  assert (P : (0 < 2 ^ n)%Z) by (apply Z.pow_pos_nonneg; lia).
  destruct (Zdigits2_bounds (2 ^ n) P) as [Hd [Hlo Hhi]].
  assert (A : (n < Zdigits2 (2 ^ n))%Z).
  { apply (Z.pow_lt_mono_r_iff 2); lia. }
  assert (B : (Zdigits2 (2 ^ n) - 1 <= n)%Z).
  { apply (Z.pow_le_mono_r_iff 2); lia. }
  lia.
Qed.

(** ** Shifting to the right *)

Lemma places_shr_1 (mrs : shr_record) (X : Q) :
  (0 <= shr_m mrs)%Z ->
  places (shr_m mrs) (loc_of_shr_record mrs) X ->
  (0 <= shr_m (shr_1 mrs))%Z /\
  (2 * shr_m (shr_1 mrs) <= shr_m mrs)%Z /\
  places (shr_m (shr_1 mrs)) (loc_of_shr_record (shr_1 mrs)) (X * (1 # 2)).
Proof.
  destruct mrs as [m r s]. cbn [shr_m]. intros Hm.
  destruct m as [|p|p]; [| |lia].
  - destruct r, s; cbn [shr_1 shr_m loc_of_shr_record orb places]; intros P;
      (split; [lia|]); (split; [lia|]);
      change (inject_Z 0) with 0 in *; lra.
  - assert (E1 : forall q, inject_Z (Zpos q~1) == 2 * inject_Z (Zpos q) + 1).
    { intros q. rewrite Pos2Z.inj_xI, inject_Z_plus, inject_Z_mult. reflexivity. }
    assert (E0 : forall q, inject_Z (Zpos q~0) == 2 * inject_Z (Zpos q)).
    { intros q. rewrite Pos2Z.inj_xO, inject_Z_mult. reflexivity. }
    destruct p as [q|q|]; destruct r, s; cbn [shr_1 shr_m loc_of_shr_record orb places];
      intros P; (split; [lia|]); (split; [lia|]);
      try rewrite E1 in P; try rewrite E0 in P;
      change (inject_Z 1) with 1 in *; change (inject_Z 0) with 0 in *; lra.
Qed.

Lemma places_iter_shr (p : positive) :
  forall (mrs : shr_record) (X : Q),
  (0 <= shr_m mrs)%Z ->
  places (shr_m mrs) (loc_of_shr_record mrs) X ->
  (0 <= shr_m (iter_pos shr_1 p mrs))%Z /\
  (shr_m (iter_pos shr_1 p mrs) * 2 ^ Zpos p <= shr_m mrs)%Z /\
  places (shr_m (iter_pos shr_1 p mrs))
    (loc_of_shr_record (iter_pos shr_1 p mrs)) (X * pow2 (- Zpos p)).
Proof.
  induction p as [p IH|p IH|]; intros mrs X Hm P; cbn [iter_pos].
  - destruct (places_shr_1 mrs X Hm P) as (H1 & L1 & P1).
    destruct (IH _ _ H1 P1) as (H2 & L2 & P2).
    destruct (IH _ _ H2 P2) as (H3 & L3 & P3).
    split; [exact H3|]. split.
    + rewrite (Pos2Z.inj_xI p).
      replace (2 * Zpos p + 1)%Z with (Zpos p + Zpos p + 1)%Z by lia.
      rewrite !Z.pow_add_r by lia. nia.
    + assert (E : pow2 (- Zpos p~1) == (1 # 2) * pow2 (- Zpos p) * pow2 (- Zpos p)).
      { rewrite (Pos2Z.inj_xI p).
        replace (- (2 * Zpos p + 1))%Z with (-1 + (- Zpos p + - Zpos p))%Z by lia.
        rewrite !pow2_add. change (pow2 (-1)) with (/ 2). field. }
      revert P3. generalize (iter_pos shr_1 p (iter_pos shr_1 p (shr_1 mrs))).
      intros mrs3 P3.
      destruct (loc_of_shr_record mrs3) as [|[]]; cbn [places] in *;
        rewrite E; try (destruct P3; split); lra.
  - destruct (IH _ _ Hm P) as (H2 & L2 & P2).
    destruct (IH _ _ H2 P2) as (H3 & L3 & P3).
    split; [exact H3|]. split.
    + rewrite (Pos2Z.inj_xO p).
      replace (2 * Zpos p)%Z with (Zpos p + Zpos p)%Z by lia.
      rewrite !Z.pow_add_r by lia. nia.
    + assert (E : pow2 (- Zpos p~0) == pow2 (- Zpos p) * pow2 (- Zpos p)).
      { rewrite (Pos2Z.inj_xO p).
        replace (- (2 * Zpos p))%Z with (- Zpos p + - Zpos p)%Z by lia.
        rewrite !pow2_add. reflexivity. }
      revert P3. generalize (iter_pos shr_1 p (iter_pos shr_1 p mrs)).
      intros mrs3 P3.
      destruct (loc_of_shr_record mrs3) as [|[]]; cbn [places] in *;
        rewrite E; try (destruct P3; split); lra.
  - destruct (places_shr_1 mrs X Hm P) as (H1 & L1 & P1).
    split; [exact H1|]. split; [change (2 ^ 1)%Z with 2%Z; lia|].
    change (pow2 (- Zpos 1)) with (1 # 2).
    revert P1. generalize (shr_1 mrs). intros mrs1 P1.
    destruct (loc_of_shr_record mrs1) as [|[]]; cbn [places] in *;
      try (destruct P1; split); lra.
Qed.

(** ** Rounding to nearest *)

Lemma binary_round_aux_pack (sx : bool) (mx ex : Z) (lx : location) :
  binary_round_aux prec emax sx mx ex lx =
  pack sx (round_nearest_even (shr_m (fst (shr_fexp prec emax mx ex lx)))
             (loc_of_shr_record (fst (shr_fexp prec emax mx ex lx))))
          (snd (shr_fexp prec emax mx ex lx)).
Proof.
  unfold binary_round_aux, pack.
  destruct (shr_fexp prec emax mx ex lx) as [mrs e']. reflexivity.
Qed.

Lemma shr_record_of_loc_m (m : Z) (l : location) : shr_m (shr_record_of_loc m l) = m.
Proof. destruct l as [|[]]; reflexivity. Qed.

Lemma loc_of_shr_record_of_loc (m : Z) (l : location) :
  loc_of_shr_record (shr_record_of_loc m l) = l.
Proof. destruct l as [|[]]; reflexivity. Qed.

Lemma fexp_eq (e : Z) : fexp prec emax e = Z.max (e - 53) (-1074).
Proof. reflexivity. Qed.

Lemma shr_fexp_places (m e : Z) (l : location) (X : Q) :
  (0 <= m)%Z -> places m l X ->
  ((fexp prec emax (Zdigits2 m + e) <= e)%Z /\
   shr_fexp prec emax m e l = (shr_record_of_loc m l, e)) \/
  ((e < fexp prec emax (Zdigits2 m + e))%Z /\
   exists mrs, shr_fexp prec emax m e l = (mrs, fexp prec emax (Zdigits2 m + e)) /\
     (0 <= shr_m mrs)%Z /\
     (shr_m mrs * 2 ^ (fexp prec emax (Zdigits2 m + e) - e) <= m)%Z /\
     places (shr_m mrs) (loc_of_shr_record mrs)
       (X * pow2 (e - fexp prec emax (Zdigits2 m + e)))).
Proof.
  intros Hm P. unfold shr_fexp, shr.
  remember (fexp prec emax (Zdigits2 m + e)) as f eqn:Ef.
  destruct (f - e)%Z as [|p|p] eqn:En.
  - left. split; [lia|reflexivity].
  - right. split; [lia|].
    exists (iter_pos shr_1 p (shr_record_of_loc m l)).
    split; [f_equal; lia|].
    destruct (places_iter_shr p (shr_record_of_loc m l) X) as (A & B & C).
    + rewrite shr_record_of_loc_m. exact Hm.
    + rewrite shr_record_of_loc_m, loc_of_shr_record_of_loc. exact P.
    + rewrite shr_record_of_loc_m in B.
      split; [exact A|]. split; [exact B|].
      replace (e - f)%Z with (- Zpos p)%Z by lia. exact C.
  - left. split; [lia|reflexivity].
Qed.

Lemma round_nearest_even_near (m : Z) (l : location) (X : Q) :
  places m l X ->
  (m <= round_nearest_even m l <= m + 1)%Z /\
  Qabs (inject_Z (round_nearest_even m l) - X) <= 1 # 2 /\
  (l = loc_Exact -> round_nearest_even m l = m /\ X == inject_Z m).
Proof.
  intros P.
  assert (E : inject_Z (m + 1) == inject_Z m + 1).
  { rewrite inject_Z_plus. reflexivity. }
  destruct l as [|[]]; cbn [round_nearest_even places] in *.
  - split; [lia|]. split; [|intros _; split; [reflexivity|exact P]].
    apply Qabs_Qle_condition. split; lra.
  - split; [destruct (Z.even m); lia|]. split; [|discriminate].
    apply Qabs_Qle_condition. destruct (Z.even m); [|rewrite E]; split; lra.
  - split; [lia|]. split; [|discriminate].
    apply Qabs_Qle_condition. split; lra.
  - split; [lia|]. split; [|discriminate].
    apply Qabs_Qle_condition. rewrite E. split; lra.
Qed.

Lemma pack_value (sx : bool) (N e : Z) :
  (0 <= N <= 2 ^ 53)%Z -> (-1074 <= e)%Z ->
  (e <= 970 \/ (N < 2 ^ 53 /\ e <= 971))%Z ->
  exists q, SFval (pack sx N e) = Some (signed sx q) /\ q == inject_Z N * pow2 e.
Proof.
  intros HN He Hb. unfold pack, shr_fexp, shr.
  destruct (Z.eq_dec N (2 ^ 53)) as [E|NE].
  - subst N.
    assert (D : (fexp prec emax (Zdigits2 (2 ^ 53) + e) - e = 1)%Z).
    { rewrite Zdigits2_pow2 by lia. rewrite fexp_eq. lia. }
    rewrite D. change (2 ^ 53)%Z with 9007199254740992%Z.
    cbn [shr_record_of_loc iter_pos shr_1 orb shr_m].
    assert (L : ((e + 1 <=? emax - prec) = true)%Z).
    { apply Z.leb_le. unfold emax, prec. lia. }
    rewrite L. cbn [SFval]. eexists. split; [reflexivity|].
    rewrite pow2_S. change 9007199254740992%Z with (2 * 4503599627370496)%Z.
    rewrite inject_Z_mult. change (inject_Z 2) with 2. ring.
  - assert (D : (fexp prec emax (Zdigits2 N + e) - e <= 0)%Z).
    { rewrite fexp_eq. destruct (Z.eq_dec N 0) as [Z0|NZ].
      - subst N. cbn [Zdigits2]. lia.
      - assert (Zdigits2 N <= 53)%Z by (apply Zdigits2_le; lia). lia. }
    assert (S0 : (let (mrs, e') :=
                match (fexp prec emax (Zdigits2 N + e) - e)%Z with
                | Z.pos p => (iter_pos shr_1 p (shr_record_of_loc N loc_Exact),
                              (e + (fexp prec emax (Zdigits2 N + e) - e))%Z)
                | _ => (shr_record_of_loc N loc_Exact, e)
                end in
              match shr_m mrs with
              | 0%Z => S754_zero sx
              | Z.pos m => if (e' <=? emax - prec)%Z then S754_finite sx m e'
                           else S754_infinity sx
              | Z.neg _ => S754_nan
              end) =
             match N with
             | 0%Z => S754_zero sx
             | Z.pos m => if (e <=? emax - prec)%Z then S754_finite sx m e
                          else S754_infinity sx
             | Z.neg _ => S754_nan
             end).
    { destruct (fexp prec emax (Zdigits2 N + e) - e)%Z; try lia; reflexivity. }
    rewrite S0. destruct N as [|p|p]; [| |lia].
    + exists 0. split; [destruct sx; reflexivity|].
      change (inject_Z 0) with 0. ring.
    + assert (L : ((e <=? emax - prec) = true)%Z).
      { apply Z.leb_le. unfold emax, prec. lia. }
      rewrite L. eexists. split; reflexivity.
Qed.

Lemma pow2_lt_inv (a b : Z) : pow2 a < pow2 b -> (a < b)%Z.
Proof.
  intros L. destruct (Z_lt_le_dec a b) as [A|A]; [exact A|exfalso].
  apply pow2_le in A. lra.
Qed.

Lemma places_ge (m : Z) (l : location) (X : Q) : places m l X -> inject_Z m <= X.
Proof. destruct l as [|[]]; cbn [places]; lra. Qed.

Lemma inject_Z_pow2_le (n m : Z) :
  (0 <= n)%Z -> (2 ^ n <= m)%Z -> pow2 n <= inject_Z m.
Proof.
  intros Hn L. rewrite pow2_Z by exact Hn. rewrite <- Zle_Qle. exact L.
Qed.

Lemma inject_Z_nonneg (m : Z) : (0 <= m)%Z -> 0 <= inject_Z m.
Proof. intros L. change 0 with (inject_Z 0). rewrite <- Zle_Qle. exact L. Qed.

Lemma places_proper (m : Z) (l : location) (X Y : Q) :
  X == Y -> places m l X -> places m l Y.
Proof. intros E. destruct l as [|[]]; cbn [places]; rewrite E; trivial. Qed.

Lemma places_lt (m : Z) (l : location) (X : Q) : places m l X -> X < inject_Z m + 1.
Proof. destruct l as [|[]]; cbn [places]; lra. Qed.

(** Rounding to nearest, ties to even, never decreases. *)
Lemma round_nearest_even_mono (m1 m2 : Z) (l1 l2 : location) (X1 X2 : Q) :
  places m1 l1 X1 -> places m2 l2 X2 -> X1 <= X2 ->
  (round_nearest_even m1 l1 <= round_nearest_even m2 l2)%Z.
Proof.
  intros P1 P2 L.
  pose proof (places_ge _ _ _ P1) as G1. pose proof (places_lt _ _ _ P1) as U1.
  pose proof (places_ge _ _ _ P2) as G2. pose proof (places_lt _ _ _ P2) as U2.
  destruct (round_nearest_even_near m1 l1 X1 P1) as (N1 & _ & _).
  destruct (round_nearest_even_near m2 l2 X2 P2) as (N2 & _ & _).
  assert (M : (m1 < m2 + 1)%Z).
  { rewrite Zlt_Qlt, inject_Z_plus. change (inject_Z 1) with 1. lra. }
  destruct (Z.eq_dec m1 m2) as [E|NE]; [subst m2|lia].
  destruct l1 as [|[]], l2 as [|[]]; cbn [round_nearest_even places] in *;
    try lia; try (destruct (Z.even m1); lia); exfalso; lra.
Qed.

Lemma rounded_proper (x y q r : Q) : x == y -> q == r -> rounded x q -> rounded y r.
Proof.
  intros Ex Eq (e & m & l & (C1 & C2 & C3) & P & V).
  exists e, m, l. split; [|split].
  - split; [exact C1|]. split; [rewrite <- Ex; exact C2|].
    destruct C3 as [C3|C3]; [left; exact C3|right; rewrite <- Ex; exact C3].
  - apply (places_proper m l (x * pow2 (- e))); [rewrite Ex; reflexivity|exact P].
  - rewrite <- Eq. exact V.
Qed.

#[export] Instance rounded_morphism : Proper (Qeq ==> Qeq ==> iff) rounded.
Proof.
  intros x y Ex q r Eq. split; apply rounded_proper; trivial; symmetry; trivial.
Qed.

Lemma rounded_zero : rounded 0 0.
Proof.
  exists (-1074)%Z, 0%Z, loc_Exact. split; [|split].
  - split; [lia|]. split; [apply pow2_pos|left; reflexivity].
  - cbn [places]. change (inject_Z 0) with 0. ring.
  - cbn [round_nearest_even]. change (inject_Z 0) with 0. ring.
Qed.

Lemma rounded_nonneg (x q : Q) : 0 <= x -> rounded x q -> 0 <= q.
Proof.
  intros Hx (e & m & l & _ & P & V).
  pose proof (pow2_pos e) as Pe. pose proof (pow2_pos (- e)) as Pn.
  pose proof (places_lt _ _ _ P) as U.
  destruct (round_nearest_even_near m l _ P) as (N & _ & _).
  assert (0 <= x * pow2 (- e)) by (apply Qmult_le_0_compat; lra).
  assert (M : (-1 < m)%Z).
  { rewrite Zlt_Qlt. change (inject_Z (-1)) with (- 1). lra. }
  assert (0 <= inject_Z (round_nearest_even m l)) by (apply inject_Z_nonneg; lia).
  rewrite V. apply Qmult_le_0_compat; lra.
Qed.

Lemma pow2_cancel (e : Z) : pow2 e * pow2 (- e) == 1.
Proof. rewrite <- pow2_add. replace (e + - e)%Z with 0%Z by lia. reflexivity. Qed.

(** Of two numbers that are not negative, the larger does not round to the
    smaller number. *)
Lemma rounded_mono (x1 x2 q1 q2 : Q) :
  0 <= x1 -> x1 <= x2 -> rounded x1 q1 -> rounded x2 q2 -> q1 <= q2.
Proof.
  intros H0 L (e1 & m1 & l1 & (A1 & B1 & C1) & P1 & V1)
    (e2 & m2 & l2 & (A2 & B2 & C2) & P2 & V2).
  pose proof (pow2_pos e1) as Pe1. pose proof (pow2_pos e2) as Pe2.
  pose proof (pow2_pos (- e1)) as Pn1. pose proof (pow2_pos (- e2)) as Pn2.
  destruct (Z.lt_trichotomy e1 e2) as [Lt|[Eq|Gt]].
  - (* the exponent grows: a mantissa of at most 2^53 against one of at
       least 2^52 *)
    destruct C2 as [C2|C2]; [lia|].
    destruct (round_nearest_even_near m1 l1 _ P1) as (N1 & _ & _).
    destruct (round_nearest_even_near m2 l2 _ P2) as (N2 & _ & _).
    pose proof (places_ge _ _ _ P1) as G1. pose proof (places_lt _ _ _ P2) as U2.
    assert (X1 : x1 * pow2 (- e1) < pow2 53).
    { assert (E : pow2 (e1 + 53) * pow2 (- e1) == pow2 53).
      { rewrite <- pow2_add. replace (e1 + 53 + - e1)%Z with 53%Z by lia. reflexivity. }
      rewrite <- E. apply Qmult_lt_compat_r; assumption. }
    assert (X2 : pow2 52 <= x2 * pow2 (- e2)).
    { assert (E : pow2 (e2 + 52) * pow2 (- e2) == pow2 52).
      { rewrite <- pow2_add. replace (e2 + 52 + - e2)%Z with 52%Z by lia. reflexivity. }
      rewrite <- E. apply Qmult_le_compat_r; lra. }
    assert (M1 : (m1 < 2 ^ 53)%Z).
    { rewrite Zlt_Qlt, <- pow2_Z by lia. lra. }
    assert (M2 : (2 ^ 52 < m2 + 1)%Z).
    { rewrite Zlt_Qlt, inject_Z_plus, <- pow2_Z by lia. change (inject_Z 1) with 1. lra. }
    assert (R1 : inject_Z (round_nearest_even m1 l1) <= pow2 53).
    { rewrite pow2_Z by lia. rewrite <- Zle_Qle. lia. }
    assert (R2 : pow2 52 <= inject_Z (round_nearest_even m2 l2)).
    { rewrite pow2_Z by lia. rewrite <- Zle_Qle. lia. }
    rewrite V1, V2.
    apply Qle_trans with (pow2 53 * pow2 e1).
    { apply Qmult_le_compat_r; lra. }
    apply Qle_trans with (pow2 52 * pow2 e2).
    { rewrite <- !pow2_add. apply pow2_le. lia. }
    apply Qmult_le_compat_r; lra.
  - subst e2. rewrite V1, V2. apply Qmult_le_compat_r; [|lra].
    rewrite <- Zle_Qle. apply (round_nearest_even_mono _ _ _ _ _ _ P1 P2).
    apply Qmult_le_compat_r; lra.
  - exfalso. destruct C1 as [C1|C1]; [lia|].
    assert (pow2 (e2 + 53) <= pow2 (e1 + 52)) by (apply pow2_le; lia).
    lra.
Qed.

(** A number that is a mantissa of at most 53 bits at an exponent of
    binary64 is its own rounding. *)
Lemma rounded_exact (m e : Z) :
  (0 <= m < 2 ^ 53)%Z -> (-1074 <= e)%Z -> rounded (inject_Z m * pow2 e) (inject_Z m * pow2 e).
Proof.
  intros Hm He. pose proof (pow2_pos e) as Pe.
  destruct (Z.eq_dec m 0) as [Z0|NZ].
  - subst m. apply (rounded_proper 0 _ 0 _); [| |apply rounded_zero];
      change (inject_Z 0) with 0; ring.
  - destruct (Zdigits2_bounds m) as (Hd & Hlo & Hhi); [lia|].
    assert (D53 : (Zdigits2 m <= 53)%Z) by (apply Zdigits2_le; lia).
    set (c := Z.max (Zdigits2 m + e - 53) (-1074)).
    assert (Hc : (c <= e)%Z) by (unfold c; lia).
    assert (P2 : (0 < 2 ^ (e - c))%Z) by (apply Z.pow_pos_nonneg; lia).
    assert (Es : inject_Z (m * 2 ^ (e - c)) * pow2 c == inject_Z m * pow2 e).
    { rewrite inject_Z_mult, <- pow2_Z by lia.
      rewrite <- Qmult_assoc, <- pow2_add. replace (e - c + c)%Z with e by lia.
      reflexivity. }
    exists c, (m * 2 ^ (e - c))%Z, loc_Exact. split; [|split].
    + split; [unfold c; lia|]. split.
      * apply Qlt_le_trans with (pow2 (Zdigits2 m) * pow2 e).
        { apply Qmult_lt_compat_r; [exact Pe|].
          rewrite pow2_Z by lia. rewrite <- Zlt_Qlt. lia. }
        rewrite <- pow2_add. apply pow2_le. unfold c. lia.
      * destruct (Z.eq_dec c (-1074)) as [Ec|Nc]; [left; exact Ec|right].
        apply Qle_trans with (pow2 (Zdigits2 m - 1) * pow2 e).
        { rewrite <- pow2_add. apply pow2_le. unfold c in *. lia. }
        apply Qmult_le_compat_r; [|lra].
        rewrite pow2_Z by lia. rewrite <- Zle_Qle. lia.
    + cbn [places]. rewrite <- Es, <- Qmult_assoc, pow2_cancel. ring.
    + cbn [round_nearest_even]. rewrite Es. reflexivity.
Qed.

(** Rounding a placed mantissa of at most 53 bits and packing it. *)
Lemma round_pack_near (sx : bool) (m e : Z) (l : location) (X x : Q) :
  (0 <= m < 2 ^ 53)%Z -> (-1074 <= e)%Z -> places m l X ->
  X * pow2 e == x ->
  ((l = loc_Exact /\ (e <= 971)%Z) \/
   ((e <= 970)%Z /\ ((e = -1074)%Z \/ pow2 (e + 52) <= x))) ->
  exists q, SFval (pack sx (round_nearest_even m l) e) = Some (signed sx q) /\
            0 <= q /\ Qabs (q - x) <= eps * x + eta /\ rounded x q.
Proof.
  intros Hm He P Ex Hc.
  destruct (round_nearest_even_near m l X P) as (HN & Herr & Hex).
  pose proof (pow2_pos e) as Pe.
  assert (Xge : 0 <= X).
  { apply places_ge in P. assert (0 <= inject_Z m) by (apply inject_Z_nonneg; lia). lra. }
  assert (xge : 0 <= x) by (rewrite <- Ex; nra).
  destruct (pack_value sx (round_nearest_even m l) e) as (q & Eq & Vq).
  - lia.
  - exact He.
  - destruct Hc as [[El L]|[L _]]; [right|left; exact L].
    destruct (Hex El) as [EN _]. lia.
  - exists q. split; [exact Eq|].
    assert (Nge : 0 <= inject_Z (round_nearest_even m l)).
    { apply inject_Z_nonneg. lia. }
    split; [rewrite Vq; nra|].
    assert (Rd : rounded x q).
    { destruct Hc as [[El L]|[L Hu]].
      - destruct (Hex El) as [EN EX].
        apply (rounded_proper (inject_Z m * pow2 e) _ (inject_Z m * pow2 e) _).
        + rewrite <- Ex, EX. reflexivity.
        + rewrite Vq, EN. reflexivity.
        + apply rounded_exact; assumption.
      - exists e, m, l. split; [|split].
        + split; [exact He|]. split; [|exact Hu].
          pose proof (places_lt _ _ _ P) as U.
          assert (inject_Z m + 1 <= pow2 53).
          { rewrite pow2_Z by lia. change 1 with (inject_Z 1).
            rewrite <- inject_Z_plus, <- Zle_Qle. lia. }
          rewrite <- Ex, pow2_add, (Qmult_comm (pow2 e)).
          apply Qmult_lt_compat_r; lra.
        + apply (places_proper m l X); [|exact P].
          rewrite <- Ex, <- Qmult_assoc, pow2_cancel. ring.
        + exact Vq. }
    split; [|exact Rd].
    assert (epos : 0 < eps) by apply pow2_pos.
    assert (etapos : 0 < eta) by apply pow2_pos.
    destruct Hc as [[El L]|[L Hu]].
    + destruct (Hex El) as [EN EX].
      assert (Eqx : q == x) by (rewrite Vq, EN, <- Ex, EX; reflexivity).
      setoid_replace (q - x) with 0 by (rewrite Eqx; ring).
      change (Qabs 0) with 0. nra.
    + assert (Eh : Qabs (q - x) <= (1 # 2) * pow2 e).
      { rewrite Vq, <- Ex.
        setoid_replace (inject_Z (round_nearest_even m l) * pow2 e - X * pow2 e)
          with ((inject_Z (round_nearest_even m l) - X) * pow2 e) by ring.
        rewrite Qabs_Qmult. rewrite (Qabs_pos (pow2 e)) by lra.
        apply Qmult_le_compat_r; [exact Herr|lra]. }
      destruct Hu as [Ee|Hu].
      * subst e. change ((1 # 2) * pow2 (-1074)) with ((1 # 2) * pow2 (-1075 + 1)) in Eh.
        rewrite pow2_S in Eh. fold eta in Eh. nra.
      * assert (E52 : pow2 (e + 52) == pow2 53 * pow2 (e - 1)).
        { replace (e + 52)%Z with (53 + (e - 1))%Z by lia. apply pow2_add. }
        assert (E1 : eps * pow2 53 == 1).
        { unfold eps. rewrite <- pow2_add. reflexivity. }
        rewrite <- pow2_half in Eh.
        assert (pow2 (e - 1) <= eps * x).
        { setoid_replace (pow2 (e - 1)) with (eps * (pow2 53 * pow2 (e - 1))) by
            (rewrite Qmult_assoc, E1; ring).
          apply Qmult_le_l; [exact epos|]. rewrite <- E52. exact Hu. }
        lra.
Qed.

(** [binary_round_aux] rounds to nearest: its mantissa is aligned, or it is
    exact and fits as it is. *)
Lemma binary_round_aux_near (sx : bool) (mx ex : Z) (lx : location) (X : Q) :
  (0 <= mx)%Z -> places mx lx X ->
  ((ex <= fexp prec emax (Zdigits2 mx + ex))%Z \/
   (lx = loc_Exact /\ (ex <= 971)%Z)) ->
  X * pow2 ex < pow2 1023 ->
  exists q, SFval (binary_round_aux prec emax sx mx ex lx) = Some (signed sx q) /\
            0 <= q /\ Qabs (q - X * pow2 ex) <= eps * (X * pow2 ex) + eta /\
            rounded (X * pow2 ex) q.
Proof.
  intros Hm P Hc Hx. rewrite binary_round_aux_pack.
  pose proof (places_ge mx lx X P) as Xge.
  pose proof (pow2_pos ex) as Pex.
  (* a mantissa that is not zero weighs at least its leading bit *)
  assert (Lead : (0 < mx)%Z -> (Zdigits2 mx + ex <= 1023)%Z /\
                 pow2 (Zdigits2 mx - 1 + ex) <= X * pow2 ex).
  { intros Hp. destruct (Zdigits2_bounds mx Hp) as (Hd & Hlo & _).
    assert (A : pow2 (Zdigits2 mx - 1 + ex) <= X * pow2 ex).
    { rewrite pow2_add. apply Qmult_le_compat_r; [|lra].
      apply Qle_trans with (inject_Z mx); [|exact Xge].
      apply inject_Z_pow2_le; lia. }
    split; [|exact A].
    assert (pow2 (Zdigits2 mx - 1 + ex) < pow2 1023) by lra.
    apply pow2_lt_inv in H. lia. }
  destruct (shr_fexp_places mx ex lx X Hm P) as [[Hn E]|[Hn (mrs & E & A & B & C)]].
  - rewrite E. cbn [fst snd]. rewrite shr_record_of_loc_m, loc_of_shr_record_of_loc.
    rewrite fexp_eq in Hn.
    apply (round_pack_near sx mx ex lx X (X * pow2 ex)).
    + split; [exact Hm|]. destruct (Z.eq_dec mx 0) as [Z0|NZ]; [subst mx; reflexivity|].
      destruct (Zdigits2_bounds mx) as (Hd & _ & Hhi); [lia|].
      assert (2 ^ Zdigits2 mx <= 2 ^ 53)%Z by (apply Z.pow_le_mono_r; lia). lia.
    + lia.
    + exact P.
    + reflexivity.
    + destruct Hc as [Hc|Hc]; [right|left; exact Hc].
      rewrite fexp_eq in Hc.
      destruct (Z.eq_dec ex (-1074)) as [Em|Em]; [split; [lia|left; exact Em]|].
      assert (D : Zdigits2 mx = 53%Z) by lia.
      destruct Lead as [L1 L2].
      { destruct mx; [discriminate D|lia|lia]. }
      rewrite D in L1, L2. split; [lia|right].
      replace (ex + 52)%Z with (53 - 1 + ex)%Z by lia. exact L2.
  - rewrite E. cbn [fst snd]. rewrite fexp_eq in *.
    set (e' := Z.max (Zdigits2 mx + ex - 53) (-1074)) in *.
    assert (Ex' : X * pow2 (ex - e') * pow2 e' == X * pow2 ex).
    { rewrite <- Qmult_assoc, <- pow2_add. replace (ex - e' + e')%Z with ex by lia.
      reflexivity. }
    apply (round_pack_near sx (shr_m mrs) e' (loc_of_shr_record mrs)
             (X * pow2 (ex - e')) (X * pow2 ex)).
    + split; [exact A|].
      assert (P2 : (0 < 2 ^ (e' - ex))%Z) by (apply Z.pow_pos_nonneg; lia).
      destruct (Z.eq_dec mx 0) as [Z0|NZ]; [subst mx; nia|].
      destruct (Zdigits2_bounds mx) as (Hd & _ & Hhi); [lia|].
      assert (2 ^ Zdigits2 mx <= 2 ^ (e' - ex + 53))%Z
        by (apply Z.pow_le_mono_r; lia).
      rewrite Z.pow_add_r in H by lia. nia.
    + lia.
    + exact C.
    + exact Ex'.
    + right.
      destruct (Z.eq_dec e' (-1074)) as [Em|Em]; [split; [lia|left; exact Em]|].
      assert (Hp : (0 < mx)%Z).
      { destruct mx; [cbn [Zdigits2] in *; lia|lia|lia]. }
      destruct (Lead Hp) as [L1 L2]. split; [lia|right].
      replace (e' + 52)%Z with (Zdigits2 mx - 1 + ex)%Z by lia. exact L2.
Qed.

(** ** Values *)

Lemma weight_pow2 (e : Z) :
  (if (0 <=? e)%Z then inject_Z (2 ^ e) else / inject_Z (2 ^ (- e))) == pow2 e.
Proof.
  destruct (Z.leb_spec 0 e) as [L|L].
  - rewrite pow2_Z by exact L. reflexivity.
  - rewrite <- (pow2_Z (- e)) by lia. rewrite <- pow2_opp.
    replace (- - e)%Z with e by lia. reflexivity.
Qed.

Lemma float_Q_SFval (x : float) (q : Q) :
  float_Q x = Some q -> exists q', SFval (Prim2SF x) = Some q' /\ q == q'.
Proof.
  unfold float_Q. destruct (Prim2SF x) as [s|s| |s m e]; try discriminate.
  - intros E. injection E as <-. exists 0. split; reflexivity.
  - intros E. injection E as <-. eexists. split; [reflexivity|].
    unfold signed. destruct s; rewrite weight_pow2; reflexivity.
Qed.

Lemma SFval_float_Q (x : float) (q' : Q) :
  SFval (Prim2SF x) = Some q' -> exists q, float_Q x = Some q /\ q == q'.
Proof.
  unfold float_Q. destruct (Prim2SF x) as [s|s| |s m e]; try discriminate.
  - intros E. injection E as <-. exists 0. split; reflexivity.
  - intros E. injection E as <-. eexists. split; [reflexivity|].
    unfold signed. destruct s; rewrite weight_pow2; reflexivity.
Qed.

#[export] Instance near_proper : Proper (Qeq ==> Qeq ==> iff) near.
Proof. intros x x' Ex q q' Eq. unfold near. rewrite Ex, Eq. reflexivity. Qed.

Lemma near_opp (x q : Q) : near x q -> near (- x) (- q).
Proof.
  unfold near. intros N.
  setoid_replace (- q - - x) with (- (q - x)) by ring.
  rewrite !Qabs_opp. exact N.
Qed.

Lemma near_signed (s : bool) (x q : Q) :
  0 <= x -> Qabs (q - x) <= eps * x + eta -> near (signed s x) (signed s q).
Proof.
  intros Hx N. assert (A : near x q).
  { unfold near. rewrite (Qabs_pos x) by exact Hx. exact N. }
  destruct s; [apply near_opp|]; exact A.
Qed.

Lemma near_exact (x : Q) : near x x.
Proof.
  unfold near. setoid_replace (x - x) with 0 by ring. change (Qabs 0) with 0.
  pose proof (Qabs_nonneg x). pose proof (pow2_pos (-53)). pose proof (pow2_pos (-1075)).
  unfold eps, eta. nra.
Qed.

(** ** Aligning a mantissa *)

Lemma iter_xO (d m : positive) : Zpos (Pos.iter xO m d) = (Zpos m * 2 ^ Zpos d)%Z.
Proof.
  induction d as [|d IH] using Pos.peano_ind.
  - cbn [Pos.iter]. lia.
  - rewrite Pos.iter_succ, Pos2Z.inj_xO, IH, Pos2Z.inj_succ, Z.pow_succ_r by lia. lia.
Qed.

Lemma iter_xO_digits (d m : positive) :
  Zpos (digits2_pos (Pos.iter xO m d)) = (Zpos (digits2_pos m) + Zpos d)%Z.
Proof.
  induction d as [|d IH] using Pos.peano_ind.
  - cbn [Pos.iter digits2_pos]. lia.
  - rewrite Pos.iter_succ. cbn [digits2_pos]. rewrite Pos2Z.inj_succ, IH. lia.
Qed.

Lemma shl_align_value (mx : positive) (ex ex' : Z) :
  inject_Z (Zpos (fst (shl_align mx ex ex'))) * pow2 (snd (shl_align mx ex ex'))
    == inject_Z (Zpos mx) * pow2 ex /\
  snd (shl_align mx ex ex') = Z.min ex ex' /\
  (Zpos (digits2_pos (fst (shl_align mx ex ex'))) + snd (shl_align mx ex ex')
   = Zpos (digits2_pos mx) + ex)%Z.
Proof.
  unfold shl_align. destruct (ex' - ex)%Z as [|d|d] eqn:E; cbn [fst snd].
  - split; [reflexivity|]. split; lia.
  - split; [reflexivity|]. split; lia.
  - split; [|split; [lia|rewrite iter_xO_digits; lia]].
    rewrite iter_xO, inject_Z_mult, <- pow2_Z by lia.
    rewrite <- Qmult_assoc, <- pow2_add. replace (Zpos d + ex')%Z with ex by lia.
    reflexivity.
Qed.

Lemma binary_round_near (s : bool) (m : positive) (e : Z) :
  inject_Z (Zpos m) * pow2 e < pow2 1023 ->
  exists q, SFval (binary_round prec emax s m e) = Some (signed s q) /\
            0 <= q /\
            Qabs (q - inject_Z (Zpos m) * pow2 e) <= eps * (inject_Z (Zpos m) * pow2 e) + eta /\
            rounded (inject_Z (Zpos m) * pow2 e) q.
Proof.
  intros Hx. unfold binary_round.
  destruct (shl_align_value m e (fexp prec emax (Zpos (digits2_pos m) + e)))
    as (V & Ee & D).
  destruct (shl_align m e (fexp prec emax (Zpos (digits2_pos m) + e))) as [mz ez].
  cbn [fst snd] in *.
  destruct (binary_round_aux_near s (Zpos mz) ez loc_Exact (inject_Z (Zpos mz)))
    as (q & Eq & Hq & N & Rd).
  - lia.
  - cbn [places]. reflexivity.
  - left. cbn [Zdigits2]. rewrite D. lia.
  - rewrite V. exact Hx.
  - exists q. split; [exact Eq|]. split; [exact Hq|].
    split; [rewrite <- V; exact N|].
    apply (rounded_proper _ _ q q V); [reflexivity|exact Rd].
Qed.

Lemma binary_normalize_near (M e : Z) :
  Qabs (inject_Z M * pow2 e) < pow2 1023 ->
  exists q, SFval (binary_normalize prec emax M e false) = Some q /\
            near (inject_Z M * pow2 e) q /\
            ((0 <= M)%Z -> rounded (inject_Z M * pow2 e) q).
Proof.
  intros Hx. pose proof (pow2_pos e) as Pe.
  destruct M as [|m|m]; cbn [binary_normalize].
  - exists 0. split; [reflexivity|].
    assert (E0 : inject_Z 0 * pow2 e == 0) by (change (inject_Z 0) with 0; ring).
    split; [rewrite E0; apply near_exact|].
    intros _. apply (rounded_proper 0 _ 0 _); [symmetry; exact E0|reflexivity|].
    apply rounded_zero.
  - assert (G : 0 <= inject_Z (Zpos m) * pow2 e).
    { assert (0 <= inject_Z (Zpos m)) by (apply inject_Z_nonneg; lia). nra. }
    rewrite Qabs_pos in Hx by exact G.
    destruct (binary_round_near false m e Hx) as (q & Eq & Hq & N & Rd).
    exists q. split; [exact Eq|].
    split; [apply (near_signed false); assumption|]. intros _. exact Rd.
  - assert (En : inject_Z (Zneg m) == - inject_Z (Zpos m)).
    { change (Zneg m) with (- Zpos m)%Z. rewrite inject_Z_opp. reflexivity. }
    assert (G : 0 <= inject_Z (Zpos m) * pow2 e).
    { assert (0 <= inject_Z (Zpos m)) by (apply inject_Z_nonneg; lia). nra. }
    assert (Es : inject_Z (Zneg m) * pow2 e == - (inject_Z (Zpos m) * pow2 e)).
    { rewrite En. ring. }
    rewrite Es, Qabs_opp, Qabs_pos in Hx by exact G.
    destruct (binary_round_near true m e Hx) as (q & Eq & Hq & N & _).
    exists (signed true q). split; [exact Eq|].
    split; [rewrite Es; apply (near_signed true); assumption|]. lia.
Qed.

Lemma valid_finite (s : bool) (m : positive) (e : Z) :
  valid_binary (S754_finite s m e) = true ->
  (e = Z.max (Zpos (digits2_pos m) + e - 53) (-1074) /\ e <= 971)%Z.
Proof.
  cbn [valid_binary]. unfold bounded, canonical_mantissa. rewrite fexp_eq.
  intros V. apply andb_true_iff in V. destruct V as [V1 V2].
  apply Z.eqb_eq in V1. apply Z.leb_le in V2. unfold emax, prec in V2. lia.
Qed.

(** A binary64 number that is not negative is its own rounding. *)
Lemma SFval_rounded (x : spec_float) (q : Q) :
  valid_binary x = true -> SFval x = Some q -> 0 <= q -> rounded q q.
Proof.
  intros V E Hq. destruct x as [s|s| |s m e]; try discriminate E;
    cbn [SFval] in E; injection E as <-.
  - apply rounded_zero.
  - apply valid_finite in V. destruct V as [C _].
    pose proof (pow2_pos e) as Pe.
    assert (G : 0 < inject_Z (Zpos m) * pow2 e).
    { assert (0 < inject_Z (Zpos m))
        by (change 0 with (inject_Z 0); rewrite <- Zlt_Qlt; lia).
      apply Qmult_lt_0_compat; assumption. }
    destruct s; cbn [signed] in *; [exfalso; lra|].
    apply rounded_exact; [|lia].
    split; [lia|]. pose proof (digits2_pos_bounds m) as [_ Hh].
    assert (2 ^ Zpos (digits2_pos m) <= 2 ^ 53)%Z by (apply Z.pow_le_mono_r; lia).
    lia.
Qed.

(** ** Addition and subtraction *)

#[export] Instance signed_proper : Proper (eq ==> Qeq ==> Qeq) signed.
Proof. intros s s' <- a b E. destruct s; cbn [signed]; rewrite E; reflexivity. Qed.

Lemma cond_Zopp_signed (s : bool) (m : Z) (e : Z) :
  inject_Z (cond_Zopp s m) * pow2 e == signed s (inject_Z m * pow2 e).
Proof.
  destruct s; cbn [cond_Zopp signed]; [rewrite inject_Z_opp; ring|reflexivity].
Qed.

Lemma aligned_value (s : bool) (m : positive) (e e' : Z) :
  (e' <= e)%Z ->
  inject_Z (cond_Zopp s (Zpos (fst (shl_align m e e')))) * pow2 e'
  == signed s (inject_Z (Zpos m) * pow2 e).
Proof.
  intros L. rewrite cond_Zopp_signed.
  destruct (shl_align_value m e e') as (V & Ee & _).
  replace (Z.min e e') with e' in Ee by lia. rewrite Ee in V. rewrite V. reflexivity.
Qed.

Lemma SFadd_near (x y : spec_float) (qx qy : Q) :
  SFval x = Some qx -> SFval y = Some qy -> Qabs (qx + qy) < pow2 1023 ->
  exists q, SFval (SFadd prec emax x y) = Some q /\ near (qx + qy) q.
Proof.
  intros Ex Ey Hb.
  destruct x as [sx|sx| |sx mx ex]; try discriminate Ex;
  destruct y as [sy|sy| |sy my ey]; try discriminate Ey;
  cbn [SFval] in Ex, Ey; injection Ex as <-; injection Ey as <-.
  - exists 0. split; [destruct sx, sy; reflexivity|].
    setoid_replace (0 + 0) with 0 by ring. apply near_exact.
  - eexists. split; [reflexivity|].
    rewrite Qplus_0_l. apply near_exact.
  - eexists. split; [reflexivity|].
    rewrite Qplus_0_r. apply near_exact.
  - cbn [SFadd].
    assert (V : inject_Z (cond_Zopp sx (Zpos (fst (shl_align mx ex (Z.min ex ey)))) +
                          cond_Zopp sy (Zpos (fst (shl_align my ey (Z.min ex ey)))))
                * pow2 (Z.min ex ey)
                == signed sx (inject_Z (Zpos mx) * pow2 ex) +
                   signed sy (inject_Z (Zpos my) * pow2 ey)).
    { rewrite inject_Z_plus, Qmult_plus_distr_l.
      rewrite !aligned_value by lia. reflexivity. }
    destruct (binary_normalize_near
                (cond_Zopp sx (Zpos (fst (shl_align mx ex (Z.min ex ey)))) +
                 cond_Zopp sy (Zpos (fst (shl_align my ey (Z.min ex ey)))))
                (Z.min ex ey)) as (q & Eq & N & _).
    + rewrite V. exact Hb.
    + exists q. split; [exact Eq|]. rewrite <- V. exact N.
Qed.

Lemma SFsub_near (x y : spec_float) (qx qy : Q) :
  valid_binary x = true -> valid_binary y = true ->
  SFval x = Some qx -> SFval y = Some qy -> Qabs (qx - qy) < pow2 1023 ->
  exists q, SFval (SFsub prec emax x y) = Some q /\ near (qx - qy) q /\
            (0 <= qx - qy -> rounded (qx - qy) q).
Proof.
  intros Vx Vy Ex Ey Hb.
  assert (Self : forall z v w, valid_binary z = true -> SFval z = Some v -> w == v ->
                 near w v /\ (0 <= w -> rounded w v)).
  { intros z v w Vz Ez Ew. split; [rewrite Ew; apply near_exact|].
    intros G. apply (rounded_proper v w v v); [symmetry; exact Ew|reflexivity|].
    apply (SFval_rounded z v Vz Ez). rewrite <- Ew. exact G. }
  destruct x as [sx|sx| |sx mx ex]; try discriminate Ex;
  destruct y as [sy|sy| |sy my ey]; try discriminate Ey;
  cbn [SFval] in Ex, Ey; injection Ex as <-; injection Ey as <-.
  - exists 0. split; [destruct sx, sy; reflexivity|].
    apply (Self (S754_zero false)); [reflexivity|reflexivity|ring].
  - eexists. split; [reflexivity|].
    apply (Self (S754_finite (negb sy) my ey)); [exact Vy|reflexivity|].
    destruct sy; cbn [signed negb]; ring.
  - eexists. split; [reflexivity|].
    apply (Self (S754_finite sx mx ex)); [exact Vx|reflexivity|ring].
  - cbn [SFsub].
    assert (V : inject_Z (cond_Zopp sx (Zpos (fst (shl_align mx ex (Z.min ex ey)))) -
                          cond_Zopp sy (Zpos (fst (shl_align my ey (Z.min ex ey)))))
                * pow2 (Z.min ex ey)
                == signed sx (inject_Z (Zpos mx) * pow2 ex) -
                   signed sy (inject_Z (Zpos my) * pow2 ey)).
    { unfold Z.sub. rewrite inject_Z_plus, inject_Z_opp.
      setoid_replace ((inject_Z (cond_Zopp sx (Zpos (fst (shl_align mx ex (Z.min ex ey))))) +
                       - inject_Z (cond_Zopp sy (Zpos (fst (shl_align my ey (Z.min ex ey))))))
                      * pow2 (Z.min ex ey))
        with (inject_Z (cond_Zopp sx (Zpos (fst (shl_align mx ex (Z.min ex ey)))))
                * pow2 (Z.min ex ey) -
              inject_Z (cond_Zopp sy (Zpos (fst (shl_align my ey (Z.min ex ey)))))
                * pow2 (Z.min ex ey)) by ring.
      rewrite !aligned_value by lia. reflexivity. }
    set (M := (cond_Zopp sx (Zpos (fst (shl_align mx ex (Z.min ex ey)))) -
               cond_Zopp sy (Zpos (fst (shl_align my ey (Z.min ex ey)))))%Z) in *.
    destruct (binary_normalize_near M (Z.min ex ey)) as (q & Eq & N & Rd).
    + rewrite V. exact Hb.
    + exists q. split; [exact Eq|]. split; [rewrite <- V; exact N|].
      intros G. apply (rounded_proper _ _ q q V); [reflexivity|].
      apply Rd. rewrite <- V in G.
      pose proof (pow2_pos (Z.min ex ey)) as Pe.
      destruct (Z_le_gt_dec 0 M) as [A|A]; [exact A|exfalso].
      assert (A' : (M <= -1)%Z) by lia. rewrite Zle_Qle in A'.
      change (inject_Z (-1)) with (- 1) in A'.
      assert (0 <= (- inject_Z M - 1) * pow2 (Z.min ex ey))
        by (apply Qmult_le_0_compat; lra).
      lra.
Qed.

(** ** Multiplication *)

Lemma signed_mult (sx sy : bool) (a b : Q) :
  signed (xorb sx sy) (a * b) == signed sx a * signed sy b.
Proof. destruct sx, sy; cbn [signed xorb]; ring. Qed.

Lemma digits_mul (mx my : positive) :
  (Zpos (digits2_pos mx) + Zpos (digits2_pos my) - 1 <= Zpos (digits2_pos (mx * my)))%Z.
Proof.
  pose proof (digits2_pos_bounds mx) as [Lx _].
  pose proof (digits2_pos_bounds my) as [Ly _].
  pose proof (digits2_pos_bounds (mx * my)) as [_ H].
  assert (E : (2 ^ (Zpos (digits2_pos mx) - 1 + (Zpos (digits2_pos my) - 1))
               <= Zpos (mx * my))%Z).
  { rewrite Z.pow_add_r by lia. rewrite Pos2Z.inj_mul.
    assert (0 < 2 ^ (Zpos (digits2_pos mx) - 1))%Z by (apply Z.pow_pos_nonneg; lia).
    assert (0 < 2 ^ (Zpos (digits2_pos my) - 1))%Z by (apply Z.pow_pos_nonneg; lia).
    nia. }
  assert (L : (Zpos (digits2_pos mx) - 1 + (Zpos (digits2_pos my) - 1)
               < Zpos (digits2_pos (mx * my)))%Z).
  { apply (Z.pow_lt_mono_r_iff 2); lia. }
  lia.
Qed.

Lemma SFmul_near (x y : spec_float) (qx qy : Q) :
  valid_binary x = true -> valid_binary y = true ->
  SFval x = Some qx -> SFval y = Some qy -> Qabs (qx * qy) < pow2 1023 ->
  exists q, SFval (SFmul prec emax x y) = Some q /\ near (qx * qy) q /\
            (0 <= qx * qy -> rounded (qx * qy) q).
Proof.
  intros Vx Vy Ex Ey Hb.
  assert (Zero : forall w, w == 0 -> near w 0 /\ (0 <= w -> rounded w 0)).
  { intros w Ew. split; [rewrite Ew; apply near_exact|].
    intros _. apply (rounded_proper 0 w 0 0); [symmetry; exact Ew|reflexivity|].
    apply rounded_zero. }
  destruct x as [sx|sx| |sx mx ex]; try discriminate Ex;
  destruct y as [sy|sy| |sy my ey]; try discriminate Ey;
  cbn [SFval] in Ex, Ey; injection Ex as <-; injection Ey as <-.
  - exists 0. split; [reflexivity|]. apply Zero. ring.
  - exists 0. split; [reflexivity|]. apply Zero. ring.
  - exists 0. split; [reflexivity|]. apply Zero. ring.
  - cbn [SFmul].
    apply valid_finite in Vx, Vy. destruct Vx as [Cx Bx], Vy as [Cy By].
    pose proof (pow2_pos ex) as Px. pose proof (pow2_pos ey) as Py.
    assert (Gx : 0 < inject_Z (Zpos mx)) by (change 0 with (inject_Z 0); rewrite <- Zlt_Qlt; lia).
    assert (Gy : 0 < inject_Z (Zpos my)) by (change 0 with (inject_Z 0); rewrite <- Zlt_Qlt; lia).
    assert (V : inject_Z (Zpos (mx * my)) * pow2 (ex + ey)
                == (inject_Z (Zpos mx) * pow2 ex) * (inject_Z (Zpos my) * pow2 ey)).
    { rewrite Pos2Z.inj_mul, inject_Z_mult, pow2_add. ring. }
    assert (G : 0 <= inject_Z (Zpos (mx * my)) * pow2 (ex + ey)).
    { rewrite V. apply Qmult_le_0_compat; nra. }
    rewrite <- signed_mult, <- V in Hb.
    assert (Hb' : inject_Z (Zpos (mx * my)) * pow2 (ex + ey) < pow2 1023).
    { destruct (xorb sx sy); cbn [signed] in Hb;
        [rewrite Qabs_opp in Hb|]; rewrite Qabs_pos in Hb by exact G; exact Hb. }
    destruct (binary_round_aux_near (xorb sx sy) (Zpos (mx * my)) (ex + ey) loc_Exact
                (inject_Z (Zpos (mx * my)))) as (q & Eq & Hq & N & Rd).
    + lia.
    + cbn [places]. reflexivity.
    + destruct (Z_le_gt_dec (ex + ey) 971) as [L|L]; [right; split; [reflexivity|exact L]|].
      left. rewrite fexp_eq. cbn [Zdigits2]. pose proof (digits_mul mx my). lia.
    + exact Hb'.
    + exists (signed (xorb sx sy) q). split; [exact Eq|].
      split; [rewrite <- signed_mult, <- V; apply near_signed; assumption|].
      rewrite <- signed_mult, <- V.
      assert (G' : 0 < inject_Z (Zpos (mx * my)) * pow2 (ex + ey)).
      { rewrite V. apply Qmult_lt_0_compat; apply Qmult_lt_0_compat; assumption. }
      destruct (xorb sx sy); cbn [signed]; [intros A; exfalso; lra|].
      intros _. exact Rd.
Qed.

(** ** Division *)

Lemma new_location_places (nb k q : Z) :
  (0 <= k < nb)%Z ->
  places q (new_location nb k) (inject_Z q + inject_Z k / inject_Z nb).
Proof.
  intros Hk.
  assert (NB : 0 < inject_Z nb) by (change 0 with (inject_Z 0); rewrite <- Zlt_Qlt; lia).
  remember (inject_Z k / inject_Z nb) as f eqn:Ef.
  assert (Efk : f * inject_Z nb == inject_Z k).
  { rewrite Ef. field. lra. }
  assert (C2 : forall c, (2 * k ?= nb)%Z = c ->
               match c with
               | Lt => 2 * f < 1 | Eq => 2 * f == 1 | Gt => 1 < 2 * f end).
  { intros c Ec. destruct c.
    - apply Z.compare_eq in Ec.
      assert (Eq2 : 2 * inject_Z k == inject_Z nb).
      { rewrite <- Ec, inject_Z_mult. reflexivity. }
      nra.
    - change (2 * k < nb)%Z in Ec. rewrite Zlt_Qlt, inject_Z_mult in Ec.
      change (inject_Z 2) with 2 in Ec. nra.
    - change (2 * k > nb)%Z in Ec. apply Z.gt_lt in Ec.
      rewrite Zlt_Qlt, inject_Z_mult in Ec.
      change (inject_Z 2) with 2 in Ec. nra. }
  assert (F1 : f < 1).
  { assert (inject_Z k < inject_Z nb) by (rewrite <- Zlt_Qlt; lia). nra. }
  assert (K0 : k <> 0%Z -> 0 < f).
  { intros NZ. assert (0 < inject_Z k)
      by (change 0 with (inject_Z 0); rewrite <- Zlt_Qlt; lia). nra. }
  unfold new_location. destruct (Z.even nb) eqn:Ev.
  - unfold new_location_even. destruct (Z.eqb_spec k 0) as [K|K].
    + cbn [places]. subst k. change (inject_Z 0) with 0 in Efk. nra.
    + specialize (K0 K). specialize (C2 _ eq_refl).
      destruct (2 * k ?= nb)%Z; cbn [places]; lra.
  - unfold new_location_odd. destruct (Z.eqb_spec k 0) as [K|K].
    + cbn [places]. subst k. change (inject_Z 0) with 0 in Efk. nra.
    + specialize (K0 K).
      assert (Od : (2 * k <> nb)%Z).
      { intros E. rewrite <- E, Z.even_mul in Ev. discriminate Ev. }
      assert (C1 : match (2 * k + 1 ?= nb)%Z with
                   | Gt => 1 < 2 * f | _ => 2 * f < 1 end).
      { destruct (2 * k + 1 ?= nb)%Z eqn:Ec.
        - apply Z.compare_eq in Ec.
          apply (C2 Lt). apply Z.compare_lt_iff. lia.
        - change (2 * k + 1 < nb)%Z in Ec.
          apply (C2 Lt). apply Z.compare_lt_iff. lia.
        - change (2 * k + 1 > nb)%Z in Ec.
          apply (C2 Gt). apply Z.compare_gt_iff. lia. }
      destruct (2 * k + 1 ?= nb)%Z; cbn [places]; lra.
Qed.

Lemma SFdiv_core_binary_places (m1 m2 : positive) (e1 e2 : Z) :
  exists q e' l X,
    SFdiv_core_binary prec emax (Zpos m1) e1 (Zpos m2) e2 = (q, e', l) /\
    (0 <= q)%Z /\ places q l X /\
    X * pow2 e' == (inject_Z (Zpos m1) * pow2 e1) / (inject_Z (Zpos m2) * pow2 e2) /\
    (e' <= fexp prec emax (Zdigits2 q + e'))%Z.
Proof.
  unfold SFdiv_core_binary. cbn [Zdigits2]. rewrite !fexp_eq.
  set (d1 := Zpos (digits2_pos m1)). set (d2 := Zpos (digits2_pos m2)).
  set (e' := Z.min (Z.max (d1 + e1 - (d2 + e2) - 53) (-1074)) (e1 - e2)).
  set (s := (e1 - e2 - e')%Z).
  assert (Hs : (0 <= s)%Z) by lia.
  set (m' := match s with
             | 0%Z => Zpos m1 | Zpos _ => Z.shiftl (Zpos m1) s | Zneg _ => 0%Z end).
  assert (Em : m' = (Zpos m1 * 2 ^ s)%Z).
  { unfold m'. destruct s as [|p|p] eqn:Es; [lia| |lia].
    rewrite Z.shiftl_mul_pow2 by lia. reflexivity. }
  clearbody m'.
  pose proof (Z_div_mod m' (Zpos m2) eq_refl) as DM.
  destruct (Z.div_eucl m' (Zpos m2)) as [q r]. destruct DM as [Eq Hr].
  assert (P2 : (0 < 2 ^ s)%Z) by (apply Z.pow_pos_nonneg; lia).
  assert (Hq : (0 <= q)%Z) by nia.
  exists q, e', (new_location (Zpos m2) r), (inject_Z q + inject_Z r / inject_Z (Zpos m2)).
  split; [reflexivity|]. split; [exact Hq|].
  split; [apply new_location_places; exact Hr|].
  assert (G2 : 0 < inject_Z (Zpos m2))
    by (change 0 with (inject_Z 0); rewrite <- Zlt_Qlt; lia).
  pose proof (pow2_pos e2) as Pe2.
  split.
  - assert (EQ : inject_Z q + inject_Z r / inject_Z (Zpos m2)
                 == inject_Z (Zpos m1) * pow2 s / inject_Z (Zpos m2)).
    { rewrite (pow2_Z s) by exact Hs. rewrite <- inject_Z_mult, <- Em, Eq.
      rewrite inject_Z_plus, inject_Z_mult. field. lra. }
    rewrite EQ.
    assert (E1 : pow2 e1 == pow2 s * pow2 e' * pow2 e2).
    { rewrite <- !pow2_add. replace (s + e' + e2)%Z with e1 by (unfold s; lia).
      reflexivity. }
    rewrite E1. field. split; lra.
  - rewrite fexp_eq.
    destruct (Z_le_gt_dec e' (-1074)) as [L|L]; [lia|].
    pose proof (digits2_pos_bounds m1) as [L1 _]. fold d1 in L1.
    pose proof (digits2_pos_bounds m2) as [_ H2]. fold d2 in H2.
    assert (S1 : (d2 <= d1 - 1 + s)%Z) by (unfold s; lia).
    assert (Q1 : (2 ^ (d1 - 1 + s - d2) <= q)%Z).
    { assert (A : (2 ^ (d1 - 1 + s) <= m')%Z).
      { rewrite Em, Z.pow_add_r by (unfold d1; lia). nia. }
      replace (d1 - 1 + s)%Z with (d1 - 1 + s - d2 + d2)%Z in A by lia.
      rewrite Z.pow_add_r in A by (unfold d2; lia).
      assert (0 < 2 ^ (d1 - 1 + s - d2))%Z by (apply Z.pow_pos_nonneg; lia).
      nia. }
    assert (Qp : (0 < q)%Z).
    { assert (0 < 2 ^ (d1 - 1 + s - d2))%Z by (apply Z.pow_pos_nonneg; lia). lia. }
    destruct (Zdigits2_bounds q Qp) as (Dq & _ & Hq2).
    assert (d1 - 1 + s - d2 < Zdigits2 q)%Z.
    { apply (Z.pow_lt_mono_r_iff 2); lia. }
    unfold s in *. lia.
Qed.

Lemma signed_div (sx sy : bool) (a b : Q) :
  ~ b == 0 -> signed (xorb sx sy) (a / b) == signed sx a / signed sy b.
Proof. intros NZ. destruct sx, sy; cbn [signed xorb]; field; exact NZ. Qed.

Lemma SFdiv_near (x y : spec_float) (qx qy : Q) :
  SFval x = Some qx -> SFval y = Some qy -> ~ qy == 0 ->
  Qabs (qx / qy) < pow2 1023 ->
  exists q, SFval (SFdiv prec emax x y) = Some q /\ near (qx / qy) q.
Proof.
  intros Ex Ey NZ Hb.
  destruct x as [sx|sx| |sx mx ex]; try discriminate Ex;
  destruct y as [sy|sy| |sy my ey]; try discriminate Ey;
  cbn [SFval] in Ex, Ey; injection Ex as <-; injection Ey as <-;
  try (exfalso; apply NZ; reflexivity).
  - exists 0. split; [reflexivity|].
    setoid_replace (0 / signed sy (inject_Z (Zpos my) * pow2 ey)) with 0
      by (field; exact NZ).
    apply near_exact.
  - cbn [SFdiv].
    destruct (SFdiv_core_binary_places mx my ex ey) as (q & e' & l & X & E & Hq & P & V & A).
    rewrite E.
    pose proof (pow2_pos ex) as Px. pose proof (pow2_pos ey) as Py.
    pose proof (pow2_pos e') as Pe.
    assert (Gy : 0 < inject_Z (Zpos my) * pow2 ey).
    { assert (0 < inject_Z (Zpos my))
        by (change 0 with (inject_Z 0); rewrite <- Zlt_Qlt; lia). nra. }
    assert (NZ' : ~ inject_Z (Zpos my) * pow2 ey == 0) by lra.
    assert (G : 0 <= X * pow2 e').
    { apply places_ge in P. assert (0 <= inject_Z q) by (apply inject_Z_nonneg; lia). nra. }
    rewrite <- signed_div, <- V in Hb by exact NZ'.
    assert (Hb' : X * pow2 e' < pow2 1023).
    { destruct (xorb sx sy); cbn [signed] in Hb;
        [rewrite Qabs_opp in Hb|]; rewrite Qabs_pos in Hb by exact G; exact Hb. }
    destruct (binary_round_aux_near (xorb sx sy) q e' l X Hq P (or_introl A) Hb')
      as (q0 & Eq & Hq0 & N & _).
    exists (signed (xorb sx sy) q0). split; [exact Eq|].
    rewrite <- signed_div, <- V by exact NZ'. apply near_signed; assumption.
Qed.

(** ** The operations of Python's floats, read exactly *)

Lemma float_sub_near (x y : float) (qx qy : Q) :
  float_Q x = Some qx -> float_Q y = Some qy -> Qabs (qx - qy) < pow2 1023 ->
  exists q, float_Q (PrimFloat.sub x y) = Some q /\ near (qx - qy) q /\
            (0 <= qx - qy -> rounded (qx - qy) q).
Proof.
  intros Ex Ey Hb.
  destruct (float_Q_SFval x qx Ex) as (qx' & Sx & Qx).
  destruct (float_Q_SFval y qy Ey) as (qy' & Sy & Qy).
  rewrite Qx, Qy in Hb.
  destruct (SFsub_near _ _ qx' qy' (Prim2SF_valid x) (Prim2SF_valid y) Sx Sy Hb)
    as (q' & Sq & N & Rd).
  change (SFsub prec emax) with SF64sub in Sq. rewrite <- sub_spec in Sq.
  destruct (SFval_float_Q _ q' Sq) as (q & Eq & Qq).
  exists q. split; [exact Eq|]. rewrite Qx, Qy, Qq. split; assumption.
Qed.

Lemma float_add_near (x y : float) (qx qy : Q) :
  float_Q x = Some qx -> float_Q y = Some qy -> Qabs (qx + qy) < pow2 1023 ->
  exists q, float_Q (PrimFloat.add x y) = Some q /\ near (qx + qy) q.
Proof.
  intros Ex Ey Hb.
  destruct (float_Q_SFval x qx Ex) as (qx' & Sx & Qx).
  destruct (float_Q_SFval y qy Ey) as (qy' & Sy & Qy).
  rewrite Qx, Qy in Hb.
  destruct (SFadd_near _ _ qx' qy' Sx Sy Hb) as (q' & Sq & N).
  change (SFadd prec emax) with SF64add in Sq. rewrite <- add_spec in Sq.
  destruct (SFval_float_Q _ q' Sq) as (q & Eq & Qq).
  exists q. split; [exact Eq|]. rewrite Qx, Qy, Qq. exact N.
Qed.

Lemma float_mul_near (x y : float) (qx qy : Q) :
  float_Q x = Some qx -> float_Q y = Some qy -> Qabs (qx * qy) < pow2 1023 ->
  exists q, float_Q (PrimFloat.mul x y) = Some q /\ near (qx * qy) q /\
            (0 <= qx * qy -> rounded (qx * qy) q).
Proof.
  intros Ex Ey Hb.
  destruct (float_Q_SFval x qx Ex) as (qx' & Sx & Qx).
  destruct (float_Q_SFval y qy Ey) as (qy' & Sy & Qy).
  rewrite Qx, Qy in Hb.
  destruct (SFmul_near _ _ qx' qy' (Prim2SF_valid x) (Prim2SF_valid y) Sx Sy Hb)
    as (q' & Sq & N & Rd).
  change (SFmul prec emax) with SF64mul in Sq. rewrite <- mul_spec in Sq.
  destruct (SFval_float_Q _ q' Sq) as (q & Eq & Qq).
  exists q. split; [exact Eq|]. rewrite Qx, Qy, Qq. split; assumption.
Qed.

Lemma float_div_near (x y : float) (qx qy : Q) :
  float_Q x = Some qx -> float_Q y = Some qy -> ~ qy == 0 ->
  Qabs (qx / qy) < pow2 1023 ->
  exists q, float_Q (PrimFloat.div x y) = Some q /\ near (qx / qy) q.
Proof.
  intros Ex Ey NZ Hb.
  destruct (float_Q_SFval x qx Ex) as (qx' & Sx & Qx).
  destruct (float_Q_SFval y qy Ey) as (qy' & Sy & Qy).
  rewrite Qx, Qy in Hb. rewrite Qy in NZ.
  destruct (SFdiv_near _ _ qx' qy' Sx Sy NZ Hb) as (q' & Sq & N).
  change (SFdiv prec emax) with SF64div in Sq. rewrite <- div_spec in Sq.
  destruct (SFval_float_Q _ q' Sq) as (q & Eq & Qq).
  exists q. split; [exact Eq|]. rewrite Qx, Qy, Qq. exact N.
Qed.

(** [x == 0.0] is false of a number that is not zero. *)
Lemma float_eqb_zero (x : float) (q : Q) :
  float_Q x = Some q -> ~ q == 0 -> PrimFloat.eqb x 0%float = false.
Proof.
  intros E NZ. rewrite eqb_spec. unfold float_Q in E.
  change (Prim2SF 0%float) with (S754_zero false).
  destruct (Prim2SF x) as [s|s| |s m e]; try discriminate E.
  - injection E as <-. exfalso. apply NZ. reflexivity.
  - destruct s; reflexivity.
Qed.

(** [int(x)] truncates toward zero. *)
Lemma float_int_trunc (x : float) (q : Q) :
  float_Q x = Some q ->
  exists n, float_int x = inr n /\
    (0 <= q -> (0 <= n)%Z /\ inject_Z n <= q /\ q < inject_Z n + 1) /\
    (q <= 0 -> (n <= 0)%Z /\ inject_Z n - 1 < q /\ q <= inject_Z n).
Proof.
  unfold float_Q, float_int. destruct (Prim2SF x) as [s|s| |s m e]; try discriminate.
  - intros E. injection E as <-. exists 0%Z. split; [reflexivity|].
    change (inject_Z 0) with 0. split; intros _; (split; [lia|]); lra.
  - intros E. injection E as <-.
    set (a := if (0 <=? e)%Z then Z.shiftl (Zpos m) e else Z.shiftr (Zpos m) (- e)).
    set (y := inject_Z (Zpos m) *
              (if (0 <=? e)%Z then inject_Z (2 ^ e) else / inject_Z (2 ^ (- e)))).
    assert (A : (0 <= a)%Z /\ inject_Z a <= y /\ y < inject_Z a + 1 /\ 0 < y).
    { unfold a, y. destruct (Z.leb_spec 0 e) as [L|L].
      - rewrite Z.shiftl_mul_pow2 by exact L.
        assert (P : (0 < 2 ^ e)%Z) by (apply Z.pow_pos_nonneg; lia).
        rewrite <- inject_Z_mult.
        split; [nia|]. split; [lra|]. split; [lra|].
        change 0 with (inject_Z 0). rewrite <- Zlt_Qlt. nia.
      - rewrite Z.shiftr_div_pow2 by lia.
        assert (P : (0 < 2 ^ (- e))%Z) by (apply Z.pow_pos_nonneg; lia).
        set (k := (2 ^ (- e))%Z) in *.
        assert (K : 0 < inject_Z k) by (change 0 with (inject_Z 0); rewrite <- Zlt_Qlt; lia).
        pose proof (Z.mul_div_le (Zpos m) k P) as D1.
        pose proof (Z.mul_succ_div_gt (Zpos m) k P) as D2.
        assert (D0 : (0 <= Zpos m / k)%Z) by (apply Z.div_pos; lia).
        rewrite Zle_Qle, inject_Z_mult in D1.
        rewrite Zlt_Qlt, inject_Z_mult in D2.
        replace (Z.succ (Zpos m / k)) with (Zpos m / k + 1)%Z in D2 by lia.
        rewrite inject_Z_plus in D2. change (inject_Z 1) with 1 in D2.
        assert (M : 0 < inject_Z (Zpos m))
          by (change 0 with (inject_Z 0); rewrite <- Zlt_Qlt; lia).
        assert (Ey : inject_Z (Zpos m) * / inject_Z k * inject_Z k == inject_Z (Zpos m)).
        { field. lra. }
        set (z := inject_Z (Zpos m) * / inject_Z k) in *.
        split; [exact D0|]. split; [nra|]. split; [nra|]. nra. }
    destruct A as (A0 & A1 & A2 & A3).
    exists (if s then (- a)%Z else a). split; [reflexivity|].
    destruct s.
    + rewrite inject_Z_opp. split; [intros G; lra|].
      intros _. split; [lia|]. lra.
    + split; [intros _; split; [exact A0|lra]|]. intros G. lra.
Qed.

(** [float(k)] is exact for the positions of a slider. *)
Lemma float_of_int_small (k : Z) :
  (0 <= k <= 100)%Z ->
  exists q, float_Q (float_of_int k) = Some q /\ q == inject_Z k.
Proof.
  intros Hk.
  assert (C : forallb (fun n => match float_Q (float_of_int (Z.of_nat n)) with
                                | Some q => Qeq_bool q (inject_Z (Z.of_nat n))
                                | None => false
                                end) (seq 0 101) = true)
    by (vm_compute; reflexivity).
  rewrite forallb_forall in C. specialize (C (Z.to_nat k)).
  rewrite Z2Nat.id in C by lia.
  assert (I : In (Z.to_nat k) (seq 0 101)) by (apply in_seq; lia).
  specialize (C I). destruct (float_Q (float_of_int k)) as [q|]; [|discriminate C].
  exists q. split; [reflexivity|]. apply Qeq_bool_eq. exact C.
Qed.

(** ** Error bounds *)

Lemma eps_u52 : eps + eps == u52.
Proof. reflexivity. Qed.

Lemma eta_eps : eta == eps * pow2 (-1022).
Proof. unfold eta, eps. rewrite <- pow2_add. reflexivity. Qed.

Lemma pow2_1023 : pow2 1023 == 8388608 * pow2 1000.
Proof. change 1023%Z with (23 + 1000)%Z. rewrite pow2_add. reflexivity. Qed.

Lemma pow2_m1022 : pow2 (-1022) == (1 # 4194304) * pow2 (-1000).
Proof. change (-1022)%Z with (-22 + -1000)%Z. rewrite pow2_add. reflexivity. Qed.

Lemma pow2_1000_inv : pow2 1000 * pow2 (-1000) == 1.
Proof. rewrite <- pow2_add. reflexivity. Qed.

Lemma pow2_1000_ge : 1 <= pow2 1000.
Proof. change 1 with (pow2 0). apply pow2_le. lia. Qed.

Lemma pow2_m1000_le : pow2 (-1000) <= 1.
Proof. change 1 with (pow2 0). apply pow2_le. lia. Qed.

Lemma near_bound (x q M : Q) :
  near x q -> Qabs x <= M -> pow2 (-1022) <= M ->
  - (u52 * M) <= q - x /\ q - x <= u52 * M.
Proof.
  unfold near. intros N HM Hs. apply Qabs_Qle_condition.
  rewrite eta_eps in N. rewrite <- eps_u52.
  assert (E : 0 < eps) by apply pow2_pos.
  assert (eps * Qabs x <= eps * M) by (apply Qmult_le_l; assumption).
  assert (eps * pow2 (-1022) <= eps * M) by (apply Qmult_le_l; assumption).
  lra.
Qed.

Lemma near_quotient (a w q : Q) :
  near (a / w) q -> 0 < w -> 0 < a -> pow2 (-1022) * w <= a ->
  - (u52 * a) <= q * w - a /\ q * w - a <= u52 * a.
Proof.
  intros N Hw Ha Hs.
  assert (X : 0 < a / w) by (apply Qlt_shift_div_l; lra).
  assert (Ex : a / w * w == a) by (field; lra).
  assert (S : pow2 (-1022) <= a / w) by (apply Qle_shift_div_l; lra).
  destruct (near_bound (a / w) q (a / w) N) as [B1 B2].
  - rewrite Qabs_pos by lra. lra.
  - exact S.
  - set (x := a / w) in *. unfold u52 in *. split; nra.
Qed.

Lemma mul_bound (x y A B : Q) :
  - A <= x -> x <= A -> - B <= y -> y <= B -> - (A * B) <= x * y /\ x * y <= A * B.
Proof.
  intros X1 X2 Y1 Y2.
  assert (P1 : 0 <= (A - x) * (B + y)) by (apply Qmult_le_0_compat; lra).
  assert (P2 : 0 <= (A + x) * (B - y)) by (apply Qmult_le_0_compat; lra).
  assert (P3 : 0 <= (A - x) * (B - y)) by (apply Qmult_le_0_compat; lra).
  assert (P4 : 0 <= (A + x) * (B + y)) by (apply Qmult_le_0_compat; lra).
  split; lra.
Qed.

(** *** The arithmetic of the mapping *)

Lemma alg_scale (W w d : Q) :
  0 < W ->
  - (u52 * W) <= w - W -> w - W <= u52 * W ->
  - (u52 * 100) <= d * w - 100 -> d * w - 100 <= u52 * 100 ->
  0 < w /\ 0 < d /\ - (300 * u52) <= d * W - 100 /\ d * W - 100 <= 300 * u52.
Proof.
  unfold u52. intros HW W1 W2 D1 D2.
  assert (Hw : 0 < w) by lra.
  assert (Hd : 0 < d).
  { destruct (Qlt_le_dec 0 d) as [G|G]; [exact G|exfalso].
    assert (0 <= (- d) * w) by (apply Qmult_le_0_compat; lra). lra. }
  assert (P1 : 0 <= d * (w - W + (1 # 4503599627370496) * W))
    by (apply Qmult_le_0_compat; lra).
  assert (P2 : 0 <= d * ((1 # 4503599627370496) * W - (w - W)))
    by (apply Qmult_le_0_compat; lra).
  repeat split; trivial; lra.
Qed.

Lemma alg_inverse (W d i : Q) :
  0 < W -> 0 < d ->
  - (300 * u52) <= d * W - 100 -> d * W - 100 <= 300 * u52 ->
  - (u52 * 1) <= i * d - 1 -> i * d - 1 <= u52 * 1 ->
  0 < i /\ - (5 * u52 * W) <= 100 * i - W /\ 100 * i - W <= 5 * u52 * W.
Proof.
  unfold u52. intros HW Hd D1 D2 I1 I2.
  assert (Hi : 0 < i).
  { destruct (Qlt_le_dec 0 i) as [G|G]; [exact G|exfalso].
    assert (0 <= (- i) * d) by (apply Qmult_le_0_compat; lra). lra. }
  split; [exact Hi|]. split.
  - destruct (Qlt_le_dec (100 * i - W) (- (5 * (1 # 4503599627370496) * W))) as [G|G];
      [exfalso|exact G].
    assert (0 <= d * (- (5 * (1 # 4503599627370496) * W) - (100 * i - W)))
      by (apply Qmult_le_0_compat; lra).
    lra.
  - destruct (Qlt_le_dec (5 * (1 # 4503599627370496) * W) (100 * i - W)) as [G|G];
      [exfalso|exact G].
    assert (0 <= d * (100 * i - W - 5 * (1 # 4503599627370496) * W))
      by (apply Qmult_le_0_compat; lra).
    lra.
Qed.

Lemma alg_product (W X a d : Q) :
  0 < W -> 0 <= X -> X <= W ->
  - (u52 * W) <= a - X -> a - X <= u52 * W ->
  0 < d -> - (300 * u52) <= d * W - 100 -> d * W - 100 <= 300 * u52 ->
  - 102 <= a * d /\ a * d <= 102.
Proof.
  unfold u52. intros HW X1 X2 A1 A2 Hd D1 D2.
  assert (P1 : 0 <= d * (a + (1 # 4503599627370496) * W))
    by (apply Qmult_le_0_compat; lra).
  assert (P2 : 0 <= d * (W + (1 # 4503599627370496) * W - a))
    by (apply Qmult_le_0_compat; lra).
  split; lra.
Qed.

Lemma alg_position (W X a d P : Q) :
  0 < W -> 0 <= X -> X <= W ->
  - (u52 * W) <= a - X -> a - X <= u52 * W ->
  0 < d -> - (300 * u52) <= d * W - 100 -> d * W - 100 <= 300 * u52 ->
  - (u52 * 102) <= P - a * d -> P - a * d <= u52 * 102 ->
  - (512 * u52 * W) <= P * W - 100 * X /\ P * W - 100 * X <= 512 * u52 * W.
Proof.
  unfold u52. intros HW X1 X2 A1 A2 Hd D1 D2 P1 P2.
  assert (Q1 : 0 <= W * (P - a * d + (1 # 4503599627370496) * 102))
    by (apply Qmult_le_0_compat; lra).
  assert (Q2 : 0 <= W * ((1 # 4503599627370496) * 102 - (P - a * d)))
    by (apply Qmult_le_0_compat; lra).
  pose proof (mul_bound a (d * W - 100) (W + (1 # 4503599627370496) * W)
                (300 * (1 # 4503599627370496))) as M.
  destruct M as [M1 M2]; [lra|lra|lra|lra|].
  assert (E : P * W - 100 * X ==
              W * (P - a * d) + a * (d * W - 100) + 100 * (a - X)) by ring.
  rewrite E.
  assert (T : (W + (1 # 4503599627370496) * W) * (300 * (1 # 4503599627370496))
              == (300 * (1 # 4503599627370496)
                  + 300 * (1 # 4503599627370496) * (1 # 4503599627370496)) * W)
    by ring.
  rewrite T in M1, M2. split; lra.
Qed.

Lemma alg_clamp (W X P : Q) (n : Z) :
  0 < W -> 0 <= X -> X <= W ->
  - (512 * u52 * W) <= P * W - 100 * X -> P * W - 100 * X <= 512 * u52 * W ->
  (0 <= P -> (0 <= n)%Z /\ inject_Z n <= P /\ P < inject_Z n + 1) ->
  (P <= 0 -> (n <= 0)%Z /\ inject_Z n - 1 < P /\ P <= inject_Z n) ->
  (0 <= n <= 100)%Z /\
  - ((1 + 512 * u52) * W) <= inject_Z n * W - 100 * X /\
  inject_Z n * W - 100 * X <= 512 * u52 * W.
Proof.
  unfold u52. intros HW X1 X2 P1 P2 Tp Tn.
  assert (Pu : P <= 101).
  { destruct (Qlt_le_dec 101 P) as [G|G]; [exfalso|exact G].
    assert (0 <= W * (P - 101)) by (apply Qmult_le_0_compat; lra). lra. }
  assert (Pl : - (1 # 2) <= P).
  { destruct (Qlt_le_dec P (- (1 # 2))) as [G|G]; [exfalso|exact G].
    assert (0 <= W * (- (1 # 2) - P)) by (apply Qmult_le_0_compat; lra). lra. }
  destruct (Qlt_le_dec P 0) as [G|G].
  - destruct Tn as (N0 & N1 & N2); [lra|].
    assert (Hn : (-1 < n)%Z).
    { rewrite Zlt_Qlt. change (inject_Z (-1)) with (- 1). lra. }
    assert (En : n = 0%Z) by lia. subst n. change (inject_Z 0) with 0.
    split; [lia|].
    assert (0 <= W * (- P)) by (apply Qmult_le_0_compat; lra).
    split; lra.
  - destruct Tp as (N0 & N1 & N2); [exact G|].
    assert (Hn : (n < 102)%Z).
    { rewrite Zlt_Qlt. change (inject_Z 102) with 102. lra. }
    assert (Hn' : (n <= 100)%Z).
    { destruct (Z_le_gt_dec n 100) as [A|A]; [exact A|exfalso].
      assert (A' : (101 <= n)%Z) by lia. rewrite Zle_Qle in A'.
      change (inject_Z 101) with 101 in A'.
      (* P >= 101 contradicts P * W <= 100 * X + ... *)
      assert (0 <= W * (P - 101)) by (apply Qmult_le_0_compat; lra).
      assert (W * (P - 101) == P * W - 101 * W) by ring.
      lra. }
    split; [lia|].
    assert (0 <= W * (P - inject_Z n)) by (apply Qmult_le_0_compat; lra).
    assert (0 <= W * (inject_Z n + 1 - P)) by (apply Qmult_le_0_compat; lra).
    split; lra.
Qed.

Lemma alg_level (W i : Q) (k : Z) :
  0 < W -> (0 <= k <= 100)%Z ->
  - (5 * u52 * W) <= 100 * i - W -> 100 * i - W <= 5 * u52 * W ->
  0 <= inject_Z k * i /\ inject_Z k * i <= (3 # 2) * W /\
  - (5 * u52 * W) <= inject_Z k * i - inject_Z k * W / 100 /\
  inject_Z k * i - inject_Z k * W / 100 <= 5 * u52 * W.
Proof.
  unfold u52. intros HW Hk I1 I2.
  assert (K0 : 0 <= inject_Z k) by (apply inject_Z_nonneg; lia).
  assert (K1 : inject_Z k <= 100).
  { change 100 with (inject_Z 100). rewrite <- Zle_Qle. lia. }
  pose proof (mul_bound (inject_Z k - 50) (100 * i - W) 50
                (5 * (1 # 4503599627370496) * W)) as M.
  destruct M as [M1 M2]; [lra|lra|lra|lra|].
  assert (Q1 : 0 <= inject_Z k * (100 * i - W + 5 * (1 # 4503599627370496) * W))
    by (apply Qmult_le_0_compat; lra).
  assert (Q2 : 0 <= inject_Z k * (5 * (1 # 4503599627370496) * W - (100 * i - W)))
    by (apply Qmult_le_0_compat; lra).
  assert (Q3 : 0 <= (100 - inject_Z k) * W) by (apply Qmult_le_0_compat; lra).
  assert (Q4 : 0 <= inject_Z k * W) by (apply Qmult_le_0_compat; lra).
  assert (E : inject_Z k * W / 100 == (1 # 100) * (inject_Z k * W)) by (field).
  rewrite E. repeat split; lra.
Qed.

(** *** The mapping of a slider between bounds of ordinary size *)

Section Mapping.

Variables (lo hi : float) (L H : Q).
Hypothesis EL : float_Q lo = Some L.
Hypothesis EH : float_Q hi = Some H.
Hypothesis Wide : pow2 (-1000) <= H - L.
Hypothesis BL : Qabs L <= pow2 1000.
Hypothesis BH : Qabs H <= pow2 1000.

Lemma width_bounds : 0 < H - L /\ H - L <= 2 * pow2 1000 /\ H - L <= Qabs L + Qabs H.
Proof.
  pose proof (pow2_pos (-1000)). pose proof (Qle_Qabs H).
  pose proof (Qle_Qabs (- L)) as A. rewrite Qabs_opp in A.
  repeat split; lra.
Qed.

Lemma scale_facts :
  exists w d i,
    float_Q (fsub hi lo) = Some w /\
    float_Q (scale_of lo hi) = Some d /\
    float_Q (fquot (of_int 1) (scale_of lo hi)) = Some i /\
    0 < w /\ 0 < d /\ 0 < i /\
    - (300 * u52) <= d * (H - L) - 100 /\ d * (H - L) - 100 <= 300 * u52 /\
    - (5 * u52 * (H - L)) <= 100 * i - (H - L) /\
    100 * i - (H - L) <= 5 * u52 * (H - L).
Proof.
  destruct width_bounds as (W0 & W1 & _).
  set (W := H - L) in *.
  pose proof (pow2_pos 1000) as Pb. pose proof (pow2_pos (-1000)) as Ps.
  pose proof pow2_1000_inv as Inv. pose proof pow2_1000_ge as Bg.
  (* the width *)
  destruct (float_sub_near hi lo H L EH EL) as (w & Ew & Nw & _).
  { fold W. rewrite Qabs_pos by lra. rewrite pow2_1023. lra. }
  fold W in Nw.
  destruct (near_bound W w W Nw) as [w1 w2].
  { rewrite Qabs_pos; lra. }
  { rewrite pow2_m1022. lra. }
  assert (Hw : 0 < w) by (unfold u52 in *; lra).
  (* the scale *)
  destruct (float_of_int_small 100) as (q100 & E100 & V100); [lia|].
  change (inject_Z 100) with 100 in V100.
  assert (B1 : 0 <= pow2 1000 * (w - W + u52 * W))
    by (apply Qmult_le_0_compat; lra).
  assert (B2 : 0 <= pow2 1000 * (W - pow2 (-1000)))
    by (apply Qmult_le_0_compat; lra).
  assert (S1 : 0 <= pow2 (-1000) * (u52 * W - (w - W)))
    by (apply Qmult_le_0_compat; lra).
  assert (S2 : 0 <= pow2 (-1000) * (2 * pow2 1000 - W))
    by (apply Qmult_le_0_compat; lra).
  destruct (float_div_near _ _ q100 w E100 Ew)
    as (d & Ed & Nd).
  { lra. }
  { rewrite V100. rewrite Qabs_pos by (apply Qlt_le_weak, Qlt_shift_div_l; lra).
    apply Qlt_shift_div_r; [exact Hw|]. rewrite pow2_1023. unfold u52 in *. lra. }
  rewrite V100 in Nd.
  destruct (near_quotient 100 w d Nd Hw) as [d1 d2]; [lra| |].
  { rewrite pow2_m1022. unfold u52 in *. lra. }
  destruct (alg_scale W w d W0 w1 w2 d1 d2) as (_ & Hd & D1 & D2).
  (* its inverse *)
  destruct (float_of_int_small 1) as (q1 & E1 & V1); [lia|].
  change (inject_Z 1) with 1 in V1.
  assert (B3 : 0 <= d * (2 * pow2 1000 - W)) by (apply Qmult_le_0_compat; lra).
  assert (S3 : 0 <= d * (W - pow2 (-1000))) by (apply Qmult_le_0_compat; lra).
  destruct (float_div_near _ _ q1 d E1 Ed)
    as (i & Ei & Ni).
  { lra. }
  { rewrite V1. rewrite Qabs_pos by (apply Qlt_le_weak, Qlt_shift_div_l; lra).
    apply Qlt_shift_div_r; [exact Hd|]. rewrite pow2_1023. unfold u52 in *. lra. }
  rewrite V1 in Ni.
  destruct (near_quotient 1 d i Ni Hd) as [i1 i2]; [lra| |].
  { rewrite pow2_m1022. unfold u52 in *. lra. }
  destruct (alg_inverse W d i W0 Hd D1 D2 i1 i2) as (Hi & I1 & I2).
  exists w, d, i. repeat split; assumption.
Qed.

(** The value read off a position. *)
Lemma level_facts (k : Z) :
  (0 <= k <= 100)%Z ->
  exists r,
    float_Q (fadd (fmul (of_int k) (fquot (of_int 1) (scale_of lo hi))) lo) = Some r /\
    - (u52 * (9 * (H - L) + Qabs L)) <= r - (L + inject_Z k * (H - L) / 100) /\
    r - (L + inject_Z k * (H - L) / 100) <= u52 * (9 * (H - L) + Qabs L).
Proof.
  intros Hk.
  destruct width_bounds as (W0 & W1 & _).
  destruct scale_facts as (w & d & i & _ & _ & Ei & _ & _ & Hi & _ & _ & I1 & I2).
  set (W := H - L) in *.
  pose proof (pow2_pos 1000) as Pb. pose proof (pow2_pos (-1000)) as Ps.
  pose proof pow2_m1000_le as Sm. pose proof pow2_1000_ge as Bg.
  pose proof (Qabs_nonneg L) as A0. pose proof (Qle_Qabs L) as A1.
  pose proof (Qle_Qabs (- L)) as A2. rewrite Qabs_opp in A2.
  destruct (alg_level W i k W0 Hk I1 I2) as (T0 & T1 & T2 & T3).
  destruct (float_of_int_small k Hk) as (qk & Ek & Vk).
  destruct (float_mul_near _ _ qk i Ek Ei) as (t & Et & Nt & _).
  { rewrite Vk, Qabs_pos by exact T0. rewrite pow2_1023. lra. }
  rewrite Vk in Nt.
  destruct (near_bound _ t ((3 # 2) * W) Nt) as [t1 t2].
  { rewrite Qabs_pos by exact T0. exact T1. }
  { rewrite pow2_m1022. lra. }
  assert (Tb : - ((3 # 2) * W) <= t /\ t <= (3 # 2) * W + u52 * ((3 # 2) * W))
    by (unfold u52 in *; split; lra).
  destruct (float_add_near _ lo t L Et EL) as (r & Er & Nr).
  { apply Qle_lt_trans with (2 * W + Qabs L).
    - apply Qabs_Qle_condition. unfold u52 in *. split; lra.
    - rewrite pow2_1023. lra. }
  destruct (near_bound _ r (2 * W + Qabs L) Nr) as [r1 r2].
  { apply Qabs_Qle_condition. unfold u52 in *. split; lra. }
  { rewrite pow2_m1022. lra. }
  exists r. split; [exact Er|]. unfold u52 in *. split; lra.
Qed.

(** The step of a value between the bounds: the difference and the product
    are rounded, and the product is cut to an integer. *)
Lemma step_facts (v : float) (V : Q) :
  float_Q v = Some V -> L <= V -> V <= H ->
  exists d a P n,
    float_Q (scale_of lo hi) = Some d /\ 0 < d /\
    rounded (V - L) a /\ rounded (a * d) P /\
    fint (fmul (fsub v lo) (scale_of lo hi)) = inr n /\
    (0 <= n <= 100)%Z /\ inject_Z n <= P /\ P < inject_Z n + 1 /\
    - ((1 + 512 * u52) * (H - L)) <= inject_Z n * (H - L) - 100 * (V - L) /\
    inject_Z n * (H - L) - 100 * (V - L) <= 512 * u52 * (H - L).
Proof.
  intros EV V1 V2.
  destruct width_bounds as (W0 & W1 & _).
  destruct scale_facts as (w & d & i & _ & Ed & _ & _ & Hd & _ & D1 & D2 & _ & _).
  set (W := H - L) in *.
  pose proof (pow2_pos 1000) as Pb. pose proof (pow2_pos (-1000)) as Ps.
  pose proof pow2_m1000_le as Sm. pose proof pow2_1000_ge as Bg.
  assert (X1 : 0 <= V - L) by lra.
  assert (X2 : V - L <= W) by (unfold W; lra).
  destruct (float_sub_near v lo V L EV EL) as (a & Ea & Na & Ra).
  { rewrite Qabs_pos by lra. rewrite pow2_1023. unfold W in *. lra. }
  specialize (Ra X1).
  pose proof (rounded_nonneg _ _ X1 Ra) as A0.
  destruct (near_bound _ a W Na) as [a1 a2].
  { rewrite Qabs_pos by lra. unfold W. lra. }
  { rewrite pow2_m1022. lra. }
  destruct (alg_product W (V - L) a d W0 X1 X2 a1 a2 Hd D1 D2) as [p1 p2].
  assert (AD : 0 <= a * d) by (apply Qmult_le_0_compat; lra).
  destruct (float_mul_near _ _ a d Ea Ed) as (P & EP & NP & RP).
  { apply Qle_lt_trans with 102; [apply Qabs_Qle_condition; split; lra|].
    rewrite pow2_1023. lra. }
  specialize (RP AD).
  pose proof (rounded_nonneg _ _ AD RP) as P0.
  destruct (near_bound _ P 102 NP) as [P1 P2].
  { apply Qabs_Qle_condition; split; lra. }
  { rewrite pow2_m1022. lra. }
  destruct (alg_position W (V - L) a d P W0 X1 X2 a1 a2 Hd D1 D2 P1 P2) as [Q1 Q2].
  destruct (float_int_trunc _ P EP) as (n & En & Tp & Tn).
  destruct (alg_clamp W (V - L) P n W0 X1 X2 Q1 Q2 Tp Tn) as (Hn & K1 & K2).
  destruct (Tp P0) as (_ & T1 & T2).
  exists d, a, P, n.
  split; [exact Ed|]. split; [exact Hd|]. split; [exact Ra|]. split; [exact RP|].
  split; [exact En|]. split; [exact Hn|]. split; [exact T1|]. split; [exact T2|].
  split; assumption.
Qed.

(** The position of a value between the bounds. *)
Lemma position_facts (v : float) (V : Q) :
  float_Q v = Some V -> L <= V -> V <= H ->
  exists n,
    fint (fmul (fsub v lo) (scale_of lo hi)) = inr n /\
    (0 <= n <= 100)%Z /\
    - ((1 + 512 * u52) * (H - L)) <= inject_Z n * (H - L) - 100 * (V - L) /\
    inject_Z n * (H - L) - 100 * (V - L) <= 512 * u52 * (H - L).
Proof.
  intros EV V1 V2.
  destruct (step_facts v V EV V1 V2)
    as (d & a & P & n & _ & _ & _ & _ & En & Hn & _ & _ & K1 & K2).
  exists n. split; [exact En|]. split; [exact Hn|]. split; assumption.
Qed.

(** Of two values between the bounds, the larger does not get the smaller
    step. *)
Lemma step_order (v1 v2 : float) (V1 V2 : Q) :
  float_Q v1 = Some V1 -> float_Q v2 = Some V2 ->
  L <= V1 -> V1 <= V2 -> V2 <= H ->
  exists n1 n2,
    fint (fmul (fsub v1 lo) (scale_of lo hi)) = inr n1 /\
    fint (fmul (fsub v2 lo) (scale_of lo hi)) = inr n2 /\
    (0 <= n1)%Z /\ (n1 <= n2)%Z /\ (n2 <= 100)%Z.
Proof.
  intros E1 E2 B1 B12 B2.
  destruct (step_facts v1 V1 E1) as (d & a1 & P1 & n1 & Ed & Hd & Ra1 & RP1 & En1 & Hn1 & T1 & _);
    [lra|lra|].
  destruct (step_facts v2 V2 E2) as (d' & a2 & P2 & n2 & Ed' & _ & Ra2 & RP2 & En2 & Hn2 & _ & T2 & _);
    [lra|lra|].
  rewrite Ed in Ed'. injection Ed' as <-.
  assert (A0 : 0 <= a1) by (apply (rounded_nonneg (V1 - L)); [lra|exact Ra1]).
  assert (A12 : a1 <= a2).
  { apply (rounded_mono (V1 - L) (V2 - L)); trivial; lra. }
  assert (P12 : P1 <= P2).
  { apply (rounded_mono (a1 * d) (a2 * d)); trivial.
    - apply Qmult_le_0_compat; lra.
    - apply Qmult_le_compat_r; lra. }
  exists n1, n2. split; [exact En1|]. split; [exact En2|].
  assert (N : (n1 < n2 + 1)%Z).
  { rewrite Zlt_Qlt, inject_Z_plus. change (inject_Z 1) with 1. lra. }
  lia.
Qed.

End Mapping.

Lemma pow2_m48 : pow2 (-48) == 16 * u52.
Proof. reflexivity. Qed.

Lemma pow2_m43 : pow2 (-43) == 512 * u52.
Proof. reflexivity. Qed.

(** The slider of a parameter between bounds of ordinary size. *)
Lemma new_PanelSlider_binary64 (p : Par float) (L H V : Q) :
  float_Q (min p) = Some L -> float_Q (max p) = Some H ->
  float_Q (val p) = Some V -> L <= V -> V <= H ->
  pow2 (-1000) <= H - L -> Qabs L <= pow2 1000 -> Qabs H <= pow2 1000 ->
  exists n,
    new_PanelSlider p =
      inr (mkSlider (min p) (max p) (val p)
             (Some (scale_of (min p) (max p)))
             (Some (fquot (of_int 1) (scale_of (min p) (max p))))
             0 100 n true) /\
    (0 <= n <= 100)%Z /\
    - ((1 + 512 * u52) * (H - L)) <= inject_Z n * (H - L) - 100 * (V - L) /\
    inject_Z n * (H - L) - 100 * (V - L) <= 512 * u52 * (H - L).
Proof.
  intros EL EH EV V1 V2 Wide BL BH.
  destruct (position_facts (min p) (max p) L H EL EH Wide BL BH (val p) V EV V1 V2)
    as (n & En & Hn & K1 & K2).
  destruct (scale_facts (min p) (max p) L H EL EH Wide BL BH)
    as (w & d & i & Ew & Ed & _ & Hw & Hd & _).
  assert (Z1 : fzero (fsub (max p) (min p)) = false).
  { apply (float_eqb_zero _ w Ew). lra. }
  assert (Z2 : fzero (scale_of (min p) (max p)) = false).
  { apply (float_eqb_zero _ d Ed). lra. }
  assert (R : (- 2 ^ 31 <= n < 2 ^ 31)%Z) by lia.
  exists n. rewrite (new_PanelSlider_ok p n Z1 Z2 En R).
  replace (Z.max 0 (Z.min 100 n)) with n by lia.
  split; [reflexivity|]. split; [exact Hn|]. split; assumption.
Qed.

(** C7 (amended): for a parameter whose bounds are binary64 numbers of
    ordinary size (at most [2^1000] in magnitude and at least [2^-1000]
    apart) and a value between them, the round trip returns, and what it
    returns differs from the value by at most [(max - min) / 100] and a
    rounding error of at most [2^-48 * (|min| + |max|)]. *)
Theorem round_trip_error_rounded (p : Par float) (v : float) (L H V : Q) :
  float_Q (min p) = Some L -> float_Q (max p) = Some H -> float_Q v = Some V ->
  L <= V -> V <= H ->
  pow2 (-1000) <= H - L -> Qabs L <= pow2 1000 -> Qabs H <= pow2 1000 ->
  exists r R, round_trip p v = inr r /\ float_Q r = Some R /\
    Qabs (R - V) <= (H - L) / 100 + pow2 (-48) * (Qabs L + Qabs H).
Proof.
  intros EL EH EV V1 V2 Wide BL BH.
  destruct (new_PanelSlider_binary64 (set_val v p) L H V EL EH EV V1 V2 Wide BL BH)
    as (n & NS & Hn & K1 & K2).
  destruct (level_facts (min p) (max p) L H EL EH Wide BL BH n Hn) as (R & ER & R1 & R2).
  destruct (width_bounds L H Wide BL BH) as (W0 & _ & W2).
  cbn [set_val min max val] in NS.
  unfold round_trip. rewrite NS.
  erewrite get_value_from_step_ok; [|reflexivity].
  cbn [outcome snd value parmin].
  eexists. exists R. split; [reflexivity|]. split; [exact ER|].
  pose proof (Qabs_nonneg L) as A0. pose proof (Qabs_nonneg H) as A1.
  assert (E1 : inject_Z n * (H - L) / 100 == (1 # 100) * (inject_Z n * (H - L)))
    by field.
  assert (E2 : (H - L) / 100 == (1 # 100) * (H - L)) by field.
  rewrite E1 in R1, R2. rewrite E2, pow2_m48.
  apply Qabs_Qle_condition. unfold u52 in *. split; lra.
Qed.

(** Between the bounds 1 and 4 the number nearest 1.18 comes back within
    3/100 and the rounding error. *)
Lemma round_trip_error_rounded_witness :
  exists L H V,
    float_Q 1%float = Some L /\ float_Q 4%float = Some H /\
    float_Q near_1_18 = Some V /\
    exists r R, round_trip par_1_4 near_1_18 = inr r /\ float_Q r = Some R /\
      Qabs (R - V) <= (H - L) / 100 + pow2 (-48) * (Qabs L + Qabs H).
Proof.
  eexists. eexists. eexists.
  split; [vm_compute; reflexivity|].
  split; [vm_compute; reflexivity|].
  split; [vm_compute; reflexivity|].
  apply (round_trip_error_rounded par_1_4 near_1_18);
    try (vm_compute; reflexivity); vm_compute; congruence.
Defined.

Close Scope Q_scope.

(** C7 as stated fails in binary64: between the bounds 1 and 4 the number
    nearest 1.18 has position 5, since [(v - 1.0) * dx] rounds to just below
    6, and comes back as 1.15; the difference exceeds 3/100, whether the
    difference and the bound are computed in binary64 or exactly. *)
Lemma round_trip_error_binary64 :
  PrimFloat.leb 1 near_1_18 = true /\ PrimFloat.leb near_1_18 4 = true /\
  exists r, round_trip par_1_4 near_1_18 = inr r /\
    PrimFloat.leb (abs (r - near_1_18)) ((4 - 1) / 100) = false /\
    exists qr qv, float_Q r = Some qr /\ float_Q near_1_18 = Some qv /\
      ~ (Qabs (qr - qv) <= (4 - 1) / 100)%Q.
Proof.
  split; [reflexivity|]. split; [reflexivity|].
  eexists. split; [vm_compute; reflexivity|].
  split; [vm_compute; reflexivity|].
  eexists. eexists. split; [vm_compute; reflexivity|].
  split; [vm_compute; reflexivity|].
  vm_compute. intros E. apply E. reflexivity.
Qed.

(** ** The fit monitor *)

Section Monitor.

Context {F : Type} `{PyFloat F}.

Lemma recv_loop_no_status (m : Msg F) (q : list (Msg F)) (last : option (Msg F))
  (w : MainWindow F) :
  status m = None ->
  recv_loop (m :: q) last w = (with_parent_pipe q w, inl (KeyError "status")).
Proof.
  intros E. cbn [recv_loop]. unfold bind, modify, getitem, raise.
  rewrite E. reflexivity.
Qed.

Lemma recv_loop_terminal (m : Msg F) (q : list (Msg F)) (last : option (Msg F))
  (w : MainWindow F) (st : string) :
  status m = Some st -> terminal st = true ->
  recv_loop (m :: q) last w =
    (stopped st (with_parent_pipe q w), inr (Some m, true)).
Proof.
  intros E T. cbn [recv_loop]. unfold bind, modify, getitem, ret. rewrite E, T.
  unfold say, modify, stopped, with_printed, with_joins.
  cbn -[newline stars upper String.append].
  rewrite <- !app_assoc. reflexivity.
Qed.

Lemma recv_loop_running (m : Msg F) (q : list (Msg F)) (last : option (Msg F))
  (w : MainWindow F) (st : string) :
  status m = Some st -> terminal st = false ->
  recv_loop (m :: q) last w = recv_loop q (Some m) (with_parent_pipe q w).
Proof.
  intros E T. cbn [recv_loop]. unfold bind, modify, getitem, ret.
  rewrite E, T. reflexivity.
Qed.

(** The loop reads past a run of running messages and keeps the last. *)
Lemma recv_loop_past (pre : list (Msg F)) :
  forall (q : list (Msg F)) (last : option (Msg F)) (w : MainWindow F),
  Forall running pre -> pre <> [] ->
  recv_loop (pre ++ q) last w =
  recv_loop q (Some (List.last pre (mkMsg None None))) (with_parent_pipe q w).
Proof.
  induction pre as [|m pre IH]; intros q last w Hr Hne; [congruence|].
  inversion Hr as [|? ? [st [E T]] Hr']; subst.
  rewrite <- app_comm_cons, (recv_loop_running m (pre ++ q) last w st E T).
  destruct pre as [|m' pre].
  - reflexivity.
  - rewrite IH by (trivial; discriminate). reflexivity.
Qed.

(** A run of running messages closed by a terminal one: the loop stops
    there, after the join, and leaves the messages behind it waiting. *)
Lemma recv_loop_stops (pre : list (Msg F)) (m : Msg F) (rest : list (Msg F))
  (w : MainWindow F) (st : string) :
  Forall running pre -> status m = Some st -> terminal st = true ->
  recv_loop (pre ++ m :: rest) None w =
    (stopped st (with_parent_pipe rest w), inr (Some m, true)).
Proof.
  intros Hr E T. destruct pre as [|m0 pre].
  - apply (recv_loop_terminal m rest None w st E T).
  - rewrite recv_loop_past by (trivial; discriminate).
    rewrite (recv_loop_terminal m rest _ _ st E T). reflexivity.
Qed.

(** A run of running messages, the last of them [m]: the loop empties the
    pipe and returns [m] with [fit_stopped] false. *)
Lemma recv_loop_drains (pre : list (Msg F)) (m : Msg F) (w : MainWindow F)
  (st : string) :
  Forall running pre -> status m = Some st -> terminal st = false ->
  recv_loop (pre ++ [m]) None w = (with_parent_pipe [] w, inr (Some m, false)).
Proof.
  intros Hr E T. destruct pre as [|m0 pre].
  - cbn [app]. rewrite (recv_loop_running m [] None w st E T). reflexivity.
  - rewrite recv_loop_past by (trivial; discriminate).
    rewrite (recv_loop_running m [] _ _ st E T). reflexivity.
Qed.

(** A run of running messages and then one without a status. *)
Lemma recv_loop_key_error (pre : list (Msg F)) (m : Msg F) (w : MainWindow F) :
  Forall running pre -> status m = None ->
  recv_loop (pre ++ [m]) None w =
    (with_parent_pipe [] w, inl (KeyError "status")).
Proof.
  intros Hr E. destruct pre as [|m0 pre].
  - apply (recv_loop_no_status m [] None w E).
  - rewrite recv_loop_past by (trivial; discriminate).
    rewrite (recv_loop_no_status m [] _ _ E). reflexivity.
Qed.

Lemma update_row_par (r : Row F) : par (fst (update_row r)) = par r.
Proof.
  unfold update_row, bind, get, modify, zoom, ret. simpl.
  destruct (negb _); simpl; trivial.
  destruct (set_step_from_value _ _) as [s' [e|[]]]; simpl; trivial.
Qed.

Lemma for_each_update_par (rs : list (Row F)) :
  map par (fst (for_each update_row rs)) = map par rs.
Proof.
  induction rs as [|r rs IH]; simpl; trivial.
  pose proof (update_row_par r) as E.
  destruct (update_row r) as [r' [e|[]]]; simpl in *.
  - now rewrite E.
  - destruct (for_each update_row rs) as [rs' o]; simpl in *. now rewrite E, IH.
Qed.

(** [ParamsPanel.update] redraws: it changes no parameter. *)
Lemma update_frame (w : MainWindow F) :
  get_parvals (state_of (update w)) = get_parvals w /\
  assigned (state_of (update w)) = assigned w /\
  timers (state_of (update w)) = timers w /\
  joins (state_of (update w)) = joins w /\
  parent_pipe (state_of (update w)) = parent_pipe w /\
  printed (state_of (update w)) = printed w.
Proof.
  unfold update, state_of, get_parvals.
  pose proof (for_each_update_par (table w)) as E.
  destruct (for_each update_row (table w)) as [rs o]. cbn in *.
  rewrite <- !map_map with (f := par) (g := val), E. auto 10.
Qed.

Lemma set_parvals_ok (vals : list F) (w : MainWindow F) :
  length vals = length (table w) ->
  set_parvals vals w =
    (with_assigned (assigned w ++ [vals])
       (with_table (map (fun rv => with_par_of (set_val (snd rv)) (fst rv))
                        (combine (table w) vals)) w), inr tt).
Proof.
  intros E. unfold set_parvals, bind, get, modify.
  rewrite E, Nat.eqb_refl. reflexivity.
Qed.

Lemma set_parvals_mismatch (vals : list F) (w : MainWindow F) :
  length vals <> length (table w) ->
  set_parvals vals w = (w, inl ShapeMismatch).
Proof.
  intros E. unfold set_parvals, bind, get, raise.
  apply Nat.eqb_neq in E. rewrite E. reflexivity.
Qed.

Lemma combine_vals (rs : list (Row F)) :
  forall vals : list F,
  length vals = length rs ->
  map (fun r => val (par r))
      (map (fun rv => with_par_of (set_val (snd rv)) (fst rv)) (combine rs vals))
  = vals.
Proof.
  induction rs as [|r rs IH]; intros [|v vals] E; simpl in *;
    try discriminate; trivial.
  f_equal. apply IH. lia.
Qed.

(** An exception of the loop leaves [fit_monitor] at once. *)
Lemma fit_monitor_raised (w w1 : MainWindow F) (e : exn) :
  recv_loop (parent_pipe w) None w = (w1, inl e) ->
  fit_monitor w = (w1, inl e).
Proof.
  intros L. unfold fit_monitor. rewrite bind_state. unfold get at 1.
  rewrite bind_state, L. reflexivity.
Qed.

Lemma fit_monitor_no_parvals (w w1 : MainWindow F) (m : Msg F) (stop : bool) :
  recv_loop (parent_pipe w) None w = (w1, inr (Some m, stop)) ->
  status m <> None -> parvals m = None ->
  fit_monitor w = (w1, inl (KeyError "parvals")).
Proof.
  intros L Hs Hp. unfold fit_monitor. rewrite bind_state. unfold get at 1.
  rewrite bind_state, L. rewrite bind_state.
  unfold nonempty. destruct (status m); [|congruence]. rewrite Hp.
  unfold when, getitem. rewrite bind_state. reflexivity.
Qed.

Lemma fit_monitor_mismatch (w w1 : MainWindow F) (m : Msg F) (stop : bool)
  (vals : list F) :
  recv_loop (parent_pipe w) None w = (w1, inr (Some m, stop)) ->
  parvals m = Some vals -> length vals <> length (table w1) ->
  fit_monitor w = (w1, inl ShapeMismatch).
Proof.
  intros L Hp Hl. unfold fit_monitor. rewrite bind_state. unfold get at 1.
  rewrite bind_state, L. rewrite bind_state.
  unfold nonempty. rewrite Hp.
  assert (N : match status m with Some _ | _ => true end = true)
    by (destruct (status m); trivial).
  rewrite N. unfold when, getitem. rewrite !bind_state. unfold ret at 1.
  rewrite bind_state.
  rewrite (set_parvals_mismatch vals w1 Hl). reflexivity.
Qed.

(** A tick whose loop stopped on [m]: the vector of [m] is the one vector
    assigned, and no timer is armed, whether the redraw raises or not. *)
Lemma fit_monitor_stopped (w w1 : MainWindow F) (m : Msg F) (vals : list F) :
  recv_loop (parent_pipe w) None w = (w1, inr (Some m, true)) ->
  parvals m = Some vals -> length vals = length (table w1) ->
  get_parvals (state_of (fit_monitor w)) = vals /\
  assigned (state_of (fit_monitor w)) = assigned w1 ++ [vals] /\
  timers (state_of (fit_monitor w)) = timers w1 /\
  joins (state_of (fit_monitor w)) = joins w1 /\
  parent_pipe (state_of (fit_monitor w)) = parent_pipe w1.
Proof.
  intros L Hp Hl.
  set (w2 := with_assigned (assigned w1 ++ [vals])
       (with_table (map (fun rv => with_par_of (set_val (snd rv)) (fst rv))
                        (combine (table w1) vals)) w1)).
  assert (E2 : get_parvals w2 = vals /\ assigned w2 = assigned w1 ++ [vals] /\
    timers w2 = timers w1 /\ joins w2 = joins w1 /\
    parent_pipe w2 = parent_pipe w1).
  { unfold w2, get_parvals. cbn. rewrite combine_vals by exact Hl. auto. }
  destruct (update_frame w2) as (A' & B' & C' & D' & E' & _).
  assert (Efm : exists w3, state_of (fit_monitor w) = w3 /\
            get_parvals w3 = get_parvals (state_of (update w2)) /\
            assigned w3 = assigned (state_of (update w2)) /\
            timers w3 = timers (state_of (update w2)) /\
            joins w3 = joins (state_of (update w2)) /\
            parent_pipe w3 = parent_pipe (state_of (update w2))).
  { unfold fit_monitor, state_of. rewrite bind_state. unfold get at 1.
    rewrite bind_state, L. rewrite bind_state.
    unfold nonempty. rewrite Hp.
    assert (N : match status m with Some _ | _ => true end = true)
      by (destruct (status m); trivial).
    rewrite N. unfold when, getitem. rewrite !bind_state. unfold ret at 1.
    rewrite bind_state.
    rewrite (set_parvals_ok vals w1 Hl). fold w2.
    rewrite bind_state.
    destruct (update w2) as [w3 [e|[]]]; cbn [fst].
    - eexists. split; [reflexivity|]. auto.
    - rewrite bind_state. unfold update_plots_box, modify at 1.
      rewrite bind_state. unfold get at 1.
      destruct (show_line _); eexists; (split; [reflexivity|]); cbn; auto. }
  destruct Efm as (w3 & -> & A3 & B3 & C3 & D3 & E3).
  destruct E2 as (A & B & C & D & E).
  rewrite A3, B3, C3, D3, E3, A', B', C', D', E'. auto.
Qed.

(** A batch of running messages closed by a terminal one, whatever waits
    behind it: one vector is assigned, the terminal message's. *)
Lemma fit_monitor_terminal_batch (w : MainWindow F) (pre : list (Msg F))
  (m : Msg F) (rest : list (Msg F)) (st : string) (vals : list F) :
  parent_pipe w = pre ++ m :: rest ->
  Forall running pre ->
  status m = Some st -> terminal st = true ->
  parvals m = Some vals -> length vals = length (table w) ->
  get_parvals (state_of (fit_monitor w)) = vals /\
  assigned (state_of (fit_monitor w)) = assigned w ++ [vals] /\
  timers (state_of (fit_monitor w)) = timers w /\
  joins (state_of (fit_monitor w)) = S (joins w) /\
  parent_pipe (state_of (fit_monitor w)) = rest.
Proof.
  intros Hq Hr E T Hp Hl.
  apply (fit_monitor_stopped w (stopped st (with_parent_pipe rest w)) m vals).
  - rewrite Hq. apply recv_loop_stops; assumption.
  - exact Hp.
  - exact Hl.
Qed.

(** C9 (amended): a tick that ends on a malformed message (no status, no
    parvals, or parvals of the wrong length) raises: KeyError for a missing
    key, the setter's error for a wrong length.  The messages are consumed,
    the table and so every parameter value is unchanged, no timer is armed
    again, and nothing is printed unless the message is a terminal one. *)
Theorem fit_monitor_malformed_raises (w : MainWindow F) (pre : list (Msg F))
  (m : Msg F) :
  parent_pipe w = pre ++ [m] ->
  Forall running pre ->
  malformed (length (table w)) m ->
  (exists e, outcome (fit_monitor w) = inl e) /\
  table (state_of (fit_monitor w)) = table w /\
  timers (state_of (fit_monitor w)) = timers w /\
  parent_pipe (state_of (fit_monitor w)) = [] /\
  ((forall st, status m = Some st -> terminal st = false) ->
   printed (state_of (fit_monitor w)) = printed w).
Proof.
  intros Hq Hr Hm.
  destruct (status m) as [st|] eqn:E.
  - assert (L : exists w1 stop,
        recv_loop (parent_pipe w) None w = (w1, inr (Some m, stop)) /\
        table w1 = table w /\ timers w1 = timers w /\ parent_pipe w1 = [] /\
        (terminal st = false -> printed w1 = printed w)).
    { rewrite Hq. destruct (terminal st) eqn:T.
      - rewrite (recv_loop_stops pre m [] w st Hr E T).
        eexists. eexists. split; [reflexivity|]. cbn. repeat split; discriminate.
      - rewrite (recv_loop_drains pre m w st Hr E T).
        eexists. eexists. split; [reflexivity|]. cbn. auto. }
    destruct L as (w1 & stop & L & Ht & Hti & Hpp & Hpr).
    assert (R : exists e, fit_monitor w = (w1, inl e)).
    { destruct Hm as [Hm | [Hm | (vals & Hp & Hl)]].
      - congruence.
      - eexists. apply (fit_monitor_no_parvals w w1 m stop L); congruence.
      - eexists. apply (fit_monitor_mismatch w w1 m stop vals L Hp). congruence. }
    destruct R as (e & ->). cbn. repeat split; eauto.
  - rewrite (fit_monitor_raised w _ _
               (eq_trans (f_equal (fun q => recv_loop q None w) Hq)
                         (recv_loop_key_error pre m w Hr E))).
    cbn. repeat split; eauto.
Qed.

End Monitor.

Lemma running_is_running (vals : option (list float)) :
  running (mkMsg (Some "running") vals).
Proof. exists "running". split; reflexivity. Qed.

(** C2: with the three messages waiting and a model of two parameters, one
    tick reads all three in order and leaves the pipe empty, assigns one
    vector, [1, 4], so that neither [1, 2] nor [1, 3] is ever assigned,
    joins the worker once and arms no timer. *)
Theorem fit_monitor_batch_applies_last (w : MainWindow float) :
  parent_pipe w = batch ->
  length (table w) = 2%nat ->
  parent_pipe (state_of (fit_monitor w)) = [] /\
  assigned (state_of (fit_monitor w)) = assigned w ++ [[1; 4]%float] /\
  get_parvals (state_of (fit_monitor w)) = [1; 4]%float /\
  joins (state_of (fit_monitor w)) = S (joins w) /\
  timers (state_of (fit_monitor w)) = timers w.
Proof.
  intros Hq Hn.
  destruct (fit_monitor_terminal_batch w
              [mkMsg (Some "running") (Some [1; 2]%float);
               mkMsg (Some "running") (Some [1; 3]%float)]
              (mkMsg (Some "finished") (Some [1; 4]%float)) []
              "finished" [1; 4]%float) as (A & B & C & D & E).
  - exact Hq.
  - repeat constructor; apply running_is_running.
  - reflexivity.
  - reflexivity.
  - reflexivity.
  - symmetry. exact Hn.
  - auto.
Qed.

(** The tick on a window of two parameters, nothing assigned or armed
    before. *)
Lemma fit_monitor_batch_applies_last_witness :
  parent_pipe (tick batch) = [] /\
  assigned (tick batch) = [[1; 4]%float] /\
  get_parvals (tick batch) = [1; 4]%float /\
  joins (tick batch) = 1%nat /\
  timers (tick batch) = [].
Proof.
  exact (fit_monitor_batch_applies_last (foo_qux batch)
           eq_refl eq_refl).
Defined.

(** The same tick returns normally, with the banner printed and the plots
    redrawn. *)
Lemma fit_monitor_batch_outcome :
  outcome (fit_monitor (foo_qux batch)) = inr tt /\
  plot_calls (tick batch) = [true] /\
  length (printed (tick batch)) = 3%nat.
Proof. vm_compute. auto. Qed.

(** A message without a status, alone in the pipe. *)
Lemma fit_monitor_malformed_raises_witness :
  (exists e, outcome (fit_monitor (foo_qux [no_status])) = inl e) /\
  table (tick [no_status]) =
    table (foo_qux [no_status]) /\
  timers (tick [no_status]) = [] /\
  parent_pipe (tick [no_status]) = [].
Proof.
  destruct (fit_monitor_malformed_raises
              (foo_qux [no_status]) [] no_status eq_refl
              (Forall_nil _) (or_introl eq_refl)) as (A & B & C & D & _).
  auto.
Defined.

(** C9 as stated fails: on a message without a status the tick raises
    KeyError; nothing is printed and no timer is armed. *)
Lemma fit_monitor_malformed_not_skipped :
  outcome (fit_monitor (foo_qux [no_status])) =
    inl (KeyError "status") /\
  ~ skipped_tick (foo_qux [no_status])
      (tick [no_status]).
Proof.
  split; [vm_compute; reflexivity|].
  intros (A & _ & _ & D). vm_compute in D. discriminate D.
Qed.

(** ** freeze and thaw *)

Section Freeze.

Context {F : Type} `{PyFloat F}.

Lemma freeze_step_name (thaw : bool) (r : Row F) (pat : string) :
  full_name (par (freeze_step thaw r pat)) = full_name (par r).
Proof.
  unfold freeze_step, setChecked, frozen_toggled.
  destruct (fnmatch_translate_match _ _); trivial.
  destruct (Bool.eqb _ _); reflexivity.
Qed.

Lemma freeze_step_set (thaw : bool) (r : Row F) (pat : string) :
  fnmatch_translate_match pat (full_name (par r)) = true ->
  frozen (par (freeze_step thaw r pat)) = negb thaw /\
  checkbox (freeze_step thaw r pat) = thaw.
Proof.
  intros E. unfold freeze_step. rewrite E. unfold setChecked, frozen_toggled.
  destruct (Bool.eqb (checkbox r) thaw) eqn:B; cbn; auto.
  apply Bool.eqb_prop in B. auto.
Qed.

(** A row already set is left as it is by every further pattern. *)
Lemma freeze_step_keeps (thaw : bool) (r : Row F) (pat : string) :
  frozen (par r) = negb thaw -> checkbox r = thaw ->
  freeze_step thaw r pat = r.
Proof.
  intros Hf Hc. unfold freeze_step.
  destruct (fnmatch_translate_match _ _); trivial.
  unfold setChecked. rewrite Hc, Bool.eqb_reflx.
  destruct r as [[n v lo hi fz fm] c tv tm s tx]; cbn in *. subst. reflexivity.
Qed.

Lemma freeze_row_keeps (thaw : bool) (pats : list string) :
  forall r : Row F,
  frozen (par r) = negb thaw -> checkbox r = thaw ->
  freeze_row thaw pats r = r.
Proof.
  induction pats as [|pat pats IH]; intros r Hf Hc; trivial.
  unfold freeze_row. cbn [fold_left].
  rewrite (freeze_step_keeps thaw r pat Hf Hc). apply IH; trivial.
Qed.

Lemma freeze_row_spec (thaw : bool) (pats : list string) :
  forall r : Row F,
  full_name (par (freeze_row thaw pats r)) = full_name (par r) /\
  (matches_any pats (full_name (par r)) = true ->
     frozen (par (freeze_row thaw pats r)) = negb thaw /\
     checkbox (freeze_row thaw pats r) = thaw) /\
  (matches_any pats (full_name (par r)) = false -> freeze_row thaw pats r = r).
Proof.
  induction pats as [|pat pats IH]; intros r.
  - cbn. repeat split; trivial; discriminate.
  - unfold freeze_row. cbn [fold_left matches_any existsb].
    fold (freeze_row thaw pats (freeze_step thaw r pat)).
    destruct (IH (freeze_step thaw r pat)) as (N & Y & No).
    rewrite freeze_step_name in N, Y, No.
    fold (matches_any pats (full_name (par r))).
    split; [exact N|].
    destruct (fnmatch_translate_match pat (full_name (par r))) eqn:E; cbn [orb].
    + destruct (freeze_step_set thaw r pat E) as [Hf Hc].
      split; [|discriminate]. intros _.
      rewrite (freeze_row_keeps thaw pats _ Hf Hc). auto.
    + split.
      * exact Y.
      * intros E'. rewrite (No E'). unfold freeze_step. rewrite E. reflexivity.
Qed.

(** C8: for the command [freeze pat ...] (and [thaw pat ...]) the table
    keeps its rows and their names; a parameter whose full name matches one
    of the patterns, as a whole, ends frozen (thawed for [thaw]), its
    checkbox unchecked (checked), and a parameter that matches none is left
    exactly as it was. *)
Theorem freeze_thaw_matching
  (DateTime_date : list string -> option (list string))
  (thaw : bool) (command : string) (pats : list string) (w : MainWindow F) :
  split command = keyword thaw :: pats ->
  length (table (state_of (parse_command DateTime_date command w))) =
    length (table w) /\
  forall i r, nth_error (table w) i = Some r ->
    exists r',
      nth_error (table (state_of (parse_command DateTime_date command w))) i
        = Some r' /\
      full_name (par r') = full_name (par r) /\
      (matches_any pats (full_name (par r)) = true ->
         frozen (par r') = negb thaw /\ checkbox r' = thaw) /\
      (matches_any pats (full_name (par r)) = false -> r' = r).
Proof.
  intros Hs. unfold parse_command. rewrite Hs.
  destruct pats as [|pat pats].
  - destruct thaw; cbn; split; trivial; intros i r Hr; exists r;
      repeat split; trivial; discriminate.
  - destruct thaw; cbn -[freeze_row matches_any];
      (split; [apply length_map|]);
      intros i r Hr; rewrite nth_error_map, Hr; cbn [option_map];
      eexists; (split; [reflexivity|]);
      match goal with
      | |- context [freeze_row ?t ?p r] =>
          destruct (freeze_row_spec t p r) as (N & Y & No)
      end;
      (split; [exact N|]); (split; [exact Y | exact No]).
Qed.

End Freeze.

(** [freeze foo*] on the parameters foo.bar (thawed) and qux.bar: the first
    ends frozen and the second is untouched. *)
Lemma freeze_thaw_matching_witness :
  split "freeze foo*" = ["freeze"; "foo*"] /\
  map (fun r => (full_name (par r), frozen (par r), checkbox r))
      (table froze_foo)
  = [("foo.bar", true, false); ("qux.bar", false, true)] /\
  forall i r, nth_error (table (foo_qux [])) i = Some r ->
    exists r',
      nth_error (table froze_foo) i = Some r' /\
      full_name (par r') = full_name (par r) /\
      (matches_any ["foo*"] (full_name (par r)) = true ->
         frozen (par r') = true /\ checkbox r' = false) /\
      (matches_any ["foo*"] (full_name (par r)) = false -> r' = r).
Proof.
  split; [reflexivity|]. split; [reflexivity|].
  exact (proj2 (freeze_thaw_matching (fun _ => None) false "freeze foo*" ["foo*"]
                  (foo_qux []) eq_refl)).
Defined.

(** * More properties of the code *)

(** ** PanelSlider *)

Section SliderMore.

Context {F : Type} `{PyFloat F}.

Lemma setValue_in_range (n : Z) (s : PanelSlider F) :
  in_range s -> in_range (state_of (setValue n s)).
Proof.
  intros (A & B & C). unfold setValue, bind, lift, modify, state_of.
  destruct (c_int n) as [e|k]; cbn; [repeat split; tauto|].
  unfold in_range. cbn. rewrite A, B. repeat split; lia.
Qed.

Lemma set_dx_in_range (s : PanelSlider F) :
  in_range s -> in_range (state_of (set_dx s)).
Proof.
  intros R. unfold set_dx, bind, get, lift, modify, state_of.
  destruct (truediv _ _) as [e|d]; cbn; [exact R|].
  destruct (truediv _ d) as [e|i]; cbn; exact R.
Qed.

Lemma set_step_from_value_in_range (v : F) (s : PanelSlider F) :
  in_range s -> in_range (state_of (set_step_from_value v s)).
Proof.
  intros R. unfold set_step_from_value, getattr, bind, get, lift, ret, raise, state_of.
  destruct (dx s) as [d|]; [|exact R].
  destruct (fint _) as [e|step]; [exact R|].
  apply (setValue_in_range step s R).
Qed.

Lemma new_PanelSlider_in_range (p : Par F) (s : PanelSlider F) :
  new_PanelSlider p = inr s -> in_range s.
Proof.
  unfold new_PanelSlider. rewrite bind_state. unfold modify at 1.
  set (s1 := mkSlider _ _ _ _ _ _ _ _ _).
  assert (R1 : in_range s1) by (unfold in_range, s1; cbn; lia).
  rewrite bind_state.
  pose proof (set_dx_in_range s1 R1) as R2. unfold state_of in R2.
  destruct (set_dx s1) as [s2 [e|[]]]; [discriminate|]. cbn [fst] in R2.
  rewrite bind_state.
  pose proof (set_step_from_value_in_range (val p) s2 R2) as R3.
  unfold state_of in R3.
  destruct (set_step_from_value (val p) s2) as [s3 [e|[]]]; [discriminate|].
  cbn [fst] in R3. unfold modify. intros E. injection E as <-.
  destruct R3 as (A & B & C). unfold in_range. cbn. auto.
Qed.

Lemma update_slider_val_in_range (v : F) (a : attr) (s : PanelSlider F) :
  in_range s -> in_range (state_of (update_slider_val v a s)).
Proof.
  intros R. unfold update_slider_val, state_of.
  rewrite bind_state. unfold modify at 1.
  assert (R1 : in_range (with_par a v s)) by (destruct a; exact R).
  rewrite bind_state.
  assert (R2 : in_range (fst (when (is_bound a) set_dx (with_par a v s)))).
  { unfold when. destruct (is_bound a); [apply set_dx_in_range; exact R1|exact R1]. }
  destruct (when (is_bound a) set_dx (with_par a v s)) as [s2 [e|[]]];
    cbn [fst] in *; [exact R2|].
  rewrite bind_state. unfold get at 1.
  apply (set_step_from_value_in_range (parval s2) s2 R2).
Qed.

(** X1: the position of a slider never leaves 0..100: the constructor sets
    the range and a value within it, and [update_slider_val] and
    [set_step_from_value] keep both, whatever they are given and whether
    they return or raise. *)
Theorem slider_stays_in_range (p : Par F) (s : PanelSlider F) (v : F) (a : attr) :
  (new_PanelSlider p = inr s -> in_range s) /\
  (in_range s -> in_range (state_of (update_slider_val v a s))) /\
  (in_range s -> in_range (state_of (set_step_from_value v s))).
Proof.
  split; [apply new_PanelSlider_in_range|].
  split; [apply update_slider_val_in_range | apply set_step_from_value_in_range].
Qed.

End SliderMore.

(** The slider of val 5 in 0..10, and its bound moved to 50. *)
Lemma slider_stays_in_range_witness :
  in_range slider_5_in_0_10 /\
  in_range (state_of (update_slider_val 50%float Max slider_5_in_0_10)).
Proof.
  assert (R : in_range slider_5_in_0_10) by (unfold in_range; cbn; lia).
  split; [exact R|].
  exact (proj1 (proj2 (slider_stays_in_range par_5_in_0_10 slider_5_in_0_10
                         50%float Max)) R).
Defined.

Section SliderRescale.

Context {F : Type} `{PyFloat F}.

(** Setting the step writes the QSlider's value and nothing else. *)
Lemma set_step_from_value_frame (v : F) (s : PanelSlider F) :
  exists n, state_of (set_step_from_value v s) = with_value n s.
Proof.
  unfold set_step_from_value, getattr, bind, get, lift, ret, raise, setValue,
    modify, state_of.
  destruct (dx s) as [d|]; cbn; [|exists (value s); destruct s; reflexivity].
  destruct (fint _) as [e|step]; cbn; [exists (value s); destruct s; reflexivity|].
  destruct (c_int step) as [e|k]; cbn; [exists (value s); destruct s; reflexivity|].
  eexists. reflexivity.
Qed.

Lemma update_slider_val_zero_range (v : F) (a : attr) (s : PanelSlider F) :
  is_bound a = true ->
  fzero (fsub (parmax (with_par a v s)) (parmin (with_par a v s))) = true ->
  update_slider_val v a s = (with_par a v s, inl ZeroDivisionError).
Proof.
  intros Ha Ez. unfold update_slider_val. rewrite bind_state. unfold modify at 1.
  rewrite bind_state, Ha. unfold when.
  rewrite (set_dx_zero_range (with_par a v s) Ez). reflexivity.
Qed.

(** X2: a bound written to the slider is followed by a new mapping: when
    [update_slider_val] returns from a write of min or max, [dx] and [idx]
    are the scale of the bounds the slider now holds and its inverse; a
    write of the value leaves bounds and mapping alone. *)
Theorem update_slider_val_rescales (v : F) (a : attr) (s : PanelSlider F) :
  outcome (update_slider_val v a s) = inr tt ->
  parmin (state_of (update_slider_val v a s)) = parmin (with_par a v s) /\
  parmax (state_of (update_slider_val v a s)) = parmax (with_par a v s) /\
  parval (state_of (update_slider_val v a s)) = parval (with_par a v s) /\
  (is_bound a = true -> rescaled (state_of (update_slider_val v a s))) /\
  (is_bound a = false ->
   dx (state_of (update_slider_val v a s)) = dx s /\
   idx (state_of (update_slider_val v a s)) = idx s).
Proof.
  destruct (update_slider_val v a s) as [s' r] eqn:E.
  unfold outcome, state_of. cbn [fst snd]. intros ->.
  unfold update_slider_val in E.
  rewrite bind_state in E. unfold modify at 1 in E. rewrite bind_state in E.
  set (s1 := with_par a v s) in *.
  destruct (is_bound a) eqn:Ha; unfold when in E.
  - destruct (fzero (fsub (parmax s1) (parmin s1))) eqn:E1.
    { rewrite (set_dx_zero_range s1 E1) in E. discriminate. }
    destruct (fzero (scale_of (parmin s1) (parmax s1))) eqn:E2.
    { rewrite (set_dx_zero_scale s1 E1 E2) in E. discriminate. }
    rewrite (set_dx_ok s1 E1 E2) in E. rewrite bind_state in E.
    unfold get at 1 in E.
    set (s2 := with_idx _ _) in E.
    destruct (set_step_from_value_frame (parval s2) s2) as [n En].
    unfold state_of in En. rewrite E in En. cbn [fst] in En. subst s'.
    cbn.
    split; [reflexivity|]. split; [reflexivity|]. split; [reflexivity|].
    split; [intros _; unfold rescaled; cbn; auto | discriminate].
  - unfold ret in E. rewrite bind_state in E. unfold get at 1 in E.
    destruct (set_step_from_value_frame (parval s1) s1) as [n En].
    unfold state_of in En. rewrite E in En. cbn [fst] in En. subst s'.
    cbn.
    split; [reflexivity|]. split; [reflexivity|]. split; [reflexivity|].
    split; [discriminate|]. intros _.
    unfold s1. destruct a; try discriminate; auto.
Qed.

End SliderRescale.

(** The max of the slider of 0..10 moved to 50. *)
Lemma update_slider_val_rescales_witness :
  parmax (state_of (update_slider_val 50%float Max slider_5_in_0_10)) = 50%float /\
  rescaled (state_of (update_slider_val 50%float Max slider_5_in_0_10)).
Proof.
  assert (O : outcome (update_slider_val 50%float Max slider_5_in_0_10) = inr tt)
    by (vm_compute; reflexivity).
  destruct (update_slider_val_rescales 50%float Max slider_5_in_0_10 O)
    as (_ & A & _ & B & _).
  split; [exact A | exact (B eq_refl)].
Defined.

(** ** PanelText *)

Section PanelTextMore.

Context {F : Type} `{PyFloat F}.

(** The bounds check returns, with a message exactly when a test fired; it
    leaves the bounds, the slider, the checkbox, the plots and the output
    alone, and a row on which no test fired as it was. *)
Lemma bounds_check_run (a : attr) (p : Panel F) :
  exists p1 msg,
    _bounds_check a p = (p1, inr msg) /\
    par (row p1) = bounds_checked (par (row p)) /\
    slider (row p1) = slider (row p) /\
    checkbox (row p1) = checkbox (row p) /\
    plots p1 = plots p /\ stdout p1 = stdout p /\
    (msg = None -> p1 = p) /\
    (msg <> None -> text_val (row p1) = fmt (par (row p1)) (val (par (row p1)))) /\
    (msg = Some above_max ->
     text a (row p1) = fmt (par (row p1)) (val (par (row p1)))) /\
    (msg = None <->
     fltb (val (par (row p))) (min (par (row p))) = false /\
     fgtb (val (par (row p))) (max (par (row p))) = false).
Proof.
  unfold _bounds_check, bounds_checked, bind, get, modify, ret, on_row,
    with_par_of.
  destruct p as [[[n x lo hi fz fm] c tv tm s tx] pl so]; cbn.
  destruct (fltb x lo) eqn:E1; cbn.
  - destruct (fgtb lo hi) eqn:E2; cbn; eexists; eexists;
      (split; [reflexivity|]); cbn;
      repeat split; trivial; try discriminate; try congruence;
      try (destruct a; reflexivity);
      try (intros [? ?]; discriminate).
  - destruct (fgtb x hi) eqn:E2; cbn; eexists; eexists;
      (split; [reflexivity|]); cbn;
      repeat split; trivial; try discriminate; try congruence;
      try (destruct a; reflexivity);
      try (intros [? ?]; discriminate).
Qed.

(** [set_par_attr] step by step: the attribute is stored and checked, the
    message printed, the slider told, and the plots redrawn if the slider
    did not raise. *)
Lemma set_par_attr_run (a : attr) (v : F) (p : Panel F) :
  exists p1 msg s' r,
    _bounds_check a (on_row (with_par_of (setattr_par a v)) p) = (p1, inr msg) /\
    update_slider_val v a (slider (row p)) = (s', r) /\
    set_par_attr a v p =
      (mkPanel (with_slider s' (row p1))
         (match r with inl _ => plots p | inr _ => plots p ++ [true] end)
         (match msg with Some m => stdout p ++ [m] | None => stdout p end),
       match r with inl e => inl e | inr _ => inr tt end).
Proof.
  destruct (bounds_check_run a (on_row (with_par_of (setattr_par a v)) p))
    as (p1 & msg & E & _ & Es & _ & Epl & Eso & _).
  cbn in Es, Epl, Eso.
  destruct (update_slider_val v a (slider (row p))) as [s' r] eqn:Eu.
  exists p1, msg, s', r. split; [exact E|]. split; [reflexivity|].
  unfold set_par_attr. rewrite bind_state. unfold modify at 1.
  rewrite bind_state, E.
  destruct msg as [m|]; rewrite bind_state; unfold print, modify, ret;
    rewrite bind_state; unfold zoom; cbn [row plots stdout];
    rewrite Es, Eu; destruct r as [e|[]]; unfold plot, modify, on_row; cbn;
    rewrite Epl, Eso; reflexivity.
Qed.

Lemma bounds_checked_bounds (q : Par F) :
  min (bounds_checked q) = min q /\ max (bounds_checked q) = max q /\
  full_name (bounds_checked q) = full_name q /\
  frozen (bounds_checked q) = frozen q /\ fmt (bounds_checked q) = fmt q.
Proof.
  unfold bounds_checked.
  destruct (fltb (val q) (min q)); cbn;
    match goal with |- context [if ?c then _ else _] => destruct c end;
    cbn; auto.
Qed.

(** The slider holds the bounds and the value it was told, whether
    [update_slider_val] returns or raises. *)
Lemma update_slider_val_pars (v : F) (a : attr) (s : PanelSlider F) :
  parmin (state_of (update_slider_val v a s)) = parmin (with_par a v s) /\
  parmax (state_of (update_slider_val v a s)) = parmax (with_par a v s) /\
  parval (state_of (update_slider_val v a s)) = parval (with_par a v s).
Proof.
  destruct (update_slider_val v a s) as [s' r] eqn:E. unfold state_of. cbn [fst].
  unfold update_slider_val in E.
  rewrite bind_state in E. unfold modify at 1 in E. rewrite bind_state in E.
  set (s1 := with_par a v s) in *.
  assert (D : exists s2 r2, when (is_bound a) set_dx s1 = (s2, r2) /\
            parmin s2 = parmin s1 /\ parmax s2 = parmax s1 /\ parval s2 = parval s1).
  { unfold when. destruct (is_bound a); [|eexists; eexists; split; [reflexivity|auto]].
    unfold set_dx, bind, get, lift, modify.
    destruct (truediv _ _) as [e|d]; [eexists; eexists; split; [reflexivity|auto]|].
    destruct (truediv _ d) as [e|i]; eexists; eexists; (split; [reflexivity|auto]). }
  destruct D as (s2 & r2 & E2 & A & B & C). rewrite E2 in E.
  destruct r2 as [e|[]]; [injection E as <- _; auto|].
  rewrite bind_state in E. unfold get at 1 in E.
  destruct (set_step_from_value_frame (parval s2) s2) as [n En].
  unfold state_of in En. rewrite E in En. cbn [fst] in En. subst s'. cbn. auto.
Qed.

(** X3: a bound written equal to the other bound leaves a stale mapping
    behind.  [set_par_attr] stores the bound in the parameter and in the
    slider, then the division of [set_dx] raises ZeroDivisionError: [dx],
    [idx] and the position stay those of the old bounds, and the plots are
    not redrawn. *)
Theorem set_par_attr_zero_range (a : attr) (v : F) (p : Panel F) :
  is_bound a = true ->
  fzero (fsub (parmax (with_par a v (slider (row p))))
              (parmin (with_par a v (slider (row p))))) = true ->
  outcome (set_par_attr a v p) = inl ZeroDivisionError /\
  getattr_par a (par (row (state_of (set_par_attr a v p)))) = v /\
  slider (row (state_of (set_par_attr a v p))) = with_par a v (slider (row p)) /\
  plots (state_of (set_par_attr a v p)) = plots p.
Proof.
  intros Ha Ez.
  destruct (set_par_attr_run a v p) as (p1 & msg & s' & r & E1 & E2 & ->).
  rewrite (update_slider_val_zero_range v a (slider (row p)) Ha Ez) in E2.
  injection E2 as <- <-. cbn.
  repeat split; trivial.
  destruct (bounds_check_run a (on_row (with_par_of (setattr_par a v)) p))
    as (p1' & msg' & E1' & Ep & _).
  rewrite E1 in E1'. injection E1' as <- <-. rewrite Ep.
  unfold on_row, with_par_of. cbn [row par].
  destruct (bounds_checked_bounds (setattr_par a v (par (row p))))
    as (A & B & _).
  destruct a; [discriminate| |]; cbn [getattr_par]; [rewrite A | rewrite B];
    reflexivity.
Qed.

(** X4: a clamp shows.  After any write through [set_par_attr], either no
    test fired, nothing was printed and the texts are untouched, or one
    message was printed and the text of the value entry is the format of the
    value now stored. *)
Theorem clamp_overwrites_display (a : attr) (v : F) (p : Panel F) :
  (stdout (state_of (set_par_attr a v p)) = stdout p /\
   text_val (row (state_of (set_par_attr a v p))) = text_val (row p) /\
   text_min (row (state_of (set_par_attr a v p))) = text_min (row p) /\
   text_max (row (state_of (set_par_attr a v p))) = text_max (row p) /\
   par (row (state_of (set_par_attr a v p))) = setattr_par a v (par (row p))) \/
  ((stdout (state_of (set_par_attr a v p)) = stdout p ++ [below_min] \/
    stdout (state_of (set_par_attr a v p)) = stdout p ++ [above_max]) /\
   text_val (row (state_of (set_par_attr a v p))) =
     fmt (par (row (state_of (set_par_attr a v p))))
         (val (par (row (state_of (set_par_attr a v p)))))).
Proof.
  destruct (set_par_attr_run a v p) as (p1 & msg & s' & r & E1 & E2 & ->).
  destruct (bounds_check_run a (on_row (with_par_of (setattr_par a v)) p))
    as (p1' & msg' & E1' & Ep & _ & _ & _ & _ & Hnone & Hsome & _).
  rewrite E1 in E1'. injection E1' as <- <-. unfold state_of. cbn.
  destruct msg as [m|].
  - right. split; [|apply Hsome; discriminate].
    clear - E1. unfold _bounds_check, bind, get, modify, ret in E1.
    repeat match type of E1 with
           | context [if ?c then _ else _] => destruct c
           end; cbn in E1; try discriminate E1; injection E1 as _ <-; auto.
  - left. rewrite (Hnone eq_refl). cbn. auto.
Qed.

End PanelTextMore.

(** The min of a parameter bounded by 0 and 10 written as 10. *)
Lemma set_par_attr_zero_range_witness :
  outcome (set_par_attr Min 10%float panel_5_in_0_10) = inl ZeroDivisionError /\
  min (par (row (state_of (set_par_attr Min 10%float panel_5_in_0_10)))) = 10%float /\
  dx (slider (row (state_of (set_par_attr Min 10%float panel_5_in_0_10)))) = Some 10%float /\
  plots (state_of (set_par_attr Min 10%float panel_5_in_0_10)) = [].
Proof.
  assert (Z : fzero (fsub (parmax (with_par Min 10%float (slider (row panel_5_in_0_10))))
                          (parmin (with_par Min 10%float (slider (row panel_5_in_0_10)))))
              = true) by (vm_compute; reflexivity).
  destruct (set_par_attr_zero_range Min 10%float panel_5_in_0_10 eq_refl Z)
    as (A & B & C & D).
  split; [exact A|]. split; [exact B|]. split; [rewrite C; reflexivity | exact D].
Defined.

Section Divergence.

Context {F : Type} `{PyFloat F}.

Lemma set_step_from_value_returns (v : F) (s : PanelSlider F) :
  outcome (set_step_from_value v s) = inr tt ->
  exists d step,
    dx s = Some d /\ fint (fmul (fsub v (parmin s)) d) = inr step /\
    state_of (set_step_from_value v s) =
      with_value (Z.max (minimum s) (Z.min (maximum s) step)) s.
Proof.
  unfold set_step_from_value, getattr, bind, get, lift, ret, raise, setValue,
    modify, outcome, state_of.
  destruct (dx s) as [d|]; cbn; [|discriminate].
  destruct (fint _) as [e|step] eqn:Ei; cbn; [discriminate|].
  destruct (c_int step) as [e|k] eqn:Ec; cbn; [discriminate|].
  intros _. exists d, step. repeat split; trivial.
  unfold c_int in Ec. destruct (_ && _); [|discriminate].
  injection Ec as <-. reflexivity.
Qed.

(** The position after a bound was written: the new scale applied to the
    value the slider remembers. *)
Lemma update_slider_val_position (v : F) (a : attr) (s : PanelSlider F) :
  is_bound a = true ->
  outcome (update_slider_val v a s) = inr tt ->
  exists step,
    fint (fmul (fsub (parval s) (parmin (with_par a v s)))
               (scale_of (parmin (with_par a v s)) (parmax (with_par a v s))))
      = inr step /\
    value (state_of (update_slider_val v a s)) =
      Z.max (minimum s) (Z.min (maximum s) step).
Proof.
  intros Ha.
  destruct (update_slider_val v a s) as [s' r] eqn:E.
  unfold outcome, state_of. cbn [fst snd]. intros ->.
  unfold update_slider_val in E.
  rewrite bind_state in E. unfold modify at 1 in E. rewrite bind_state in E.
  set (s1 := with_par a v s) in *.
  assert (Ev : parval s1 = parval s) by (destruct a; [discriminate| |]; reflexivity).
  assert (Emn : minimum s1 = minimum s /\ maximum s1 = maximum s)
    by (destruct a; auto).
  rewrite Ha in E. unfold when in E.
  destruct (fzero (fsub (parmax s1) (parmin s1))) eqn:E1.
  { rewrite (set_dx_zero_range s1 E1) in E. discriminate. }
  destruct (fzero (scale_of (parmin s1) (parmax s1))) eqn:E2.
  { rewrite (set_dx_zero_scale s1 E1 E2) in E. discriminate. }
  rewrite (set_dx_ok s1 E1 E2) in E. rewrite bind_state in E.
  unfold get at 1 in E.
  set (s2 := with_idx _ _) in E.
  destruct (set_step_from_value_returns (parval s2) s2) as (d & step & Ed & Ei & Es).
  { unfold outcome. rewrite E. reflexivity. }
  unfold state_of in Es. rewrite E in Es. cbn [fst] in Es. subst s'.
  cbn in Ed. injection Ed as <-.
  exists step. split; [rewrite <- Ev; exact Ei|].
  cbn. destruct Emn as [-> ->]. reflexivity.
Qed.

(** X5: the slider remembers the value as it was written, not as it was
    stored.  After a value [v] is written and then a new max, and the second
    write returns, the position is the new scale applied to [v], although
    the stored value is the one the bounds check left at the first write. *)
Theorem slider_follows_written_value (v hi : F) (p : Panel F) :
  in_range (slider (row p)) ->
  outcome (set_par_attr Max hi (state_of (set_par_attr Val v p))) = inr tt ->
  exists step,
    fint (fmul (fsub v (parmin (slider (row p))))
               (scale_of (parmin (slider (row p))) hi)) = inr step /\
    value (slider (row (state_of
             (set_par_attr Max hi (state_of (set_par_attr Val v p))))))
      = Z.max 0 (Z.min 100 step) /\
    val (par (row (state_of
             (set_par_attr Max hi (state_of (set_par_attr Val v p))))))
      = val (bounds_checked
               (set_max hi (bounds_checked (set_val v (par (row p)))))).
Proof.
  intros R.
  destruct (set_par_attr_run Val v p) as (p1 & msg & s1 & r1 & _ & U1 & E1).
  pose proof (update_slider_val_pars v Val (slider (row p))) as (Pmin & _ & Pval).
  pose proof (update_slider_val_in_range v Val (slider (row p)) R) as (Rmin & Rmax & _).
  pose proof (set_par_attr_par Val v p) as Q1.
  unfold state_of in Pmin, Pval, Rmin, Rmax. rewrite U1 in Pmin, Pval, Rmin, Rmax.
  cbn in Pmin, Pval, Rmin, Rmax.
  set (q := state_of (set_par_attr Val v p)) in *.
  assert (Sq : slider (row q) = s1) by (unfold q, state_of; rewrite E1; reflexivity).
  destruct (set_par_attr_run Max hi q) as (p2 & msg2 & s2 & r2 & _ & U2 & E2).
  pose proof (set_par_attr_par Max hi q) as Q2.
  unfold outcome, state_of in *. rewrite E2 in *. cbn [fst snd] in *.
  intros O. destruct r2 as [e|[]]; [discriminate|].
  rewrite Sq in U2.
  destruct (update_slider_val_position hi Max s1 eq_refl) as (step & Ei & Ev).
  { unfold outcome. rewrite U2. reflexivity. }
  unfold state_of in Ev. rewrite U2 in Ev. cbn in Ev, Ei.
  exists step. rewrite Pval, Pmin in Ei. split; [exact Ei|].
  split.
  - cbn. rewrite Ev, Rmin, Rmax. reflexivity.
  - rewrite Q2, Q1. reflexivity.
Qed.

End Divergence.

(** 20 written into a parameter bounded by 0 and 10, then the max moved to
    40: the stored value is 10 and the slider stands at 50, the position of
    20. *)
Lemma slider_follows_written_value_witness :
  value (slider (row (state_of (set_par_attr Max 40%float wrote_20)))) = 50 /\
  val (par (row (state_of (set_par_attr Max 40%float wrote_20)))) = 10%float /\
  exists step,
    float_int ((20 - 0) * scale_of 0 40)%float = inr step /\
    value (slider (row (state_of (set_par_attr Max 40%float wrote_20))))
      = Z.max 0 (Z.min 100 step).
Proof.
  split; [vm_compute; reflexivity|]. split; [vm_compute; reflexivity|].
  assert (R : in_range (slider (row panel_5_in_0_10)))
    by (unfold in_range; cbn; lia).
  assert (O : outcome (set_par_attr Max 40%float
                         (state_of (set_par_attr Val 20%float panel_5_in_0_10)))
              = inr tt) by (vm_compute; reflexivity).
  destruct (slider_follows_written_value 20%float 40%float panel_5_in_0_10 R O)
    as (step & A & B & _).
  exists step. split; [exact A | exact B].
Defined.

(** ** The quantizer in binary64 *)

Open Scope Q_scope.

(** X6: between the bounds the position never decreases as the value grows.
    On a slider rescaled between binary64 bounds of ordinary size, of two
    values between the bounds both get a position, and the larger one does
    not get the smaller position: the rounding of the difference and of the
    product keeps the order, and so does [int]. *)
Theorem position_monotone (s : PanelSlider float) (v1 v2 : float) (L H V1 V2 : Q) :
  rescaled s ->
  float_Q (parmin s) = Some L -> float_Q (parmax s) = Some H ->
  pow2 (-1000) <= H - L -> Qabs L <= pow2 1000 -> Qabs H <= pow2 1000 ->
  float_Q v1 = Some V1 -> float_Q v2 = Some V2 ->
  L <= V1 -> V1 <= V2 -> V2 <= H ->
  outcome (set_step_from_value v1 s) = inr tt /\
  outcome (set_step_from_value v2 s) = inr tt /\
  (value (state_of (set_step_from_value v1 s)) <=
   value (state_of (set_step_from_value v2 s)))%Z.
Proof.
  intros [Rd _] EL EH Wide BL BH E1 E2 B1 B12 B2.
  destruct (step_order (parmin s) (parmax s) L H EL EH Wide BL BH v1 v2 V1 V2
              E1 E2 B1 B12 B2) as (n1 & n2 & En1 & En2 & N0 & N12 & N100).
  assert (R1 : (- 2 ^ 31 <= n1 < 2 ^ 31)%Z) by lia.
  assert (R2 : (- 2 ^ 31 <= n2 < 2 ^ 31)%Z) by lia.
  rewrite (set_step_from_value_ok s v1 _ n1 Rd En1 R1).
  rewrite (set_step_from_value_ok s v2 _ n2 Rd En2 R2).
  cbn [outcome state_of fst snd]. split; [reflexivity|]. split; [reflexivity|].
  destruct s; cbn. lia.
Qed.

(** X7: the value of a position.  On a slider in range and rescaled between
    binary64 bounds of ordinary size, [get_value_from_step] returns, leaves
    the slider as it was, and the value it returns is the level of the
    position, [min + position * (max - min) / 100], up to a rounding error
    of [2^-48 * (|min| + |max|)]. *)
Theorem position_value_rounded (s : PanelSlider float) (L H : Q) :
  rescaled s -> in_range s ->
  float_Q (parmin s) = Some L -> float_Q (parmax s) = Some H ->
  pow2 (-1000) <= H - L -> Qabs L <= pow2 1000 -> Qabs H <= pow2 1000 ->
  exists r R, get_value_from_step s = (s, inr r) /\ float_Q r = Some R /\
    Qabs (R - (L + inject_Z (value s) * (H - L) / 100))
      <= pow2 (-48) * (Qabs L + Qabs H).
Proof.
  intros [_ Ri] (_ & _ & Rv) EL EH Wide BL BH.
  destruct (level_facts (parmin s) (parmax s) L H EL EH Wide BL BH (value s) Rv)
    as (R & ER & R1 & R2).
  destruct (width_bounds L H Wide BL BH) as (W0 & _ & W2).
  rewrite (get_value_from_step_ok s _ Ri).
  eexists. exists R. split; [reflexivity|]. split; [exact ER|].
  pose proof (Qabs_nonneg L) as A0. pose proof (Qabs_nonneg H) as A1.
  rewrite pow2_m48. apply Qabs_Qle_condition. unfold u52 in *. split; lra.
Qed.

(** X8: a drag stays by the slider's bounds.  On a slider in range and
    rescaled between binary64 bounds of ordinary size, [slider_moved]
    returns, prints nothing, and stores the level of the position up to a
    rounding error of [2^-48 * (|min| + |max|)], so a value that leaves the
    bounds by no more than that; it shows it in the value entry and leaves
    the bounds of the parameter and the slider alone. *)
Theorem slider_moved_near_bounds (p : Panel float) (L H : Q) :
  rescaled (slider (row p)) -> in_range (slider (row p)) ->
  float_Q (parmin (slider (row p))) = Some L ->
  float_Q (parmax (slider (row p))) = Some H ->
  pow2 (-1000) <= H - L -> Qabs L <= pow2 1000 -> Qabs H <= pow2 1000 ->
  outcome (slider_moved p) = inr tt /\
  stdout (state_of (slider_moved p)) = stdout p /\
  (exists R, float_Q (val (par (row (state_of (slider_moved p))))) = Some R /\
     L - pow2 (-48) * (Qabs L + Qabs H) <= R /\
     R <= H + pow2 (-48) * (Qabs L + Qabs H) /\
     Qabs (R - (L + inject_Z (value (slider (row p))) * (H - L) / 100))
       <= pow2 (-48) * (Qabs L + Qabs H)) /\
  text_val (row (state_of (slider_moved p))) =
    fmt (par (row p)) (val (par (row (state_of (slider_moved p))))) /\
  min (par (row (state_of (slider_moved p)))) = min (par (row p)) /\
  max (par (row (state_of (slider_moved p)))) = max (par (row p)) /\
  slider (row (state_of (slider_moved p))) = slider (row p).
Proof.
  intros [Rd Ri] (Rmin & Rmax & Rv) EL EH Wide BL BH.
  set (s := slider (row p)) in *.
  destruct (level_facts (parmin s) (parmax s) L H EL EH Wide BL BH (value s) Rv)
    as (R & ER & R1 & R2).
  destruct (width_bounds L H Wide BL BH) as (W0 & _ & W2).
  assert (B : L - pow2 (-48) * (Qabs L + Qabs H) <= R /\
              R <= H + pow2 (-48) * (Qabs L + Qabs H) /\
              Qabs (R - (L + inject_Z (value s) * (H - L) / 100))
                <= pow2 (-48) * (Qabs L + Qabs H)).
  { pose proof (Qabs_nonneg L) as A0. pose proof (Qabs_nonneg H) as A1.
    assert (K0 : 0 <= inject_Z (value s)) by (apply inject_Z_nonneg; lia).
    assert (K1 : inject_Z (value s) <= 100).
    { change 100 with (inject_Z 100). rewrite <- Zle_Qle. lia. }
    assert (E : inject_Z (value s) * (H - L) / 100
                == (1 # 100) * (inject_Z (value s) * (H - L))) by field.
    assert (P1 : 0 <= inject_Z (value s) * (H - L))
      by (apply Qmult_le_0_compat; lra).
    assert (P2 : 0 <= (100 - inject_Z (value s)) * (H - L))
      by (apply Qmult_le_0_compat; lra).
    rewrite pow2_m48. rewrite E in *. unfold u52 in *.
    split; [lra|]. split; [lra|]. apply Qabs_Qle_condition. split; lra. }
  unfold slider_moved. rewrite bind_state. unfold zoom.
  fold s. rewrite (get_value_from_step_ok s _ Ri).
  set (v := fadd (fmul (of_int (value s)) (fquot (of_int 1) (scale_of (parmin s) (parmax s))))
              (parmin s)) in *.
  clearbody v. clear - ER B.
  destruct p as [[q c tv tm s0 tx] pl so].
  unfold bind, modify, get, when, plot, on_row, with_par_of, outcome, state_of.
  cbn in *.
  destruct (update_plots s0); cbn; repeat split; trivial; exists R; split; trivial.
Qed.

(** X30: a value between the bounds gets a position.  For binary64 bounds of
    ordinary size and a value between them the constructor returns a slider
    in range and rescaled, and its position is the level of the value,
    [100 * (val - min) / (max - min)], cut to an integer: it lies within one
    step below the level, up to a rounding error of [2^-43] of a step. *)
Theorem position_below_level (p : Par float) (L H V : Q) :
  float_Q (min p) = Some L -> float_Q (max p) = Some H ->
  float_Q (val p) = Some V -> L <= V -> V <= H ->
  pow2 (-1000) <= H - L -> Qabs L <= pow2 1000 -> Qabs H <= pow2 1000 ->
  exists s, new_PanelSlider p = inr s /\ rescaled s /\ in_range s /\
    100 * (V - L) / (H - L) - 1 - pow2 (-43) <= inject_Z (value s) /\
    inject_Z (value s) <= 100 * (V - L) / (H - L) + pow2 (-43).
Proof.
  intros EL EH EV V1 V2 Wide BL BH.
  destruct (new_PanelSlider_binary64 p L H V EL EH EV V1 V2 Wide BL BH)
    as (n & NS & Hn & K1 & K2).
  destruct (width_bounds L H Wide BL BH) as (W0 & _ & _).
  eexists. split; [exact NS|].
  split; [split; reflexivity|]. split; [unfold in_range; cbn; lia|].
  cbn [value].
  set (W := H - L) in *. set (X := V - L) in *.
  assert (EP : 100 * X / W * W == 100 * X) by (field; lra).
  set (P := 100 * X / W) in *.
  rewrite pow2_m43. unfold u52 in *.
  assert (T1 : P - 1 - 512 * (1 # 4503599627370496) <= inject_Z n).
  { destruct (Qlt_le_dec (inject_Z n) (P - 1 - 512 * (1 # 4503599627370496)))
      as [G|G]; [exfalso|exact G].
    assert (0 < W * (P - 1 - 512 * (1 # 4503599627370496) - inject_Z n))
      by (apply Qmult_lt_0_compat; lra).
    lra. }
  assert (T2 : inject_Z n <= P + 512 * (1 # 4503599627370496)).
  { destruct (Qlt_le_dec (P + 512 * (1 # 4503599627370496)) (inject_Z n))
      as [G|G]; [exfalso|exact G].
    assert (0 < W * (inject_Z n - P - 512 * (1 # 4503599627370496)))
      by (apply Qmult_lt_0_compat; lra).
    lra. }
  split; [exact T1|exact T2].
Qed.

(** The sizes matter.  Between 0 and [2^-1020] the scale overflows to
    an infinity and the constructor raises: ValueError for the value 0, whose
    product with the scale is not a number, OverflowError for the value
    [2^-1020], whose product is infinite.  Between [-2^1023] and [2^1023]
    the difference of the bounds is infinite, the scale is zero and
    [1.0/self.dx] raises ZeroDivisionError. *)
Example round_trip_raises_beyond_size :
  (PrimFloat.ltb (min par_narrow) (max par_narrow) = true /\
   round_trip par_narrow (min par_narrow) = inl ValueError /\
   round_trip par_narrow (max par_narrow) = inl OverflowError) /\
  (PrimFloat.ltb (min par_huge) (max par_huge) = true /\
   PrimFloat.leb (min par_huge) 0 = true /\ PrimFloat.leb 0 (max par_huge) = true /\
   round_trip par_huge 0%float = inl ZeroDivisionError).
Proof.
  split; [split; [|split]|split; [|split; [|split]]]; vm_compute; reflexivity.
Qed.

(** The values 2 and 7 on the slider of 0..10 stand at 20 and 70. *)
Lemma position_monotone_witness :
  value (state_of (set_step_from_value 2%float slider_5_in_0_10)) = 20%Z /\
  value (state_of (set_step_from_value 7%float slider_5_in_0_10)) = 70%Z /\
  (value (state_of (set_step_from_value 2%float slider_5_in_0_10)) <=
   value (state_of (set_step_from_value 7%float slider_5_in_0_10)))%Z.
Proof.
  split; [vm_compute; reflexivity|]. split; [vm_compute; reflexivity|].
  assert (Rs : rescaled slider_5_in_0_10) by (split; vm_compute; reflexivity).
  assert (EL : float_Q (parmin slider_5_in_0_10) = Some 0) by reflexivity.
  assert (EH : exists H, float_Q (parmax slider_5_in_0_10) = Some H)
    by (eexists; vm_compute; reflexivity).
  destruct EH as [H EH].
  assert (E1 : exists V, float_Q 2%float = Some V) by (eexists; vm_compute; reflexivity).
  destruct E1 as [V1 E1].
  assert (E2 : exists V, float_Q 7%float = Some V) by (eexists; vm_compute; reflexivity).
  destruct E2 as [V2 E2].
  pose proof EH as EH'. pose proof E1 as E1'. pose proof E2 as E2'.
  vm_compute in EH', E1', E2'.
  injection EH' as <-. injection E1' as <-. injection E2' as <-.
  eapply (position_monotone slider_5_in_0_10 2%float 7%float _ _ _ _ Rs EL EH);
    try eassumption; vm_compute; congruence.
Defined.

(** The slider of a value 5 between 0 and 10 stands at 50, the level of 5. *)
Lemma position_below_level_witness :
  exists L H V,
    float_Q 0%float = Some L /\ float_Q 10%float = Some H /\
    float_Q 5%float = Some V /\
    exists s, new_PanelSlider par_5_in_0_10 = inr s /\ rescaled s /\ in_range s /\
      100 * (V - L) / (H - L) - 1 - pow2 (-43) <= inject_Z (value s) /\
      inject_Z (value s) <= 100 * (V - L) / (H - L) + pow2 (-43).
Proof.
  eexists. eexists. eexists.
  split; [vm_compute; reflexivity|].
  split; [vm_compute; reflexivity|].
  split; [vm_compute; reflexivity|].
  apply (position_below_level par_5_in_0_10);
    try (vm_compute; reflexivity); vm_compute; congruence.
Defined.

Lemma slider_m5_5_ready : rescaled slider_m5_5 /\ in_range slider_m5_5.
Proof. split; [split; reflexivity|]. unfold in_range. cbn. lia. Qed.

(** Position 1 between -5 and 5 reads as -4.9000000000000004, below its
    level -4.9 by rounding. *)
Lemma position_value_rounded_witness :
  exists L H r R,
    float_Q (-5)%float = Some L /\ float_Q 5%float = Some H /\
    get_value_from_step slider_m5_5 = (slider_m5_5, inr r) /\ float_Q r = Some R /\
    R < L + 1 * (H - L) / 100 /\
    Qabs (R - (L + 1 * (H - L) / 100)) <= pow2 (-48) * (Qabs L + Qabs H).
Proof.
  destruct slider_m5_5_ready as [Rs Ri].
  assert (EL : exists L, float_Q (parmin slider_m5_5) = Some L)
    by (eexists; vm_compute; reflexivity).
  destruct EL as [L EL].
  assert (EH : exists H, float_Q (parmax slider_m5_5) = Some H)
    by (eexists; vm_compute; reflexivity).
  destruct EH as [H EH].
  pose proof EL as EL'. pose proof EH as EH'.
  vm_compute in EL', EH'. injection EL' as <-. injection EH' as <-.
  destruct (position_value_rounded slider_m5_5 _ _ Rs Ri EL EH)
    as (r & R & Er & ER & B); try (vm_compute; congruence).
  eexists. eexists. exists r, R.
  split; [exact EL|]. split; [exact EH|]. split; [exact Er|]. split; [exact ER|].
  split; [|exact B].
  vm_compute in Er. injection Er as <-.
  vm_compute in ER. injection ER as <-. vm_compute. reflexivity.
Defined.

Lemma panel_0_07_ready :
  rescaled (slider (row panel_0_07)) /\ in_range (slider (row panel_0_07)).
Proof. split; [split; reflexivity|]. unfold in_range. cbn. lia. Qed.

(** A drag to the end of a slider between 0 and 0.7 stores
    0.70000000000000007: above the max, within the rounding error. *)
Lemma slider_moved_near_bounds_witness :
  outcome (slider_moved panel_0_07) = inr tt /\
  exists L H R,
    float_Q 0%float = Some L /\ float_Q seven_tenths = Some H /\
    float_Q (val (par (row (state_of (slider_moved panel_0_07))))) = Some R /\
    H < R /\ R <= H + pow2 (-48) * (Qabs L + Qabs H).
Proof.
  destruct panel_0_07_ready as [Rs Ri].
  assert (EL : exists L, float_Q (parmin (slider (row panel_0_07))) = Some L)
    by (eexists; vm_compute; reflexivity).
  destruct EL as [L EL].
  assert (EH : exists H, float_Q (parmax (slider (row panel_0_07))) = Some H)
    by (eexists; vm_compute; reflexivity).
  destruct EH as [H EH].
  pose proof EL as EL'. pose proof EH as EH'.
  vm_compute in EL', EH'. injection EL' as <-. injection EH' as <-.
  destruct (slider_moved_near_bounds panel_0_07 _ _ Rs Ri EL EH)
    as (O & _ & (R & ER & _ & B & _) & _); try (vm_compute; congruence).
  split; [exact O|].
  eexists. eexists. exists R.
  split; [exact EL|]. split; [exact EH|]. split; [exact ER|].
  split; [|exact B].
  vm_compute in ER. injection ER as <-. vm_compute. reflexivity.
Defined.

Close Scope Q_scope.

(** ** The command line *)

Section Commands.

Context {F : Type} `{PyFloat F}.

Lemma setChecked_untouched (b : bool) (r : Row F) : untouched r (setChecked b r).
Proof.
  unfold setChecked, frozen_toggled, untouched.
  destruct (Bool.eqb _ _); cbn; auto 10.
Qed.

Lemma freeze_step_untouched (thaw : bool) (r : Row F) (pat : string) :
  untouched r (freeze_step thaw r pat).
Proof.
  unfold freeze_step. destruct (fnmatch_translate_match _ _).
  - destruct (setChecked_untouched thaw r) as (A & B & C & D & E & G & I & J).
    unfold untouched. cbn. auto 10.
  - unfold untouched. auto 10.
Qed.

Lemma untouched_trans (r1 r2 r3 : Row F) :
  untouched r1 r2 -> untouched r2 r3 -> untouched r1 r3.
Proof.
  unfold untouched. intros (A & B & C & D & E & G & I & J)
    (A' & B' & C' & D' & E' & G' & I' & J').
  repeat split; congruence.
Qed.

Lemma freeze_row_untouched (thaw : bool) (pats : list string) :
  forall r : Row F, untouched r (freeze_row thaw pats r).
Proof.
  induction pats as [|pat pats IH]; intros r.
  - unfold untouched. cbn. auto 10.
  - unfold freeze_row. cbn [fold_left].
    apply (untouched_trans r (freeze_step thaw r pat)).
    + apply freeze_step_untouched.
    + apply IH.
Qed.

Lemma Forall2_untouched_refl (rs : list (Row F)) : Forall2 untouched rs rs.
Proof.
  induction rs; constructor; trivial. unfold untouched. auto 10.
Qed.

Lemma Forall2_untouched_map (f : Row F -> Row F) (rs : list (Row F)) :
  (forall r, untouched r (f r)) -> Forall2 untouched rs (map f rs).
Proof.
  intros Hf. induction rs; cbn; constructor; auto.
Qed.

(** The ways a command ends: the table rewritten by freeze or thaw, one line
    printed, or the mask changed and the plots redrawn; without a token,
    IndexError and no change. *)
Lemma parse_command_ends
  (DateTime_date : list string -> option (list string)) (command : string)
  (w : MainWindow F) :
  (split command = [] /\
   parse_command DateTime_date command w = (w, inl IndexError)) \/
  (exists thaw pats,
     split command = keyword thaw :: pats /\ pats <> [] /\
     parse_command DateTime_date command w =
       (with_table (map (freeze_row thaw pats) (table w)) w, inr tt)) \/
  (exists line,
     parse_command DateTime_date command w =
       (with_printed (printed w ++ [line]) w, inr tt)) \/
  (exists mask,
     parse_command DateTime_date command w =
       (with_plot_calls (plot_calls w ++ [true]) (with_mask_times mask w),
        inr tt) /\
     (mask = [] \/ exists dates, mask = mask_times w ++ [dates])).
Proof.
  remember (parse_command DateTime_date command w) as X eqn:EX.
  unfold parse_command in EX.
  destruct (split command) as [|cmd args] eqn:Es.
  - left. subst X. auto.
  - right.
    destruct (negb (known_command cmd) ||
              (negb (String.eqb cmd "notice") && (length (cmd :: args) <? 2)%nat))
      eqn:Ebad.
    { right. left. subst X. eexists. reflexivity. }
    apply orb_false_iff in Ebad. destruct Ebad as [Ek Ea].
    destruct (String.eqb cmd "freeze") eqn:Ef.
    { apply String.eqb_eq in Ef. subst cmd. left. exists false, args.
      cbn in Ea. destruct args; [discriminate|]. subst X.
      split; [reflexivity|]. split; [discriminate|]. reflexivity. }
    destruct (String.eqb cmd "thaw") eqn:Et.
    { apply String.eqb_eq in Et. subst cmd. left. exists true, args.
      cbn in Ea. destruct args; [discriminate|]. subst X.
      split; [reflexivity|]. split; [discriminate|]. reflexivity. }
    right. cbn [orb] in EX.
    destruct (String.eqb cmd "ignore") eqn:Ei.
    + rewrite bind_state in EX. unfold get at 1 in EX. cbn beta iota in EX.
      destruct (split_on "-" (hd EmptyString args)) as [|start [|stop more]];
        try (left; subst X; eexists; reflexivity).
      destruct (DateTime_date
                  (star_to (datestart w) start :: star_to (datestop w) stop :: more))
        as [dates|]; [|left; subst X; eexists; reflexivity].
      right. subst X. eexists. split; [reflexivity|]. right. eexists. reflexivity.
    + destruct args; [|left; subst X; eexists; reflexivity].
      right. subst X. exists []. split; [reflexivity|]. left. reflexivity.
Qed.

(** X9: what a command never does.  Whatever the text, [parse_command]
    leaves the pipe, the joins, the timers and the vectors assigned alone,
    keeps every row with its name, value, bounds, texts and slider, and
    raises only when the text has no token: then it raises IndexError and
    changes nothing. *)
Theorem parse_command_frame
  (DateTime_date : list string -> option (list string)) (command : string)
  (w : MainWindow F) :
  parent_pipe (state_of (parse_command DateTime_date command w)) = parent_pipe w /\
  joins (state_of (parse_command DateTime_date command w)) = joins w /\
  timers (state_of (parse_command DateTime_date command w)) = timers w /\
  assigned (state_of (parse_command DateTime_date command w)) = assigned w /\
  Forall2 untouched (table w)
    (table (state_of (parse_command DateTime_date command w))) /\
  (outcome (parse_command DateTime_date command w) = inr tt \/
   split command = [] /\
   parse_command DateTime_date command w = (w, inl IndexError)).
Proof.
  destruct (parse_command_ends DateTime_date command w)
    as [[Es E] | [(thaw & pats & _ & _ & E) | [(line & E) | (mask & E & _)]]];
    rewrite E; unfold state_of, outcome; cbn;
    repeat split; auto using Forall2_untouched_refl.
  apply Forall2_untouched_map, freeze_row_untouched.
Qed.

Lemma freeze_step_in_step (thaw : bool) (r : Row F) (pat : string) :
  in_step r -> in_step (freeze_step thaw r pat).
Proof.
  unfold in_step. intros E.
  destruct (fnmatch_translate_match pat (full_name (par r))) eqn:Em.
  - destruct (freeze_step_set thaw r pat Em) as [-> ->].
    rewrite negb_involutive. reflexivity.
  - unfold freeze_step. rewrite Em. exact E.
Qed.

Lemma freeze_row_in_step (thaw : bool) (pats : list string) :
  forall r : Row F, in_step r -> in_step (freeze_row thaw pats r).
Proof.
  induction pats as [|pat pats IH]; intros r E; [exact E|].
  unfold freeze_row. cbn [fold_left]. apply IH, freeze_step_in_step, E.
Qed.

Lemma new_ParamsPanel_in_step (pars : list (Par F)) :
  forall rows, new_ParamsPanel pars = inr rows -> Forall in_step rows.
Proof.
  induction pars as [|p pars IH]; intros rows; cbn.
  - intros E. injection E as <-. constructor.
  - destruct (new_PanelSlider p) as [e|s]; [discriminate|].
    destruct (new_ParamsPanel pars) as [e|rs]; [discriminate|].
    intros E. injection E as <-. constructor; [reflexivity | apply IH; reflexivity].
Qed.

(** X10: checkbox and flag stay in step.  The rows [ParamsPanel.__init__]
    builds show each parameter checked exactly when it is not frozen, and no
    command breaks that: after any [parse_command] every checkbox still is
    the negation of its parameter's [frozen]. *)
Theorem checkbox_in_step
  (DateTime_date : list string -> option (list string)) (command : string)
  (pars : list (Par F)) (rows : list (Row F)) (w : MainWindow F) :
  (new_ParamsPanel pars = inr rows -> Forall in_step rows) /\
  (Forall in_step (table w) ->
   Forall in_step (table (state_of (parse_command DateTime_date command w)))).
Proof.
  split; [apply new_ParamsPanel_in_step|].
  intros I.
  destruct (parse_command_ends DateTime_date command w)
    as [[Es E] | [(thaw & pats & _ & _ & E) | [(line & E) | (mask & E & _)]]];
    rewrite E; unfold state_of; cbn; trivial.
  apply Forall_map. apply (Forall_impl _ (freeze_row_in_step thaw pats)), I.
Qed.

(** X11: a command that is refused changes nothing but the output.  An
    unknown first word, [freeze], [thaw] or [ignore] without an argument,
    and [notice] with one, each print one line and leave the table, the
    mask and the plots as they were. *)
Theorem refused_command_prints
  (DateTime_date : list string -> option (list string)) (command cmd : string)
  (args : list string) (w : MainWindow F) :
  split command = cmd :: args ->
  known_command cmd = false \/
  (cmd <> "notice" /\ args = []) \/
  (cmd = "notice" /\ args <> []) ->
  exists line,
    parse_command DateTime_date command w =
      (with_printed (printed w ++ [line]) w, inr tt).
Proof.
  intros Es Hbad. unfold parse_command. rewrite Es.
  destruct Hbad as [Hk | [[Hn Ha] | [Hn Ha]]].
  - rewrite Hk. cbn [negb orb]. eexists. reflexivity.
  - subst args.
    assert (En : String.eqb cmd "notice" = false)
      by (apply String.eqb_neq; exact Hn).
    rewrite En. cbn [negb length Nat.ltb Nat.leb andb].
    rewrite orb_true_r. eexists. reflexivity.
  - subst cmd. cbn. destruct args; [congruence|]. eexists. reflexivity.
Qed.

(** X12: freeze and thaw are idempotent: run twice, the same command
    leaves the table it left the first time. *)
Theorem freeze_twice
  (DateTime_date : list string -> option (list string)) (thaw : bool)
  (command : string) (pats : list string) (w : MainWindow F) :
  split command = keyword thaw :: pats ->
  table (state_of (parse_command DateTime_date command
                     (state_of (parse_command DateTime_date command w)))) =
  table (state_of (parse_command DateTime_date command w)).
Proof.
  intros Es.
  destruct (parse_command_ends DateTime_date command w)
    as [[Es' E] | [(thaw' & pats' & Es' & _ & E) | [(line & E) | (mask & E & _)]]].
  - rewrite E. unfold state_of. cbn. rewrite E. reflexivity.
  - rewrite E. unfold state_of. cbn [fst].
    destruct (parse_command_ends DateTime_date command
                (with_table (map (freeze_row thaw' pats') (table w)) w))
      as [[Es2 E2] | [(t2 & p2 & Es2 & _ & E2) | [(l2 & E2) | (m2 & E2 & _)]]];
      rewrite E2; cbn; trivial.
    rewrite Es' in Es2. 
    assert (t2 = thaw' /\ p2 = pats') as [-> ->].
    { destruct t2, thaw'; cbn in Es2; injection Es2; auto; discriminate. }
    rewrite map_map. apply map_ext. intros r.
    destruct (freeze_row_spec thaw' pats' r) as (N & Y & No).
    destruct (matches_any pats' (full_name (par r))) eqn:Em.
    + destruct (Y eq_refl) as [Hf Hc].
      apply freeze_row_keeps; assumption.
    + rewrite (No eq_refl). apply No. reflexivity.
  - rewrite E. unfold state_of. cbn [fst].
    destruct (parse_command_ends DateTime_date command
                (with_printed (printed w ++ [line]) w))
      as [[Es2 E2] | [(t2 & p2 & Es2 & Hne & E2) | [(l2 & E2) | (m2 & E2 & _)]]];
      rewrite E2; cbn; trivial.
    exfalso. unfold parse_command in E. rewrite Es2 in E.
    destruct p2 as [|pat p2]; [congruence|].
    assert (E' : printed w = printed w ++ [line])
      by (destruct t2; exact (f_equal (fun x => printed (fst x)) E)).
    apply (f_equal (@length string)) in E'. rewrite length_app in E'.
    cbn in E'. lia.
  - exfalso. unfold parse_command in E. rewrite Es in E.
    assert (E' : plot_calls w = plot_calls w ++ [true])
      by (destruct pats as [|pat pats]; destruct thaw;
          exact (f_equal (fun x => plot_calls (fst x)) E)).
    apply (f_equal (@length bool)) in E'. rewrite length_app in E'.
    cbn in E'. lia.
Qed.

End Commands.

(** *** Strings *)

Lemma string_of_snoc (l : list ascii) (c : ascii) (s : string) :
  (string_of_list_ascii (l ++ [c]) ++ s)%string =
  (string_of_list_ascii l ++ String c s)%string.
Proof. induction l as [|d l IH]; cbn; [reflexivity | now rewrite IH]. Qed.

Lemma split_on_from_none (sep : ascii) (s : string) :
  forall cur, has_char sep s = false ->
  split_on_from sep cur s = [(string_of_list_ascii (rev cur) ++ s)%string].
Proof.
  induction s as [|c s IH]; intros cur E; cbn in *.
  - f_equal. generalize (string_of_list_ascii (rev cur)).
    intros t. induction t as [|d t IHt]; cbn; congruence.
  - apply orb_false_iff in E. destruct E as [E1 E2]. rewrite E1.
    rewrite (IH (c :: cur) E2). cbn [rev]. now rewrite string_of_snoc.
Qed.

(** [(a + sep + b).split(sep)] is [[a, b]] when neither holds the
    separator. *)
Lemma split_on_two (sep : ascii) (a b : string) :
  has_char sep a = false -> has_char sep b = false ->
  split_on sep (a ++ String sep b) = [a; b].
Proof.
  intros Ea Eb. unfold split_on.
  assert (G : forall cur,
    split_on_from sep cur (a ++ String sep b) =
    [(string_of_list_ascii (rev cur) ++ a)%string; b]).
  { induction a as [|c a IH]; intros cur; cbn in *.
    - rewrite Ascii.eqb_refl. rewrite (split_on_from_none sep b [] Eb). cbn.
      f_equal. generalize (string_of_list_ascii (rev cur)).
      intros t. induction t as [|d t IHt]; cbn; congruence.
    - apply orb_false_iff in Ea. destruct Ea as [E1 E2]. rewrite E1.
      rewrite (IH E2 (c :: cur)). cbn [rev]. now rewrite string_of_snoc. }
  rewrite G. reflexivity.
Qed.

Lemma split_from_nonempty (s : string) :
  forall cur, cur <> [] -> split_from cur s <> [].
Proof.
  induction s as [|c s IH]; intros cur Hc; cbn.
  - destruct cur; [congruence | discriminate].
  - destruct (is_space c).
    + destruct cur; [congruence | discriminate].
    + apply IH. discriminate.
Qed.

Lemma lstrip_head (s : string) (c : ascii) (t : string) :
  lstrip s = String c t -> is_space c = false.
Proof.
  induction s as [|d s IH]; cbn; [discriminate|].
  destruct (is_space d) eqn:E; [exact IH|].
  intros E'. injection E' as <- _. exact E.
Qed.

Lemma rstrip_head (s : string) (c : ascii) (t : string) :
  is_space c = false -> exists t', rstrip (String c s) = String c t'.
Proof.
  intros E. cbn. destruct (rstrip s); [rewrite E|]; eexists; reflexivity.
Qed.

(** A stripped text that is not empty has a token. *)
Lemma split_strip_nonempty (s : string) :
  strip s <> EmptyString -> split (strip s) <> [].
Proof.
  unfold strip. destruct (lstrip s) as [|c t] eqn:E; [cbn; congruence|].
  intros _. destruct (rstrip_head t c t (lstrip_head s c t E)) as [t' ->].
  unfold split. cbn [split_from]. rewrite (lstrip_head s c t E).
  apply split_from_nonempty. discriminate.
Qed.

Section CommandEntry.

Context {F : Type} `{PyFloat F}.

(** X13: the command entry never raises.  A blank text changes nothing;
    any other text is stripped and parsed, so that [parse_command] always
    finds a first word, and the entry is cleared. *)
Theorem command_activated_returns
  (DateTime_date : list string -> option (list string)) (entry : string)
  (w : MainWindow F) :
  outcome (command_activated DateTime_date (entry, w)) = inr tt /\
  (strip entry = EmptyString ->
   state_of (command_activated DateTime_date (entry, w)) = (entry, w)) /\
  (strip entry <> EmptyString ->
   state_of (command_activated DateTime_date (entry, w)) =
     (EmptyString, state_of (parse_command DateTime_date (strip entry) w))).
Proof.
  remember (command_activated DateTime_date (entry, w)) as X eqn:EX.
  unfold command_activated in EX. rewrite bind_state in EX.
  unfold get at 1 in EX. cbn [fst] in EX.
  destruct (String.eqb (strip entry) EmptyString) eqn:E.
  - apply String.eqb_eq in E. subst X. cbn.
    split; [reflexivity|]. split; [reflexivity | congruence].
  - apply String.eqb_neq in E.
    rewrite bind_state in EX. unfold zoom in EX. cbn [snd fst] in EX.
    destruct (parse_command_ends DateTime_date (strip entry) w)
      as [[Es _] | R].
    { exfalso. exact (split_strip_nonempty entry E Es). }
    assert (O : outcome (parse_command DateTime_date (strip entry) w) = inr tt).
    { destruct R as [(t & p & _ & _ & ->) | [(l & ->) | (m & -> & _)]];
        reflexivity. }
    unfold outcome, state_of in *.
    destruct (parse_command DateTime_date (strip entry) w) as [w' r].
    cbn in O. subst r. subst X. cbn.
    split; [reflexivity|]. split; [intros E'; contradiction | reflexivity].
Qed.

(** X14: [ignore] adds one interval or none.  Whatever its argument, the
    command returns and leaves the table alone; either the dates of one
    interval were added to the mask, the plots redrawn once and nothing
    printed, or the mask and the plots are as before and one line reports
    the argument. *)
Theorem ignore_appends_or_reports
  (DateTime_date : list string -> option (list string)) (command arg : string)
  (more : list string) (w : MainWindow F) :
  split command = "ignore" :: arg :: more ->
  outcome (parse_command DateTime_date command w) = inr tt /\
  table (state_of (parse_command DateTime_date command w)) = table w /\
  ((exists dates,
      mask_times (state_of (parse_command DateTime_date command w)) =
        mask_times w ++ [dates] /\
      plot_calls (state_of (parse_command DateTime_date command w)) =
        plot_calls w ++ [true] /\
      printed (state_of (parse_command DateTime_date command w)) = printed w) \/
   (mask_times (state_of (parse_command DateTime_date command w)) = mask_times w /\
    plot_calls (state_of (parse_command DateTime_date command w)) = plot_calls w /\
    printed (state_of (parse_command DateTime_date command w)) =
      printed w ++ [("Invalid input for ignore: " ++ arg)%string])).
Proof.
  intros Es.
  remember (parse_command DateTime_date command w) as X eqn:EX.
  unfold parse_command in EX. rewrite Es in EX.
  cbn -[split_on star_to String.append] in EX.
  unfold bind, get in EX. cbn beta iota in EX.
  destruct (split_on "-" arg) as [|start [|stop pieces]];
    try (subst X; cbn; split; [reflexivity|]; split; [reflexivity|];
         right; auto).
  destruct (DateTime_date _) as [dates|]; subst X; cbn;
    (split; [reflexivity|]); (split; [reflexivity|]).
  - left. exists dates. auto.
  - right. auto.
Qed.

(** X15: the range of [ignore].  For an argument [start-stop] with no other
    dash, the dates handed to [DateTime] are the two sides, a side that is
    [*] replaced by the model's start or stop date, and what [DateTime]
    returns for them is the interval added. *)
Theorem ignore_range
  (DateTime_date : list string -> option (list string))
  (command start stop : string) (more dates : list string) (w : MainWindow F) :
  split command = "ignore" :: (start ++ String "-" stop)%string :: more ->
  has_char "-" start = false -> has_char "-" stop = false ->
  DateTime_date [star_to (datestart w) start; star_to (datestop w) stop]
    = Some dates ->
  parse_command DateTime_date command w =
    (with_plot_calls (plot_calls w ++ [true])
       (with_mask_times (mask_times w ++ [dates]) w), inr tt).
Proof.
  intros Es Ea Eb Ed. unfold parse_command. rewrite Es.
  cbn -[split_on star_to String.append].
  unfold bind, get. cbn beta iota.
  rewrite (split_on_two "-" start stop Ea Eb), Ed. reflexivity.
Qed.

End CommandEntry.

(** The window of foo.bar and qux.bar after [freeze foo*]. *)
Lemma checkbox_in_step_witness : Forall in_step (table froze_foo).
Proof.
  apply (proj2 (checkbox_in_step (fun _ => None) "freeze foo*" [] []
                  (foo_qux []))).
  repeat constructor.
Defined.

(** The command [bogus]. *)
Lemma refused_command_prints_witness :
  exists line,
    parse_command (fun _ => None) "bogus" (foo_qux []) =
      (with_printed (printed (foo_qux []) ++ [line]) (foo_qux []), inr tt).
Proof.
  exact (refused_command_prints (fun _ => None) "bogus" "bogus" []
           (foo_qux []) eq_refl (or_introl eq_refl)).
Defined.

(** [freeze foo*] twice. *)
Lemma freeze_twice_witness :
  table (state_of (parse_command (fun _ => None) "freeze foo*" froze_foo)) =
  table froze_foo.
Proof.
  exact (freeze_twice (fun _ => None) false "freeze foo*" ["foo*"]
           (foo_qux []) eq_refl).
Defined.

(** The entry holding [ notice ]. *)
Lemma command_activated_returns_witness :
  state_of (command_activated (fun _ => None) (" notice ", foo_qux [])) =
    (EmptyString, state_of (parse_command (fun _ => None) "notice" (foo_qux []))).
Proof.
  apply (proj2 (proj2 (command_activated_returns (fun _ => None) " notice "
                         (foo_qux [])))).
  discriminate.
Defined.

(** [ignore *-2020:010] with a [DateTime] that takes every date. *)
Lemma ignore_appends_or_reports_witness :
  outcome (parse_command (fun l => Some l) "ignore *-2020:010" (foo_qux []))
    = inr tt /\
  table (state_of (parse_command (fun l => Some l) "ignore *-2020:010"
                     (foo_qux []))) = table (foo_qux []).
Proof.
  destruct (ignore_appends_or_reports (fun l => Some l) "ignore *-2020:010"
              "*-2020:010" [] (foo_qux []) eq_refl) as (A & B & _).
  split; [exact A | exact B].
Defined.

(** [ignore *-2020:010] on a model that starts on 2020:001. *)
Lemma ignore_range_witness :
  mask_times (state_of (parse_command (fun l => Some l) "ignore *-2020:010"
                          (foo_qux []))) = [["2020:001"; "2020:010"]].
Proof.
  rewrite (ignore_range (fun l => Some l) "ignore *-2020:010" "*" "2020:010" []
             ["2020:001"; "2020:010"] (foo_qux []) eq_refl eq_refl eq_refl eq_refl).
  reflexivity.
Defined.

(** ** The fit monitor, tick by tick *)

Section Ticks.

Context {F : Type} `{PyFloat F}.

(** The banner of a stopped fit. *)
Lemma stopped_fields (st : string) (w : MainWindow F) :
  joins (stopped st w) = S (joins w) /\ table (stopped st w) = table w /\
  timers (stopped st w) = timers w /\ assigned (stopped st w) = assigned w /\
  parent_pipe (stopped st w) = parent_pipe w.
Proof. unfold stopped. cbn. auto. Qed.

(** What the loop leaves, whatever waits in the pipe: it only takes
    messages off the front, joins exactly when it stops, and stops only on a
    message it returns. *)
Lemma recv_loop_shape (q : list (Msg F)) :
  forall (last : option (Msg F)) (w : MainWindow F),
  parent_pipe w = q ->
  exists consumed,
    q = consumed ++ parent_pipe (state_of (recv_loop q last w)) /\
    table (state_of (recv_loop q last w)) = table w /\
    timers (state_of (recv_loop q last w)) = timers w /\
    assigned (state_of (recv_loop q last w)) = assigned w /\
    match outcome (recv_loop q last w) with
    | inl _ => joins (state_of (recv_loop q last w)) = joins w
    | inr (m, true) =>
        joins (state_of (recv_loop q last w)) = S (joins w) /\ m <> None
    | inr (_, false) => joins (state_of (recv_loop q last w)) = joins w
    end.
Proof.
  induction q as [|m q IH]; intros last w Hq.
  - exists []. cbn. auto.
  - destruct (status m) as [st|] eqn:E.
    + destruct (terminal st) eqn:T.
      * rewrite (recv_loop_terminal m q last w st E T).
        exists [m]. unfold state_of, outcome. cbn. repeat split; discriminate.
      * rewrite (recv_loop_running m q last w st E T).
        destruct (IH (Some m) (with_parent_pipe q w) eq_refl)
          as (consumed & A & B & C & D & G).
        exists (m :: consumed). cbn [app]. rewrite <- A.
        repeat split; trivial.
    + rewrite (recv_loop_no_status m q last w E).
      exists [m]. unfold state_of, outcome. cbn. auto.
Qed.

(** What follows the loop: the vector of the last message is assigned and
    shown, and the timer is armed when the fit has not stopped and nothing
    raised. *)
Lemma fit_monitor_applied (w w1 : MainWindow F) (m : Msg F) (stop : bool)
  (vals : list F) :
  recv_loop (parent_pipe w) None w = (w1, inr (Some m, stop)) ->
  parvals m = Some vals -> length vals = length (table w1) ->
  get_parvals (state_of (fit_monitor w)) = vals /\
  assigned (state_of (fit_monitor w)) = assigned w1 ++ [vals] /\
  joins (state_of (fit_monitor w)) = joins w1 /\
  parent_pipe (state_of (fit_monitor w)) = parent_pipe w1 /\
  printed (state_of (fit_monitor w)) = printed w1 /\
  (outcome (fit_monitor w) = inr tt /\
   timers (state_of (fit_monitor w)) =
     timers w1 ++ (if stop then [] else [200]) /\
   plot_calls (state_of (fit_monitor w)) = plot_calls w1 ++ [stop] \/
   (exists e, outcome (fit_monitor w) = inl e) /\
   timers (state_of (fit_monitor w)) = timers w1 /\
   plot_calls (state_of (fit_monitor w)) = plot_calls w1).
Proof.
  intros L Hp Hl.
  set (w2 := with_assigned (assigned w1 ++ [vals])
       (with_table (map (fun rv => with_par_of (set_val (snd rv)) (fst rv))
                        (combine (table w1) vals)) w1)).
  assert (E2 : get_parvals w2 = vals) by
    (unfold w2, get_parvals; cbn; rewrite combine_vals by exact Hl; reflexivity).
  destruct (update_frame w2) as (A' & B' & C' & D' & E' & G').
  assert (P' : plot_calls (state_of (update w2)) = plot_calls w2).
  { unfold update, state_of. destruct (for_each update_row (table w2)). reflexivity. }
  remember (fit_monitor w) as X eqn:EX.
  unfold fit_monitor in EX. rewrite bind_state in EX. unfold get at 1 in EX.
  rewrite bind_state, L in EX. rewrite bind_state in EX.
  unfold nonempty in EX. rewrite Hp in EX.
  assert (N : match status m with Some _ | _ => true end = true)
    by (destruct (status m); trivial).
  rewrite N in EX. unfold when, getitem in EX. rewrite !bind_state in EX.
  unfold ret at 1 in EX. rewrite bind_state in EX.
  rewrite (set_parvals_ok vals w1 Hl) in EX. fold w2 in EX.
  rewrite bind_state in EX. unfold state_of in *.
  destruct (update w2) as [w3 [e|[]]]; cbn [fst] in *.
  - subst X. cbn -[get_parvals].
    rewrite A', B', C', D', E', G', P', E2. unfold w2. cbn.
    repeat split; trivial. right. repeat split; trivial. eexists. reflexivity.
  - rewrite bind_state in EX. unfold update_plots_box, modify at 1 in EX.
    rewrite bind_state in EX. unfold get at 1 in EX. cbn beta iota in EX.
    assert (G : forall b, get_parvals
                  (with_plot_calls b w3) = get_parvals w3) by reflexivity.
    destruct (show_line _); destruct stop; subst X; cbn -[get_parvals];
      unfold get_parvals in *; cbn;
      rewrite A', B', C', D', E', G', P', E2; unfold w2; cbn;
      repeat split; trivial; left; rewrite ?app_nil_r; repeat split; trivial.
Qed.

(** X16: a tick joins or re-arms, never both.  Whatever waits in the pipe,
    [fit_monitor] only takes messages off its front, and ends in one of
    three ways: it joined the worker once and armed no timer; it returned
    without a join and armed exactly one timer of 200 ms; or it raised,
    with no join and no timer. *)
Theorem tick_joins_or_rearms (w : MainWindow F) :
  (exists consumed,
     parent_pipe w = consumed ++ parent_pipe (state_of (fit_monitor w))) /\
  (joins (state_of (fit_monitor w)) = S (joins w) /\
   timers (state_of (fit_monitor w)) = timers w \/
   joins (state_of (fit_monitor w)) = joins w /\
   timers (state_of (fit_monitor w)) = timers w ++ [200] /\
   outcome (fit_monitor w) = inr tt \/
   joins (state_of (fit_monitor w)) = joins w /\
   timers (state_of (fit_monitor w)) = timers w /\
   exists e, outcome (fit_monitor w) = inl e).
Proof.
  destruct (recv_loop_shape (parent_pipe w) None w eq_refl)
    as (consumed & A & B & C & D & G).
  destruct (recv_loop (parent_pipe w) None w) as [w1 r] eqn:L.
  unfold state_of, outcome in A, B, C, D, G. cbn [fst snd] in A, B, C, D, G.
  destruct r as [e|[msg stop]].
  - rewrite (fit_monitor_raised w w1 e L). unfold state_of, outcome. cbn.
    split; [exists consumed; exact A|]. right. right.
    repeat split; trivial. eexists. reflexivity.
  - destruct msg as [m|].
    + destruct (parvals m) as [vals|] eqn:Hp.
      * destruct (Nat.eq_dec (length vals) (length (table w1))) as [Hl|Hl].
        -- destruct (fit_monitor_applied w w1 m stop vals L Hp Hl)
             as (_ & _ & J & P & _ & [(O & T & _) | ((e & O) & T & _)]);
             (split; [exists consumed; rewrite P; exact A|]);
             rewrite J, T, O; destruct stop.
           ++ destruct G as [G _]. left. rewrite app_nil_r. split; [exact G|exact C].
           ++ right. left. rewrite C. auto.
           ++ destruct G as [G _]. left. auto.
           ++ right. right. repeat split; trivial. eexists. reflexivity.
        -- rewrite (fit_monitor_mismatch w w1 m stop vals L Hp Hl).
           unfold state_of, outcome. cbn.
           split; [exists consumed; exact A|].
           destruct stop; [destruct G as [G _]; left; auto|].
           right. right. repeat split; trivial. eexists. reflexivity.
      * destruct (status m) as [st|] eqn:Hs.
        -- rewrite (fit_monitor_no_parvals w w1 m stop L); trivial;
             [|congruence].
           unfold state_of, outcome. cbn.
           split; [exists consumed; exact A|].
           destruct stop; [destruct G as [G _]; left; auto|].
           right. right. repeat split; trivial. eexists. reflexivity.
        -- (* an empty dict is skipped *)
           remember (fit_monitor w) as X eqn:EX.
           unfold fit_monitor in EX. rewrite bind_state in EX.
           unfold get at 1 in EX. rewrite bind_state, L in EX.
           rewrite bind_state in EX. unfold nonempty in EX.
           rewrite Hs, Hp in EX. unfold when, ret at 1 in EX.
           destruct stop; subst X; unfold state_of, outcome; cbn;
             (split; [exists consumed; exact A|]).
           ++ destruct G as [G _]. left. auto.
           ++ right. left. rewrite C. auto.
    + destruct stop; [destruct G as [_ G]; congruence|].
      remember (fit_monitor w) as X eqn:EX.
      unfold fit_monitor in EX. rewrite bind_state in EX.
      unfold get at 1 in EX. rewrite bind_state, L in EX.
      subst X. unfold state_of, outcome. cbn.
      split; [exists consumed; exact A|]. right. left. rewrite C. auto.
Qed.

(** X17: a tick on running messages only, the line of the plots not
    shown ([show_line] false, so that the line-data window is not
    called).  When every waiting message is running and the last one
    carries a vector of the model's length, the tick empties the pipe,
    assigns that vector and no other, joins nothing and prints nothing; it
    then either returns with the plots redrawn once (not forced) and one
    timer of 200 ms armed, or the refresh of the panel raised and no timer
    is armed. *)
Theorem running_batch_rearms (w : MainWindow F) (pre : list (Msg F))
  (m : Msg F) (vals : list F) :
  show_line w = false ->
  parent_pipe w = pre ++ [m] ->
  Forall running pre -> running m ->
  parvals m = Some vals -> length vals = length (table w) ->
  parent_pipe (state_of (fit_monitor w)) = [] /\
  assigned (state_of (fit_monitor w)) = assigned w ++ [vals] /\
  get_parvals (state_of (fit_monitor w)) = vals /\
  joins (state_of (fit_monitor w)) = joins w /\
  printed (state_of (fit_monitor w)) = printed w /\
  (outcome (fit_monitor w) = inr tt /\
   timers (state_of (fit_monitor w)) = timers w ++ [200] /\
   plot_calls (state_of (fit_monitor w)) = plot_calls w ++ [false] \/
   (exists e, outcome (fit_monitor w) = inl e) /\
   timers (state_of (fit_monitor w)) = timers w /\
   plot_calls (state_of (fit_monitor w)) = plot_calls w).
Proof.
  intros _ Hq Hr (st & E & T) Hp Hl.
  destruct (fit_monitor_applied w (with_parent_pipe [] w) m false vals)
    as (A & B & C & D & G & K); trivial.
  - rewrite Hq. apply (recv_loop_drains pre m w st); assumption.
  - repeat split; trivial.
Qed.

(** X18: a terminal message ends the tick where it stands.  When running
    messages are followed by a terminal one (finished or terminated) with
    a vector of the model's length, the messages behind it stay in the
    pipe unread, its vector is the only one assigned, the banner with the
    status in capitals is printed, the worker is joined once and no timer
    is armed. *)
Theorem terminal_message_ends_tick (w : MainWindow F) (pre : list (Msg F))
  (m : Msg F) (rest : list (Msg F)) (st : string) (vals : list F) :
  parent_pipe w = pre ++ m :: rest ->
  Forall running pre ->
  status m = Some st -> terminal st = true ->
  parvals m = Some vals -> length vals = length (table w) ->
  parent_pipe (state_of (fit_monitor w)) = rest /\
  assigned (state_of (fit_monitor w)) = assigned w ++ [vals] /\
  get_parvals (state_of (fit_monitor w)) = vals /\
  printed (state_of (fit_monitor w)) =
    printed w ++ [(newline ++ stars)%string; ("  FIT " ++ upper st)%string;
                  (stars ++ newline)%string] /\
  joins (state_of (fit_monitor w)) = S (joins w) /\
  timers (state_of (fit_monitor w)) = timers w.
Proof.
  intros Hq Hr E T Hp Hl.
  destruct (fit_monitor_applied w (stopped st (with_parent_pipe rest w)) m
              true vals) as (A & B & C & D & G & K); trivial.
  - rewrite Hq. apply recv_loop_stops; assumption.
  - rewrite A, B, C, D, G. repeat split; trivial.
    destruct K as [(_ & K & _)|(_ & K & _)]; rewrite K; cbn;
      rewrite ?app_nil_r; reflexivity.
Qed.

End Ticks.

Lemma running_batch_rearms_witness :
  let w := foo_qux [mkMsg (Some "running") (Some [1; 2]%float);
                    mkMsg (Some "running") (Some [1; 3]%float)] in
  parent_pipe (state_of (fit_monitor w)) = [] /\
  assigned (state_of (fit_monitor w)) = assigned w ++ [[1; 3]%float] /\
  get_parvals (state_of (fit_monitor w)) = [1; 3]%float /\
  joins (state_of (fit_monitor w)) = joins w /\
  printed (state_of (fit_monitor w)) = printed w /\
  (outcome (fit_monitor w) = inr tt /\
   timers (state_of (fit_monitor w)) = timers w ++ [200] /\
   plot_calls (state_of (fit_monitor w)) = plot_calls w ++ [false] \/
   (exists e, outcome (fit_monitor w) = inl e) /\
   timers (state_of (fit_monitor w)) = timers w /\
   plot_calls (state_of (fit_monitor w)) = plot_calls w).
Proof.
  exact (running_batch_rearms
           (foo_qux [mkMsg (Some "running") (Some [1; 2]%float);
                     mkMsg (Some "running") (Some [1; 3]%float)])
           [mkMsg (Some "running") (Some [1; 2]%float)]
           (mkMsg (Some "running") (Some [1; 3]%float)) [1; 3]%float
           eq_refl eq_refl
           (Forall_cons _ (running_is_running _) (Forall_nil _))
           (running_is_running _) eq_refl eq_refl).
Defined.

Lemma terminal_message_ends_tick_witness :
  let late := mkMsg (Some "running") (Some [9; 9]%float) in
  let w := foo_qux [mkMsg (Some "running") (Some [1; 2]%float);
                    mkMsg (Some "terminated") (Some [1; 4]%float); late] in
  parent_pipe (state_of (fit_monitor w)) = [late] /\
  assigned (state_of (fit_monitor w)) = assigned w ++ [[1; 4]%float] /\
  get_parvals (state_of (fit_monitor w)) = [1; 4]%float /\
  printed (state_of (fit_monitor w)) =
    printed w ++ [(newline ++ stars)%string;
                  ("  FIT " ++ upper "terminated")%string;
                  (stars ++ newline)%string] /\
  joins (state_of (fit_monitor w)) = S (joins w) /\
  timers (state_of (fit_monitor w)) = timers w.
Proof.
  exact (terminal_message_ends_tick
           (foo_qux [mkMsg (Some "running") (Some [1; 2]%float);
                     mkMsg (Some "terminated") (Some [1; 4]%float);
                     mkMsg (Some "running") (Some [9; 9]%float)])
           [mkMsg (Some "running") (Some [1; 2]%float)]
           (mkMsg (Some "terminated") (Some [1; 4]%float))
           [mkMsg (Some "running") (Some [9; 9]%float)]
           "terminated" [1; 4]%float
           eq_refl
           (Forall_cons _ (running_is_running _) (Forall_nil _))
           eq_refl eq_refl eq_refl eq_refl).
Defined.

(** ** The panel of parameters: built and refreshed *)

Section Refresh.

Context {F : Type} `{PyFloat F}.

(** A conversion that raises leaves the slider where it stood. *)
Lemma set_step_from_value_raises (v : F) (s : PanelSlider F) (e : exn) :
  outcome (set_step_from_value v s) = inl e ->
  state_of (set_step_from_value v s) = s.
Proof.
  unfold set_step_from_value, getattr, bind, get, lift, ret, raise, setValue,
    modify, outcome, state_of.
  destruct (dx s) as [d|]; cbn; trivial.
  destruct (fint _) as [e'|step]; cbn; trivial.
  destruct (c_int step) as [e'|k]; cbn; [trivial|discriminate].
Qed.

(** The loop body, case by case. *)
Lemma update_row_cases (r : Row F) :
  update_row r =
    if String.eqb str_of_text_method (fmt (par r) (val (par r)))
    then (r, inr tt)
    else
      let t := setText Val (fmt (par r) (val (par r))) r in
      match set_step_from_value (val (par r))
              (with_update_plots false (slider r)) with
      | (s', inl e) => (with_slider s' t, inl e)
      | (s', inr _) => (with_slider (with_update_plots true s') t, inr tt)
      end.
Proof.
  unfold update_row, bind, get, modify, zoom, block_plotting, ret.
  cbn -[String.eqb set_step_from_value].
  destruct (String.eqb _ _); cbn -[set_step_from_value]; [reflexivity|].
  destruct (set_step_from_value _ _) as [s' [e|[]]]; reflexivity.
Qed.

Lemma shows_number_rewritten (r : Row F) :
  shows_number r ->
  String.eqb str_of_text_method (fmt (par r) (val (par r))) = false.
Proof.
  intros N. apply String.eqb_neq. intros E. exact (N _ (eq_sym E)).
Qed.

Lemma update_row_returns (r : Row F) :
  shows_number r ->
  outcome (update_row r) = inr tt -> refreshed r (state_of (update_row r)).
Proof.
  intros N. rewrite update_row_cases, (shows_number_rewritten r N). cbv zeta.
  pose proof (set_step_from_value_returns (val (par r))
                (with_update_plots false (slider r))) as R.
  unfold outcome, state_of in *.
  destruct (set_step_from_value (val (par r))
              (with_update_plots false (slider r))) as [s' [e|[]]];
    cbn [fst snd]; [discriminate|].
  intros _. destruct (R eq_refl) as (d & step & A & B & C).
  cbn [fst snd] in C. subst s'. cbn in A, B.
  split; [reflexivity|]. split; [reflexivity|]. split; [reflexivity|].
  exists d, step. cbn. auto.
Qed.

Lemma update_row_raises (r : Row F) (e : exn) :
  outcome (update_row r) = inl e ->
  par (state_of (update_row r)) = par r /\
  text_val (state_of (update_row r)) = fmt (par r) (val (par r)) /\
  update_plots (slider (state_of (update_row r))) = false /\
  value (slider (state_of (update_row r))) = value (slider r).
Proof.
  rewrite update_row_cases.
  destruct (String.eqb str_of_text_method (fmt (par r) (val (par r)))) eqn:Es.
  - discriminate.
  - cbv zeta.
    pose proof (set_step_from_value_raises (val (par r))
                  (with_update_plots false (slider r))) as R.
    unfold outcome, state_of in *.
    destruct (set_step_from_value (val (par r))
                (with_update_plots false (slider r))) as [s' [e'|[]]];
      cbn [fst snd]; [|discriminate].
    intros _. cbn [fst snd] in R. rewrite (R e' eq_refl). cbn. auto.
Qed.

Lemma for_each_update_returns (rs : list (Row F)) :
  Forall shows_number rs ->
  snd (for_each update_row rs) = inr tt ->
  Forall2 refreshed rs (fst (for_each update_row rs)).
Proof.
  induction rs as [|r rs IH]; intros N; cbn [for_each fst snd];
    [constructor|].
  inversion N as [|? ? N0 N1]; subst.
  pose proof (update_row_returns r N0) as R. unfold outcome, state_of in R.
  destruct (update_row r) as [r' [e|[]]]; cbn [fst snd] in *; [discriminate|].
  specialize (IH N1).
  destruct (for_each update_row rs) as [rs' o]; cbn [fst snd] in *.
  intros E. constructor; auto.
Qed.

Lemma for_each_update_raises (rs : list (Row F)) (e : exn) :
  Forall shows_number rs ->
  snd (for_each update_row rs) = inl e ->
  exists before before' r r' after,
    rs = before ++ r :: after /\
    fst (for_each update_row rs) = before' ++ r' :: after /\
    Forall2 refreshed before before' /\
    par r' = par r /\
    text_val r' = fmt (par r) (val (par r)) /\
    update_plots (slider r') = false /\
    value (slider r') = value (slider r).
Proof.
  induction rs as [|r rs IH]; intros N; cbn [for_each fst snd];
    [discriminate|].
  inversion N as [|? ? N0 N1]; subst.
  pose proof (update_row_returns r N0) as R.
  pose proof (update_row_raises r) as Q.
  unfold outcome, state_of in R, Q.
  destruct (update_row r) as [r' [e'|[]]]; cbn [fst snd] in *.
  - intros _. destruct (Q e' eq_refl) as (A & B & C & D).
    exists [], [], r, r', rs. cbn [app]. repeat split; trivial; constructor.
  - specialize (IH N1).
    destruct (for_each update_row rs) as [rs' o]; cbn [fst snd] in *.
    intros E. destruct (IH E) as (b & b' & x & x' & a & A & B & C & D).
    exists (r :: b), (r' :: b'), x, x', a. cbn [app]. rewrite A, B.
    repeat split; try apply D. constructor; auto.
Qed.

(** X19: a refresh that raises leaves a slider blocked.  For rows whose
    formatted values do not begin with [<] (so that none is the text of the
    bound method the code compares with), when [ParamsPanel.update] raises
    it stopped at one row: the rows before it are refreshed, the rows after
    it are as they were, and the row itself has its text rewritten to the
    formatted value, its slider where it stood and the slider's
    [update_plots] still off, as [block_plotting(False)] was not
    reached. *)
Theorem refresh_failure_blocks_slider (w : MainWindow F) (e : exn) :
  Forall shows_number (table w) ->
  outcome (update w) = inl e ->
  exists before before' r r' after,
    table w = before ++ r :: after /\
    table (state_of (update w)) = before' ++ r' :: after /\
    Forall2 refreshed before before' /\
    par r' = par r /\
    text_val r' = fmt (par r) (val (par r)) /\
    update_plots (slider r') = false /\
    value (slider r') = value (slider r).
Proof.
  intros N. unfold update, outcome, state_of.
  pose proof (for_each_update_raises (table w) e N) as R.
  destruct (for_each update_row (table w)) as [rs o]. cbn in *. exact R.
Qed.

(** X20: a refresh that returns has brought every row up to date.  For
    rows whose formatted values do not begin with [<], after
    [ParamsPanel.update] returns each row keeps its parameter, shows the
    formatted value, has plotting on again, and its slider stands at
    int((val - parmin) * dx), with the slider's own [parmin] and [dx], kept
    within the slider's range: every row is rewritten, as the comparison
    with [str(val_label.text)] never holds. *)
Theorem refresh_brings_rows_up_to_date (w : MainWindow F) :
  Forall shows_number (table w) ->
  outcome (update w) = inr tt ->
  Forall2 refreshed (table w) (table (state_of (update w))).
Proof.
  intros N. unfold update, outcome, state_of.
  pose proof (for_each_update_returns (table w) N) as R.
  destruct (for_each update_row (table w)) as [rs o]. cbn in *. exact R.
Qed.

(** The slider a parameter gets. *)
Lemma new_PanelSlider_built (p : Par F) (s : PanelSlider F) :
  new_PanelSlider p = inr s ->
  fzero (fsub (max p) (min p)) = false /\
  parmin s = min p /\ parmax s = max p /\ parval s = val p /\
  rescaled s /\ update_plots s = true.
Proof.
  unfold new_PanelSlider. rewrite bind_state. unfold modify at 1.
  set (s1 := mkSlider _ _ _ _ _ _ _ _ _). cbn [fst snd].
  rewrite bind_state.
  destruct (fzero (fsub (max p) (min p))) eqn:E1.
  { rewrite (set_dx_zero_range s1) by exact E1. discriminate. }
  destruct (fzero (scale_of (min p) (max p))) eqn:E2.
  { rewrite (set_dx_zero_scale s1) by assumption. discriminate. }
  rewrite (set_dx_ok s1) by assumption. cbn [fst snd].
  rewrite bind_state.
  destruct (set_step_from_value_frame (val p)
              (with_idx (fquot (of_int 1) (scale_of (parmin s1) (parmax s1)))
                 (with_dx (scale_of (parmin s1) (parmax s1)) s1)))
    as (n & E).
  unfold state_of in E.
  destruct (set_step_from_value _ _) as [s3 [e|[]]]; [discriminate|].
  cbn [fst] in E. subst s3. unfold modify. cbn.
  intros G. injection G as <-. unfold rescaled. cbn. auto 10.
Qed.

(** X21: what the panel is built of.  When [ParamsPanel.__init__] returns,
    there is one row per parameter, in order: the checkbox shows the
    parameter thawed, the three entries show val, min and max formatted,
    and the slider carries the parameter's bounds and value with the
    mapping of those bounds, range 0..100 and plotting on.  No parameter
    of the model then has max - min equal to zero: with one that has, the
    constructor raises. *)
Theorem panel_rows_built (pars : list (Par F)) (rows : list (Row F)) :
  new_ParamsPanel pars = inr rows ->
  Forall2 built pars rows /\
  Forall (fun p => fzero (fsub (max p) (min p)) = false) pars.
Proof.
  revert rows. induction pars as [|p pars IH]; intros rows; cbn.
  - intros E. injection E as <-. split; constructor.
  - destruct (new_PanelSlider p) as [e|s] eqn:Es; [discriminate|].
    destruct (new_ParamsPanel pars) as [e|rs]; [discriminate|].
    intros E. injection E as <-.
    destruct (IH rs eq_refl) as [A B].
    destruct (new_PanelSlider_built p s Es) as (Z0 & P1 & P2 & P3 & R & U).
    pose proof (new_PanelSlider_in_range p s Es) as I.
    split; constructor; trivial.
    unfold built. cbn. auto 12.
Qed.

End Refresh.

Lemma refresh_failure_blocks_slider_witness :
  exists before before' r r' after,
    table lost_value = before ++ r :: after /\
    table (state_of (update lost_value)) = before' ++ r' :: after /\
    Forall2 refreshed before before' /\
    par r' = par r /\
    text_val r' = fmt (par r) (val (par r)) /\
    update_plots (slider r') = false /\
    value (slider r') = value (slider r).
Proof.
  assert (N : Forall shows_number (table lost_value))
    by (repeat constructor; intros t E; discriminate E).
  assert (O : outcome (update lost_value) = inl ValueError)
    by (vm_compute; reflexivity).
  exact (refresh_failure_blocks_slider lost_value ValueError N O).
Defined.

Lemma refresh_brings_rows_up_to_date_witness :
  Forall2 refreshed (table (foo_qux []))
    (table (state_of (update (foo_qux [])))).
Proof.
  assert (N : Forall shows_number (table (foo_qux [])))
    by (repeat constructor; intros t E; discriminate E).
  assert (O : outcome (update (foo_qux [])) = inr tt)
    by (vm_compute; reflexivity).
  exact (refresh_brings_rows_up_to_date (foo_qux []) N O).
Defined.

Lemma panel_rows_built_witness :
  exists rows,
    new_ParamsPanel [par_5_in_0_10] = inr rows /\
    Forall2 built [par_5_in_0_10] rows /\
    Forall (fun p => fzero (fsub (max p) (min p)) = false) [par_5_in_0_10].
Proof.
  assert (O : new_ParamsPanel [par_5_in_0_10] =
              inr [row_of par_5_in_0_10 slider_5_in_0_10])
    by (vm_compute; reflexivity).
  exists [row_of par_5_in_0_10 slider_5_in_0_10].
  split; [exact O|].
  exact (panel_rows_built [par_5_in_0_10] _ O).
Defined.

(** ** The entry a clamp writes into *)

Section ShownBounds.

Context {F : Type} `{PyFloat F}.

Lemma below_min_not_above_max : below_min <> above_max.
Proof. intros E. apply String.eqb_eq in E. vm_compute in E. discriminate E. Qed.

(** When the second test fires, the value is the max and the entry that ran
    the check shows it. *)
Lemma bounds_check_above (a : attr) (p : Panel F) :
  outcome (_bounds_check a p) = inr (Some above_max) ->
  val (par (row (state_of (_bounds_check a p)))) = max (par (row p)) /\
  min (par (row (state_of (_bounds_check a p)))) = min (par (row p)) /\
  max (par (row (state_of (_bounds_check a p)))) = max (par (row p)) /\
  text a (row (state_of (_bounds_check a p))) =
    fmt (par (row p)) (max (par (row p))).
Proof.
  unfold _bounds_check, bind, get, modify, ret, on_row, with_par_of, outcome,
    state_of.
  destruct p as [[[n x lo hi fz fm] c tv tm s tx] pl so]; cbn.
  destruct (fltb x lo) eqn:E1; cbn.
  - destruct (fgtb lo hi) eqn:E2; cbn; intros E.
    + destruct a; repeat split; reflexivity.
    + exfalso. apply below_min_not_above_max.
      exact (f_equal (fun o : exn + option string =>
                        match o with inr (Some m) => m | _ => EmptyString end) E).
  - destruct (fgtb x hi) eqn:E2; cbn; intros E; [|discriminate E].
    destruct a; repeat split; reflexivity.
Qed.

(** X22: the entry that ran the check shows the clamped value.  When a
    write through [set_par_attr] prints the message of the max test, the
    stored value is the max, and the text of the entry that was written
    through (val, min or max) is the format of that value: after a min
    above the max is entered, the min entry shows the max although the
    parameter's min is what was entered. *)
Theorem clamp_rewrites_written_entry (a : attr) (v : F) (p : Panel F) :
  stdout (state_of (set_par_attr a v p)) = stdout p ++ [above_max] ->
  val (par (row (state_of (set_par_attr a v p)))) =
    max (par (row (state_of (set_par_attr a v p)))) /\
  text a (row (state_of (set_par_attr a v p))) =
    fmt (par (row p)) (max (par (row (state_of (set_par_attr a v p))))) /\
  (is_bound a = true ->
   getattr_par a (par (row (state_of (set_par_attr a v p)))) = v).
Proof.
  destruct (set_par_attr_run a v p) as (p1 & msg & s' & r & E1 & E2 & ->).
  unfold state_of. cbn [fst stdout row].
  intros Hs.
  assert (Hm : msg = Some above_max).
  { destruct msg as [m|].
    - apply app_inv_head in Hs. congruence.
    - apply (f_equal (@length string)) in Hs. rewrite length_app in Hs.
      cbn in Hs. lia. }
  subst msg.
  pose proof (bounds_check_above a
                (on_row (with_par_of (setattr_par a v)) p)) as B.
  unfold outcome, state_of in B. rewrite E1 in B. cbn [fst snd] in B.
  destruct (B eq_refl) as (B1 & B2 & B3 & B4).
  assert (T : forall (s : PanelSlider F) (r0 : Row F),
             text a (with_slider s r0) = text a r0)
    by (intros; destruct a; reflexivity).
  assert (Fm : fmt (par (row (on_row (with_par_of (setattr_par a v)) p))) =
               fmt (par (row p))) by (destruct a; reflexivity).
  rewrite T. cbn [par with_slider]. rewrite B1, B3, B4, Fm.
  split; [reflexivity|]. split; [reflexivity|].
  intros Ha. destruct a; [discriminate Ha| |]; cbn [getattr_par].
  - rewrite B2. reflexivity.
  - rewrite B3. reflexivity.
Qed.

End ShownBounds.

Lemma clamp_rewrites_written_entry_witness :
  let p' := state_of (set_par_attr Min 20%float panel_5_in_0_10) in
  val (par (row p')) = max (par (row p')) /\
  text Min (row p') = fmt (par (row panel_5_in_0_10)) (max (par (row p'))) /\
  (is_bound Min = true -> getattr_par Min (par (row p')) = 20%float).
Proof.
  assert (O : stdout (state_of (set_par_attr Min 20%float panel_5_in_0_10)) =
              stdout panel_5_in_0_10 ++ [above_max])
    by (vm_compute; reflexivity).
  exact (clamp_rewrites_written_entry Min 20%float panel_5_in_0_10 O).
Defined.

(** ** The start of the program *)

Lemma find_last {A} (f : A -> bool) (l : list A) (a : A) :
  find f (l ++ [a]) =
  match find f l with
  | Some x => Some x
  | None => if f a then Some a else None
  end.
Proof.
  induction l as [|b l IH]; cbn; [reflexivity|].
  destruct (f b); [reflexivity | exact IH].
Qed.

Lemma dict_getitem_set {V} (k k' : string) (v : V) (d : dict V) :
  dict_getitem k' (dict_setitem k v d) =
  if String.eqb k' k then Some v else dict_getitem k' d.
Proof.
  induction d as [|[k0 v0] d IH]; cbn.
  - reflexivity.
  - destruct (String.eqb k k0) eqn:E; cbn.
    + apply String.eqb_eq in E. subst k0.
      destruct (String.eqb k' k); reflexivity.
    + destruct (String.eqb k' k0) eqn:E0.
      * apply String.eqb_eq in E0. subst k0.
        rewrite String.eqb_sym, E. reflexivity.
      * exact IH.
Qed.

Section InheritFrom.

Context {F : Type} `{PyFloat F}.

(** The dict of the comprehension maps a name to the last entry of that
    name. *)
Lemma inherit_pars_of_last (specs : list (@ParSpec F)) :
  forall d,
  Forall (fun e => spec_full_name e <> None) specs ->
  exists d',
    inherit_pars_of specs d = inr d' /\
    forall n, dict_getitem n d' =
              match last_named n specs with
              | Some e => Some e
              | None => dict_getitem n d
              end.
Proof.
  induction specs as [|e specs IH]; intros d Hn.
  - exists d. split; reflexivity.
  - inversion Hn as [|? ? He Hs]; subst.
    cbn [inherit_pars_of].
    destruct (spec_full_name e) as [m|] eqn:Em; [|congruence].
    destruct (IH (dict_setitem m e d) Hs) as (d' & E & G).
    exists d'. split; [exact E|].
    intros n. rewrite G. unfold last_named. cbn [rev]. rewrite find_last.
    destruct (find _ (rev specs)); [reflexivity|].
    rewrite Em, dict_getitem_set. destruct (String.eqb n m); reflexivity.
Qed.

Lemma last_named_in (n : string) (specs : list (@ParSpec F)) (e : ParSpec) :
  last_named n specs = Some e -> In e specs.
Proof.
  unfold last_named. intros E. apply find_some in E.
  apply in_rev. exact (proj1 E).
Qed.

(** The loop body on a parameter the dict does not hold, and on one it
    holds with every key. *)
Lemma inherit_par_stranger (d : dict ParSpec) (p : Par F) (out : list string) :
  dict_getitem (full_name p) d = None ->
  inherit_par d (p, out) = ((p, out), inr tt).
Proof.
  intros E. unfold inherit_par. rewrite bind_state. unfold get at 1.
  cbn [fst snd]. rewrite E. reflexivity.
Qed.

Lemma inherit_par_named (d : dict ParSpec) (p : Par F) (out : list string)
  (e : ParSpec) :
  dict_getitem (full_name p) d = Some e -> complete e ->
  exists p',
    inherit_par d (p, out) =
      ((p', out ++ [("Inheriting par " ++ full_name p)%string]), inr tt) /\
    full_name p' = full_name p /\
    spec_val e = Some (val p') /\ spec_min e = Some (min p') /\
    spec_max e = Some (max p') /\ spec_frozen e = Some (frozen p') /\
    spec_fmt e = Some (fmt p').
Proof.
  intros E (_ & C1 & C2 & C3 & C4 & C5).
  unfold inherit_par. rewrite bind_state. unfold get at 1.
  cbn [fst snd]. rewrite E.
  destruct (spec_val e) as [v|]; [|congruence].
  destruct (spec_min e) as [lo|]; [|congruence].
  destruct (spec_max e) as [hi|]; [|congruence].
  destruct (spec_frozen e) as [fz|]; [|congruence].
  destruct (spec_fmt e) as [f|]; [|congruence].
  eexists. split; [reflexivity|]. cbn. auto 10.
Qed.

Lemma inherit_loop_complete (specs : list (@ParSpec F)) (d : dict ParSpec)
  (pars : list (Par F)) :
  Forall complete specs ->
  (forall n, dict_getitem n d = last_named n specs) ->
  forall out,
  exists pars',
    inherit_loop d pars out =
      ((pars',
        out ++ map (fun p => ("Inheriting par " ++ full_name p)%string)
                 (filter (named_in specs) pars)), inr tt) /\
    Forall2 (inherited specs) pars pars'.
Proof.
  intros Hc Hd. induction pars as [|p pars IH]; intros out.
  - exists []. cbn. rewrite app_nil_r. split; constructor.
  - cbn [inherit_loop filter]. unfold named_in at 1.
    destruct (last_named (full_name p) specs) as [e|] eqn:El.
    + assert (Ce : complete e).
      { rewrite Forall_forall in Hc. apply Hc.
        exact (last_named_in _ _ _ El). }
      assert (Ed : dict_getitem (full_name p) d = Some e)
        by (rewrite Hd; exact El).
      destruct (inherit_par_named d p out e Ed Ce)
        as (p' & E & N & A1 & A2 & A3 & A4 & A5).
      rewrite E.
      destruct (IH (out ++ [("Inheriting par " ++ full_name p)%string]))
        as (pars' & E' & G').
      rewrite E'. cbn [fst snd map]. exists (p' :: pars').
      rewrite <- app_assoc. split; [reflexivity|].
      constructor; [|exact G'].
      unfold inherited. rewrite El. auto 10.
    + assert (Ed : dict_getitem (full_name p) d = None)
        by (rewrite Hd; exact El).
      rewrite (inherit_par_stranger d p out Ed).
      destruct (IH out) as (pars' & E' & G').
      rewrite E'. cbn [fst snd]. exists (p :: pars').
      split; [reflexivity|].
      constructor; [|exact G'].
      unfold inherited. rewrite El. auto.
Qed.

(** X23: what [--inherit-from] copies.  When every entry of the file has
    its name and the five keys, the loop returns; the parameters keep
    their order and names; a parameter the file does not name is left as
    it was; a parameter it names gets val, min, max, frozen and fmt of the
    last entry of that name, as they are, with no bounds check; and one
    line is printed for each parameter named, in the order of the
    model. *)
Theorem inherit_takes_last_entry (specs : list (@ParSpec F))
  (pars : list (Par F)) (out : list string) :
  Forall complete specs ->
  exists pars',
    inherit_from (Some specs) (pars, out) =
      ((pars',
        out ++ map (fun p => ("Inheriting par " ++ full_name p)%string)
                 (filter (named_in specs) pars)), inr tt) /\
    Forall2 (inherited specs) pars pars'.
Proof.
  intros Hc.
  assert (Hn : Forall (fun e : ParSpec => spec_full_name e <> None) specs).
  { eapply Forall_impl; [|exact Hc]. intros e C. exact (proj1 C). }
  destruct (inherit_pars_of_last specs [] Hn) as (d & Ed & Gd).
  destruct (inherit_loop_complete specs d pars Hc) with (out := out)
    as (pars' & E & G).
  { intros n. rewrite Gd. destruct (last_named n specs); reflexivity. }
  exists pars'. split; [|exact G].
  unfold inherit_from. rewrite bind_state. cbn [getitem].
  unfold ret at 1. rewrite bind_state. unfold lift at 1. rewrite Ed.
  cbn [fst snd]. exact E.
Qed.

End InheritFrom.

Lemma inherit_takes_last_entry_witness :
  exists pars',
    inherit_from (Some two_for_foo) (foo_qux_pars, []) =
      ((pars',
        [] ++ map (fun p => ("Inheriting par " ++ full_name p)%string)
                (filter (named_in two_for_foo) foo_qux_pars)), inr tt) /\
    Forall2 (inherited two_for_foo) foo_qux_pars pars'.
Proof.
  apply (inherit_takes_last_entry two_for_foo foo_qux_pars []).
  repeat constructor; discriminate.
Defined.

(** The parameters of the example afterwards: [foo.bar] has the values of
    the second entry of its name, val 20 above max 8; [qux.bar] is as it
    was. *)
Lemma inherit_example :
  inherit_from (Some two_for_foo) (foo_qux_pars, []) =
    (([mkPar "foo.bar" 20%float 0%float 8%float false (fun _ => "second");
       mkPar "qux.bar" 5%float 0%float 10%float false fmt_mark],
      ["Inheriting par foo.bar"]), inr tt).
Proof. reflexivity. Qed.

(** *** [--set-data] *)

Lemma count_char_remove_space (sep : ascii) (s : string) :
  is_space sep = false ->
  count_char sep (remove_space s) = count_char sep s.
Proof.
  intros Hs. induction s as [|c s IH]; cbn; [reflexivity|].
  destruct (is_space c) eqn:Ec; cbn; rewrite IH.
  - destruct (Ascii.eqb c sep) eqn:E; [|reflexivity].
    apply Ascii.eqb_eq in E. congruence.
  - reflexivity.
Qed.

Lemma count_char_app (sep : ascii) (a b : string) :
  count_char sep (a ++ b) = (count_char sep a + count_char sep b)%nat.
Proof.
  induction a as [|c a IH]; cbn; [reflexivity|]. rewrite IH. lia.
Qed.

Lemma count_char_zero (sep : ascii) (s : string) :
  count_char sep s = 0%nat <-> has_char sep s = false.
Proof.
  induction s as [|c s IH]; cbn; [tauto|].
  destruct (Ascii.eqb c sep); cbn; [split; discriminate | exact IH].
Qed.

(** [len(s.split(sep))] is [s.count(sep) + 1]. *)
Lemma split_on_from_length (sep : ascii) (s : string) :
  forall cur, length (split_on_from sep cur s) = S (count_char sep s).
Proof.
  induction s as [|c s IH]; intros cur; cbn; [reflexivity|].
  destruct (Ascii.eqb c sep); cbn; rewrite IH; reflexivity.
Qed.

(** [sep.join(s.split(sep))] is [s]. *)
Lemma split_on_from_join (sep : ascii) (s : string) :
  forall cur,
  String.concat (String sep EmptyString) (split_on_from sep cur s) =
  (string_of_list_ascii (rev cur) ++ s)%string.
Proof.
  induction s as [|c s IH]; intros cur.
  - cbn. generalize (string_of_list_ascii (rev cur)).
    intros t. induction t as [|d t IHt]; cbn; congruence.
  - cbn [split_on_from]. destruct (Ascii.eqb c sep) eqn:E.
    + apply Ascii.eqb_eq in E. subst c.
      pose proof (split_on_from_length sep s []) as L.
      pose proof (IH []) as J. cbn [rev string_of_list_ascii] in J.
      destruct (split_on_from sep [] s) as [|x xs]; [discriminate L|].
      cbn [String.concat] in *. rewrite J. reflexivity.
    + rewrite (IH (c :: cur)). cbn [rev]. apply string_of_snoc.
Qed.

Section SetDataExprs.

Variable V : Type.
Variable literal_eval : string -> exn + V.

(** An expression with one [=]: the two sides. *)
Lemma split_on_one (s : string) :
  count_char "=" s = 1%nat ->
  exists n t,
    split_on "=" s = [n; t] /\ s = (n ++ String "=" t)%string /\
    has_char "=" n = false /\ has_char "=" t = false.
Proof.
  intros C. unfold split_on.
  pose proof (split_on_from_length "=" s []) as L.
  pose proof (split_on_from_join "=" s []) as J.
  destruct (split_on_from "=" [] s) as [|n [|t [|x xs]]];
    cbn [length] in L; try lia.
  exists n, t. cbn in J. split; [reflexivity|].
  split; [symmetry; exact J|].
  rewrite <- J in C. rewrite count_char_app in C. cbn in C.
  split; apply count_char_zero; lia.
Qed.

Lemma split_on_not_one (s : string) :
  count_char "=" s <> 1%nat ->
  forall n t, split_on "=" s <> [n; t].
Proof.
  intros C n t E. apply C.
  pose proof (split_on_from_length "=" s []) as L.
  unfold split_on in E. rewrite E in L. cbn in L. lia.
Qed.

(** X24: the form [--set-data] takes.  An expression is accepted exactly
    when it holds one [=]: then, with its whitespace removed, it reads
    [name=text] with no [=] on either side, and the value [literal_eval]
    gives for the text is stored under the name, or what [literal_eval]
    raises is raised and nothing is stored.  With no [=] or more than
    one, ValueError is raised and nothing is stored. *)
Theorem set_data_expr_form (expr : string) (d : dict V) :
  if (count_char "=" expr =? 1)%nat
  then
    exists n t,
      remove_space expr = (n ++ String "=" t)%string /\
      has_char "=" n = false /\ has_char "=" t = false /\
      set_data_expr literal_eval expr d =
        match literal_eval t with
        | inl e => (d, inl e)
        | inr v => (dict_setitem n v d, inr tt)
        end
  else set_data_expr literal_eval expr d = (d, inl ValueError).
Proof.
  destruct (Nat.eqb_spec (count_char "=" expr) 1) as [C|C].
  - rewrite <- (count_char_remove_space "=" expr eq_refl) in C.
    destruct (split_on_one _ C) as (n & t & E & J & A & B).
    exists n, t. repeat split; trivial.
    unfold set_data_expr. rewrite E. rewrite bind_state. unfold lift.
    destruct (literal_eval t); reflexivity.
  - rewrite <- (count_char_remove_space "=" expr eq_refl) in C.
    pose proof (split_on_not_one _ C) as N.
    unfold set_data_expr.
    destruct (split_on "=" (remove_space expr)) as [|n [|t [|x xs]]];
      try reflexivity.
    destruct (N n t eq_refl).
Qed.

Lemma set_data_expr_reads (expr : string) (nv : string * V) (d : dict V) :
  reads_as literal_eval expr nv ->
  set_data_expr literal_eval expr d =
    (dict_setitem (fst nv) (snd nv) d, inr tt).
Proof.
  intros (t & J & A & B & L). unfold set_data_expr.
  rewrite J, (split_on_two "=" (fst nv) t A B).
  rewrite bind_state. unfold lift. rewrite L. reflexivity.
Qed.

Lemma last_assigned_cons (k : string) (nv : string * V)
  (assigns : list (string * V)) :
  last_assigned k (nv :: assigns) =
  match last_assigned k assigns with
  | Some v => Some v
  | None => if String.eqb k (fst nv) then Some (snd nv) else None
  end.
Proof.
  unfold last_assigned. cbn [rev]. rewrite find_last.
  destruct (find _ (rev assigns)); [reflexivity|].
  destruct (String.eqb k (fst nv)); reflexivity.
Qed.

(** X25: a later [--set-data] wins.  When every expression reads
    [name=text] with a text that evaluates, the loop returns, and
    [set_data_vals] then holds, for each name, the value of the last
    expression of that name, and for a name no expression has, what it
    held before (the values saved with the model). *)
Theorem set_data_later_wins (exprs : list string)
  (assigns : list (string * V)) (d : dict V) :
  Forall2 (reads_as literal_eval) exprs assigns ->
  outcome (set_data_exprs literal_eval exprs d) = inr tt /\
  forall k,
    dict_getitem k (state_of (set_data_exprs literal_eval exprs d)) =
    match last_assigned k assigns with
    | Some v => Some v
    | None => dict_getitem k d
    end.
Proof.
  intros Hr. revert d.
  induction Hr as [|expr nv exprs assigns R _ IH]; intros d.
  - split; [reflexivity|]. intros k. reflexivity.
  - cbn [set_data_exprs]. rewrite bind_state.
    rewrite (set_data_expr_reads expr nv d R).
    destruct (IH (dict_setitem (fst nv) (snd nv) d)) as [O G].
    split; [exact O|].
    intros k. rewrite G, last_assigned_cons, dict_getitem_set.
    destruct (last_assigned k assigns); [reflexivity|].
    destruct (String.eqb k (fst nv)); reflexivity.
Qed.

End SetDataExprs.

Lemma set_data_later_wins_witness :
  let exprs := ["pitch = 150"; "roll=3"; "pitch=45"] in
  let assigns := [("pitch", 150); ("roll", 3); ("pitch", 45)] in
  outcome (set_data_exprs literal_int exprs [("pitch", 90); ("eclipse", 0)])
    = inr tt /\
  forall k,
    dict_getitem k
      (state_of (set_data_exprs literal_int exprs
                   [("pitch", 90); ("eclipse", 0)])) =
    match last_assigned k assigns with
    | Some v => Some v
    | None => dict_getitem k [("pitch", 90); ("eclipse", 0)]
    end.
Proof.
  apply (set_data_later_wins Z literal_int
           ["pitch = 150"; "roll=3"; "pitch=45"]
           [("pitch", 150); ("roll", 3); ("pitch", 45)]
           [("pitch", 90); ("eclipse", 0)]).
  repeat constructor.
  - exists "150". repeat split; reflexivity.
  - exists "3". repeat split; reflexivity.
  - exists "45". repeat split; reflexivity.
Defined.

(** ** WidgetTable *)

Lemma column_eqb_eq (a b : column) : column_eqb a b = true <-> a = b.
Proof.
  destruct a as [i|s], b as [j|t]; cbn; split; try discriminate.
  - intros E. apply Z.eqb_eq in E. congruence.
  - intros E. injection E as ->. apply Z.eqb_refl.
  - intros E. apply String.eqb_eq in E. congruence.
  - intros E. injection E as ->. apply String.eqb_refl.
Qed.

Lemma rowcol_eqb_eq (a b : Z * column) : rowcol_eqb a b = true <-> a = b.
Proof.
  destruct a as [r c], b as [r' c']. unfold rowcol_eqb. cbn.
  rewrite andb_true_iff, Z.eqb_eq, column_eqb_eq. split.
  - intros [-> ->]. reflexivity.
  - intros E. injection E as -> ->. auto.
Qed.

Lemma rowcol_eqb_neq (a b : Z * column) : a <> b -> rowcol_eqb a b = false.
Proof.
  intros N. destruct (rowcol_eqb a b) eqn:E; [|reflexivity].
  apply rowcol_eqb_eq in E. contradiction.
Qed.

Section WidgetTableLaws.

Variable W : Type.

Lemma dict_getitem_setitem (k k' : Z * column) (w : W)
  (d : list ((Z * column) * W)) :
  dict___getitem__ k' (dict___setitem__ k w d) =
  if rowcol_eqb k' k then Some w else dict___getitem__ k' d.
Proof.
  induction d as [|[k0 w0] d IH]; cbn.
  - reflexivity.
  - destruct (rowcol_eqb k k0) eqn:E; cbn.
    + apply rowcol_eqb_eq in E. subst k0.
      destruct (rowcol_eqb k' k); reflexivity.
    + destruct (rowcol_eqb k' k0) eqn:E0.
      * apply rowcol_eqb_eq in E0. subst k0.
        destruct (rowcol_eqb k' k) eqn:E1; [|reflexivity].
        apply rowcol_eqb_eq in E1. subst k'.
        rewrite (proj2 (rowcol_eqb_eq k k) eq_refl) in E. discriminate E.
      * exact IH.
Qed.

Lemma dict_getitem_name (r : Z) (s : string) (d : list ((Z * column) * W)) :
  Forall (fun kw => exists i, snd (fst kw) = Index i) d ->
  dict___getitem__ (r, Name s) d = None.
Proof.
  induction 1 as [|[[r0 c0] w0] d [i Hi] _ IH]; cbn; [reflexivity|].
  cbn in Hi. subst c0. unfold rowcol_eqb. cbn.
  rewrite andb_false_r. exact IH.
Qed.

Lemma dict_setitem_numeric (r c : Z) (w : W) (d : list ((Z * column) * W)) :
  Forall (fun kw => exists i, snd (fst kw) = Index i) d ->
  Forall (fun kw => exists i, snd (fst kw) = Index i)
    (dict___setitem__ (r, Index c) w d).
Proof.
  intros K. induction d as [|[k0 w0] d IH]; cbn.
  - constructor; [exists c; reflexivity | constructor].
  - inversion K as [|? ? K0 K1]; subst.
    destruct (rowcol_eqb (r, Index c) k0).
    + constructor; [exists c; reflexivity | exact K1].
    + constructor; [exact K0 | exact (IH K1)].
Qed.

(** X26: a widget put into the table is the one read back.  After
    [table[row, col] = w], the cell reads [w] by its index and by every
    column name whose first place in [colnames] is that index; every
    other cell reads as before, by index and by name; and in a table
    filled through [__setitem__], a name that is no column finds nothing
    (KeyError). *)
Theorem setitem_getitem (t : WidgetTable W) (row col : Z) (w : W) :
  __getitem__ (row, Index col) (__setitem__ row col w t) = Some w /\
  (forall s, index_from 0 s (colnames t) = Some col ->
     __getitem__ (row, Name s) (__setitem__ row col w t) = Some w) /\
  (forall r c, (r, c) <> (row, col) ->
     __getitem__ (r, Index c) (__setitem__ row col w t) =
     __getitem__ (r, Index c) t) /\
  (forall r s c, index_from 0 s (colnames t) = Some c ->
     (r, c) <> (row, col) ->
     __getitem__ (r, Name s) (__setitem__ row col w t) =
     __getitem__ (r, Name s) t) /\
  (numeric_keys t ->
   numeric_keys (__setitem__ row col w t) /\
   forall r s, index_from 0 s (colnames t) = None ->
     __getitem__ (r, Name s) (__setitem__ row col w t) = None).
Proof.
  assert (Same : rowcol_eqb (row, Index col) (row, Index col) = true)
    by (apply rowcol_eqb_eq; reflexivity).
  assert (Other : forall r c, (r, c) <> (row, col) ->
            rowcol_eqb (r, Index c) (row, Index col) = false).
  { intros r c N. apply rowcol_eqb_neq. intros E. apply N. congruence. }
  unfold __getitem__, __setitem__. cbn [colnames items].
  split; [|split; [|split; [|split]]].
  - rewrite dict_getitem_setitem, Same. reflexivity.
  - intros s E. rewrite E, dict_getitem_setitem, Same. reflexivity.
  - intros r c N. rewrite dict_getitem_setitem, (Other r c N). reflexivity.
  - intros r s c E N. rewrite E, dict_getitem_setitem, (Other r c N).
    reflexivity.
  - intros K. split.
    + unfold numeric_keys. cbn [items]. apply dict_setitem_numeric. exact K.
    + intros r s E. rewrite E. apply dict_getitem_name.
      apply dict_setitem_numeric. exact K.
Qed.

End WidgetTableLaws.

(** The slider column of the table of parameters has the empty name: the
    slider put at column 4 is read back under it. *)
Lemma slider_column_by_name (W : Type) (slider : W) (row : Z) :
  __getitem__ (row, Name EmptyString)
    (__setitem__ row 4 slider (mkWidgetTable params_colnames [] [])) =
  Some slider.
Proof.
  unfold __getitem__, __setitem__. cbn -[rowcol_eqb].
  rewrite (proj2 (rowcol_eqb_eq _ _) eq_refl). reflexivity.
Qed.

(** ** LineDataWindow *)

Lemma starts_app (p s : list ascii) : starts p (p ++ s) = true.
Proof.
  induction p as [|c p IH]; cbn; [reflexivity|].
  rewrite Ascii.eqb_refl. exact IH.
Qed.

Lemma list_ascii_app (a b : string) :
  list_ascii_of_string (a ++ b) =
  list_ascii_of_string a ++ list_ascii_of_string b.
Proof. induction a as [|c a IH]; cbn; [reflexivity | now rewrite IH]. Qed.

Lemma endswith_app (a suffix : string) : endswith (a ++ suffix) suffix = true.
Proof.
  unfold endswith. rewrite list_ascii_app, rev_app_distr. apply starts_app.
Qed.

Lemma endswith_resid_model (a : string) :
  endswith (a ++ "_resid") "_model" = false.
Proof.
  unfold endswith. rewrite list_ascii_app, rev_app_distr. reflexivity.
Qed.

Lemma for_in_app {S A} (xs ys : list A) (body : A -> M S unit) (s : S) :
  for_in (xs ++ ys) body s =
  match for_in xs body s with
  | (s', inl e) => (s', inl e)
  | (s', inr _) => for_in ys body s'
  end.
Proof.
  revert s. induction xs as [|x xs IH]; intros s; cbn [app for_in].
  - reflexivity.
  - rewrite !bind_state. destruct (body x s) as [s1 [e|[]]]; [reflexivity|].
    apply IH.
Qed.

Section LineData.

Variable V : Type.
Variable format : string -> V -> string.

Lemma fold_add_names (telem : dict (TelemData V)) :
  forall n b f,
  fold_left (fun l item => add_names item l) telem (n, b, f) =
  (n ++ flat_map (@item_names V) telem,
   b ++ flat_map (@item_basenames V) telem,
   f ++ flat_map (@item_formats V) telem).
Proof.
  induction telem as [|[name data] telem IH]; intros n b f; cbn [fold_left flat_map].
  - rewrite !app_nil_r. reflexivity.
  - unfold add_names at 2, item_names at 1, item_basenames at 1,
      item_formats at 1. cbn [fst snd].
    destruct (resids data); rewrite IH, <- !app_assoc; reflexivity.
Qed.

Lemma set_label_at (A B : list (string * string)) (n o t : string) (row : nat) :
  length A = row ->
  set_label row t (A ++ (n, o) :: B) = A ++ (n, t) :: B.
Proof.
  intros <-. unfold set_label.
  rewrite firstn_app, Nat.sub_diag, firstn_all, skipn_app, Nat.sub_diag,
    skipn_all. cbn. rewrite app_nil_r. reflexivity.
Qed.

Lemma setText_value_at (w : LineDataWindow V) (A B : list (string * string))
  (n o : string) (row : nat) (text : M (LineDataWindow V) string) (t : string) :
  labels w = A ++ (n, o) :: B -> length A = row ->
  text w = (w, inr t) ->
  setText_value row text w = (with_labels (A ++ (n, t) :: B) w, inr tt).
Proof.
  intros L Hl Ht. unfold setText_value. rewrite bind_state. unfold get at 1.
  rewrite L.
  assert (E : nth_error (A ++ (n, o) :: B) row = Some (n, o)).
  { rewrite nth_error_app2 by lia. subst row. rewrite Nat.sub_diag. reflexivity. }
  rewrite E, bind_state, Ht. unfold modify. rewrite L.
  rewrite (set_label_at A B n o t row Hl). reflexivity.
Qed.

(** One row of the loop of [update_data]. *)
Lemma update_data_row_at (pos row : nat) (w : LineDataWindow V)
  (A B : list (string * string)) (n o name base fmt : string) (v : V) :
  nth_error (data_names w) (row - 1) = Some name ->
  nth_error (data_basenames w) (row - 1) = Some base ->
  nth_error (formats w) (row - 1) = Some fmt ->
  reads (telem_data w) pos name base v ->
  labels w = A ++ (n, o) :: B -> length A = row ->
  update_data_row format pos row w =
    (with_labels (A ++ (n, format fmt v) :: B) w, inr tt).
Proof.
  intros En Eb Ef (data & Ed & R) L Hl.
  unfold update_data_row. rewrite bind_state. unfold get at 1.
  unfold list_getitem at 1. rewrite En, bind_state. unfold ret at 1.
  unfold list_getitem at 1. rewrite Eb, bind_state. unfold ret at 1.
  rewrite bind_state.
  assert (Ev :
    (if endswith name "_model"
     then data <- getitem base (dict_getitem base (telem_data w)) ;;
          a <- attribute "mvals" (mvals data) ;; list_getitem a pos
     else if endswith name "_resid"
     then data <- getitem base (dict_getitem base (telem_data w)) ;;
          a <- attribute "resids" (resids data) ;; list_getitem a pos
     else data <- getitem base (dict_getitem base (telem_data w)) ;;
          list_getitem (dvals data) pos) w = (w, inr v)).
  { rewrite Ed. cbn [getitem].
    destruct (endswith name "_model");
      [|destruct (endswith name "_resid")].
    - destruct R as (a & Ea & Ep). rewrite bind_state. unfold ret at 1.
      rewrite Ea. cbn [attribute]. rewrite bind_state. unfold ret at 1.
      unfold list_getitem. rewrite Ep. reflexivity.
    - destruct R as (a & Ea & Ep). rewrite bind_state. unfold ret at 1.
      rewrite Ea. cbn [attribute]. rewrite bind_state. unfold ret at 1.
      unfold list_getitem. rewrite Ep. reflexivity.
    - rewrite bind_state. unfold ret at 1.
      unfold list_getitem. rewrite R. reflexivity. }
  rewrite Ev.
  apply (setText_value_at w A B n o row _ (format fmt v) L Hl).
  rewrite bind_state. unfold list_getitem. rewrite Ef. reflexivity.
Qed.

(** The loop of [update_data] over rows that all read a value: [qs] holds,
    row by row, the name, the base name, the format and the value read. *)
Lemma update_data_rows (pos : nat) (telem : dict (TelemData V))
  (qs : list (string * string * string * V)) :
  forall (w : LineDataWindow V) (Np Nq Bp Bq Fp Fq : list string)
         (A Lq B : list (string * string)),
  telem_data w = telem ->
  data_names w = Np ++ map (fun '(n, _, _, _) => n) qs ++ Nq ->
  data_basenames w = Bp ++ map (fun '(_, b, _, _) => b) qs ++ Bq ->
  formats w = Fp ++ map (fun '(_, _, f, _) => f) qs ++ Fq ->
  length Bp = length Np -> length Fp = length Np ->
  Forall (fun '(n, b, _, v) => reads telem pos n b v) qs ->
  labels w = A ++ Lq ++ B -> length A = S (length Np) ->
  map fst Lq = map (fun '(n, _, _, _) => n) qs ->
  for_in (seq (S (length Np)) (length qs)) (update_data_row format pos) w =
    (with_labels
       (A ++ map (fun '(n, _, f, v) => (n, format f v)) qs ++ B) w, inr tt).
Proof.
  induction qs as [|[[[n b] f] v] qs IH];
    intros w Np Nq Bp Bq Fp Fq A Lq B Et En Eb Ef Lb Lf Hr L La Hq.
  - destruct Lq; [|discriminate Hq]. cbn. unfold ret. cbn in L.
    rewrite <- L. destruct w; reflexivity.
  - destruct Lq as [|[n0 o0] Lq]; [discriminate Hq|].
    cbn [map fst] in Hq. injection Hq as -> Hq.
    inversion Hr as [|? ? R Hr']; subst.
    cbn [length seq for_in map]. rewrite bind_state.
    rewrite (update_data_row_at pos (S (length Np)) w A (Lq ++ B) n o0 n b f v).
    + set (w1 := with_labels _ w).
      specialize (IH w1 (Np ++ [n]) Nq (Bp ++ [b]) Bq (Fp ++ [f]) Fq
                    (A ++ [(n, format f v)]) Lq B).
      rewrite !length_app in IH. cbn [length] in IH.
      replace (length Np + 1)%nat with (S (length Np)) in IH by lia.
      rewrite IH.
      * unfold w1. cbn [app]. rewrite <- !app_assoc. reflexivity.
      * reflexivity.
      * unfold w1. cbn [data_names with_labels]. rewrite En, <- app_assoc.
        reflexivity.
      * unfold w1. cbn [data_basenames with_labels]. rewrite Eb, <- app_assoc.
        reflexivity.
      * unfold w1. cbn [formats with_labels]. rewrite Ef, <- app_assoc.
        reflexivity.
      * lia.
      * lia.
      * exact Hr'.
      * unfold w1. cbn [labels with_labels]. rewrite <- app_assoc. reflexivity.
      * lia.
      * exact Hq.
    + rewrite En. replace (S (length Np) - 1)%nat with (length Np) by lia.
      rewrite nth_error_app2 by lia. rewrite Nat.sub_diag. reflexivity.
    + rewrite Eb. replace (S (length Np) - 1)%nat with (length Bp) by lia.
      rewrite nth_error_app2 by lia. rewrite Nat.sub_diag. reflexivity.
    + rewrite Ef. replace (S (length Np) - 1)%nat with (length Fp) by lia.
      rewrite nth_error_app2 by lia. rewrite Nat.sub_diag. reflexivity.
    + exact R.
    + rewrite L. reflexivity.
    + exact La.
Qed.

Lemma dict_getitem_in {A} (d : dict A) (k : string) (v : A) :
  NoDup (map fst d) -> In (k, v) d -> dict_getitem k d = Some v.
Proof.
  induction d as [|[k0 v0] d IH]; cbn; intros N I; [destruct I|].
  inversion N as [|? ? N0 N1]; subst.
  destruct I as [E|I].
  - injection E as -> ->. rewrite String.eqb_refl. reflexivity.
  - destruct (String.eqb k k0) eqn:E.
    + apply String.eqb_eq in E. subst k0. exfalso. apply N0.
      exact (in_map fst _ _ I).
    + exact (IH N1 I).
Qed.

(** The rows of items that show their values, one after the other. *)
Lemma items_rows (pos : nat) (all : dict (TelemData V)) :
  NoDup (map fst all) ->
  forall (telem : dict (TelemData V)) (rowss : list (list (string * string))),
  incl telem all ->
  Forall (fun item => plain_name (fst item)) telem ->
  Forall2 (shows format pos) telem rowss ->
  exists qs : list (string * string * string * V),
    map (fun '(n, _, _, _) => n) qs = flat_map (@item_names V) telem /\
    map (fun '(_, b, _, _) => b) qs = flat_map (@item_basenames V) telem /\
    map (fun '(_, _, f, _) => f) qs = flat_map (@item_formats V) telem /\
    Forall (fun '(n, b, _, v) => reads all pos n b v) qs /\
    map (fun '(n, _, f, v) => (n, format f v)) qs = concat rowss.
Proof.
  intros N telem rowss Hi Hp Hs. induction Hs as [|[name data] rows telem rowss S _ IH].
  - exists []. cbn. repeat split; constructor.
  - inversion Hp as [|? ? [P1 P2] Hp']; subst. cbn [fst] in P1, P2.
    assert (Hi' : incl telem all) by (intros x I; apply Hi; right; exact I).
    assert (D : dict_getitem name all = Some data).
    { apply dict_getitem_in; [exact N|]. apply Hi. left. reflexivity. }
    destruct (IH Hi' Hp') as (qs & E1 & E2 & E3 & R & E4).
    cbn [shows] in S. destruct S as (d & Ed & S).
    set (fmt := if dtype_float64 data then "{0:.4f}" else "{0}") in *.
    cbn [flat_map concat].
    unfold item_names at 1, item_basenames at 1, item_formats at 1.
    cbn [fst snd]. fold fmt.
    destruct (resids data) as [rs|] eqn:Er.
    + destruct S as (ms & m & r & Em & Emp & Erp & ->).
      exists ((name, name, fmt, d) ::
              ((name ++ "_model")%string, name, fmt, m) ::
              ((name ++ "_resid")%string, name, fmt, r) :: qs).
      cbn [map app]. rewrite E1, E2, E3, E4.
      repeat split; trivial.
      constructor; [|constructor; [|constructor; [|exact R]]].
      * exists data. split; [exact D|]. rewrite P1, P2. exact Ed.
      * exists data. split; [exact D|]. rewrite endswith_app.
        exists ms. split; trivial.
      * exists data. split; [exact D|].
        rewrite endswith_resid_model, endswith_app.
        exists rs. split; trivial.
    + subst rows. exists ((name, name, fmt, d) :: qs).
      cbn [map app]. rewrite E1, E2, E3, E4.
      repeat split; trivial.
      constructor; [|exact R].
      exists data. split; [exact D|]. rewrite P1, P2. exact Ed.
Qed.

(** [update_data] on a window laid out for its telemetry. *)
Lemma update_data_laid_out (telem : dict (TelemData V)) (w : LineDataWindow V)
  (dates : list string) (pos : nat) (date : string)
  (rowss : list (list (string * string))) :
  laid_out telem w ->
  NoDup (map fst telem) ->
  Forall (fun item => plain_name (fst item)) telem ->
  nth_error dates pos = Some date ->
  Forall2 (shows format pos) telem rowss ->
  update_data format dates pos w =
    (with_labels (("date", date) :: concat rowss) w, inr tt).
Proof.
  intros (Lt & Ln & Lb & Lf & Lr & Ll) N Hp Ed Hs.
  destruct (items_rows pos telem N telem rowss (incl_refl _) Hp Hs)
    as (qs & E1 & E2 & E3 & R & E4).
  destruct (labels w) as [|[n0 o0] Lq] eqn:EL; [discriminate Ll|].
  cbn [map fst] in Ll. injection Ll as -> Ll.
  unfold update_data. rewrite bind_state. unfold list_getitem at 1.
  rewrite Ed. unfold ret at 1. rewrite bind_state.
  rewrite (setText_value_at w [] Lq "date" o0 0 (ret date) date EL eq_refl eq_refl).
  rewrite bind_state. unfold get at 1.
  cbn [nrows with_labels app].
  set (w1 := with_labels (("date", date) :: Lq) w).
  assert (Len : (nrows w - 1)%nat = length qs).
  { rewrite Lr, Ln, <- E1, length_map. lia. }
  rewrite Len.
  pose proof (update_data_rows pos telem qs w1 [] [] [] [] [] []
                [("date", date)] Lq []) as U.
  cbn [length app] in U. rewrite !app_nil_r in U.
  rewrite U.
  - rewrite E4. unfold w1. reflexivity.
  - exact Lt.
  - rewrite E1. exact Ln.
  - rewrite E2. exact Lb.
  - rewrite E3. exact Lf.
  - reflexivity.
  - reflexivity.
  - exact R.
  - reflexivity.
  - reflexivity.
  - rewrite E1, <- Ln. exact Ll.
Qed.

Lemma shows_names (pos : nat) (telem : dict (TelemData V))
  (rowss : list (list (string * string))) :
  Forall2 (shows format pos) telem rowss ->
  map fst (concat rowss) = flat_map (@item_names V) telem.
Proof.
  induction 1 as [|[name data] rows telem rowss S _ IH]; [reflexivity|].
  cbn [concat flat_map]. rewrite map_app, IH. f_equal.
  cbn [shows] in S. destruct S as (d & _ & S).
  unfold item_names. cbn [fst snd].
  destruct (resids data).
  - destruct S as (ms & m & r & _ & _ & _ & ->). reflexivity.
  - subst rows. reflexivity.
Qed.

(** The second loop of [__init__]: one row for each name. *)
Lemma init_rows (names rest : list string) :
  forall (pre : list string) (w : LineDataWindow V),
  names = pre ++ rest ->
  for_in (seq (S (length pre)) (length rest))
    (fun row =>
       name <- list_getitem names (row - 1) ;;
       modify (fun w => with_labels (labels w ++ [(name, EmptyString)]) w)) w =
  (with_labels (labels w ++ map (fun n => (n, EmptyString)) rest) w, inr tt).
Proof.
  induction rest as [|n rest IH]; intros pre w E.
  - cbn. unfold ret. rewrite app_nil_r. destruct w; reflexivity.
  - cbn [length seq for_in map]. rewrite !bind_state.
    unfold list_getitem at 1.
    replace (S (length pre) - 1)%nat with (length pre) by lia.
    assert (En : nth_error names (length pre) = Some n).
    { rewrite E, nth_error_app2 by lia. rewrite Nat.sub_diag. reflexivity. }
    rewrite En. unfold ret at 1, modify at 1.
    specialize (IH (pre ++ [n])
                  (with_labels (labels w ++ [(n, EmptyString)]) w)).
    rewrite length_app in IH. cbn [length] in IH.
    replace (length pre + 1)%nat with (S (length pre)) in IH by lia.
    rewrite IH by (rewrite E, <- app_assoc; reflexivity).
    cbn [labels with_labels]. rewrite <- app_assoc. reflexivity.
Qed.

(** X27: what the Line Data window shows.  For telemetry whose names are
    distinct and end in neither [_model] nor [_resid], and a line at a
    place where the dates and the arrays have a value, [__init__] returns
    a window whose table has the date in row 0 and then, item by item in
    the order of the telemetry, the data, and for an item with residuals
    also the model and the residuals under [name_model] and
    [name_resid], each formatted with [{0:.4f}] for float64 data and
    [{0}] otherwise; and [update_data] at any other such place replaces
    the date and every value by those of that place. *)
Theorem line_data_window_shows (telem : dict (TelemData V))
  (dates : list string) (pos : nat) (date : string)
  (rowss : list (list (string * string))) :
  NoDup (map fst telem) ->
  Forall (fun item => plain_name (fst item)) telem ->
  nth_error dates pos = Some date ->
  Forall2 (shows format pos) telem rowss ->
  exists w,
    new_LineDataWindow format telem dates pos = inr w /\
    labels w = ("date", date) :: concat rowss /\
    nrows w = S (length (concat rowss)) /\
    forall pos' date' rowss',
      nth_error dates pos' = Some date' ->
      Forall2 (shows format pos') telem rowss' ->
      update_data format dates pos' w =
        (with_labels (("date", date') :: concat rowss') w, inr tt).
Proof.
  intros N Hp Ed Hs.
  pose proof (shows_names pos telem rowss Hs) as Hn.
  set (names := flat_map (@item_names V) telem) in *.
  set (w0 := mkLineDataWindow telem names
               (flat_map (@item_basenames V) telem)
               (flat_map (@item_formats V) telem) (S (length names))
               (("date", EmptyString) :: map (fun n => (n, EmptyString)) names)).
  assert (L0 : laid_out telem w0).
  { unfold laid_out, w0. cbn. repeat split; trivial.
    rewrite map_map. cbn. rewrite map_id. reflexivity. }
  assert (L1 : laid_out telem
                 (with_labels (("date", date) :: concat rowss) w0)).
  { unfold laid_out, w0. cbn. repeat split; trivial. rewrite Hn. reflexivity. }
  exists (with_labels (("date", date) :: concat rowss) w0).
  split; [|split; [reflexivity|split]].
  - unfold new_LineDataWindow. rewrite fold_add_names. cbn [app].
    fold names. rewrite !bind_state. unfold modify at 1.
    cbn [labels with_labels app telem_data data_names data_basenames formats
         nrows].
    replace (S (length names) - 1)%nat with (length names) by lia.
    pose proof (fun w => init_rows names names [] w eq_refl) as I.
    cbn [length] in I. rewrite bind_state, I.
    match goal with
    | |- context [update_data format dates pos ?w] => change w with w0
    end.
    rewrite (update_data_laid_out telem w0 dates pos date rowss L0 N Hp Ed Hs).
    reflexivity.
  - cbn. rewrite <- (length_map fst), Hn. reflexivity.
  - intros pos' date' rowss' Ed' Hs'.
    rewrite (update_data_laid_out telem _ dates pos' date' rowss' L1 N Hp Ed' Hs').
    reflexivity.
Qed.

(** A row taken for a model row, of an item with no [mvals]. *)
Lemma update_data_row_no_mvals (pos row : nat) (w : LineDataWindow V)
  (name base : string) (data : TelemData V) :
  nth_error (data_names w) (row - 1) = Some name ->
  nth_error (data_basenames w) (row - 1) = Some base ->
  endswith name "_model" = true ->
  dict_getitem base (telem_data w) = Some data ->
  mvals data = None ->
  update_data_row format pos row w = (w, inl (AttributeError "mvals")).
Proof.
  intros En Eb Es Ed Em.
  unfold update_data_row. rewrite bind_state. unfold get at 1.
  unfold list_getitem at 1. rewrite En, bind_state. unfold ret at 1.
  unfold list_getitem at 1. rewrite Eb, bind_state. unfold ret at 1.
  rewrite Es, Ed. cbn [getitem]. rewrite !bind_state. unfold ret at 1.
  rewrite Em. reflexivity.
Qed.

(** X28: a name that ends in [_model] is taken for a model row.  An item
    without residuals has one row, under its own name; when that name
    ends in [_model], [update_data] reads the item's [mvals] for it and
    not its [dvals], so that for an item with no [mvals] the window
    cannot be built: [__init__] raises AttributeError, whatever the items
    after it and with the items before it in order. *)
Theorem model_suffix_taken_for_model (pre post : dict (TelemData V))
  (name : string) (data : TelemData V) (dates : list string) (pos : nat)
  (date : string) (rowss : list (list (string * string))) :
  NoDup (map fst (pre ++ (name, data) :: post)) ->
  Forall (fun item => plain_name (fst item)) pre ->
  nth_error dates pos = Some date ->
  Forall2 (shows format pos) pre rowss ->
  resids data = None -> endswith name "_model" = true ->
  mvals data = None ->
  new_LineDataWindow format (pre ++ (name, data) :: post) dates pos =
    inl (AttributeError "mvals").
Proof.
  intros N Hp Ed Hs Er Es Em.
  set (telem := pre ++ (name, data) :: post) in *.
  assert (Hi : incl pre telem) by (intros x I; apply in_or_app; left; exact I).
  destruct (items_rows pos telem N pre rowss Hi Hp Hs)
    as (qs & E1 & E2 & E3 & R & E4).
  assert (D : dict_getitem name telem = Some data).
  { apply dict_getitem_in; [exact N|]. apply in_or_app. right. left.
    reflexivity. }
  set (Nq := flat_map (@item_names V) post).
  set (Bq := flat_map (@item_basenames V) post).
  set (Fq := flat_map (@item_formats V) post).
  set (fmt := if dtype_float64 data then "{0:.4f}" else "{0}").
  assert (Hn : flat_map (@item_names V) telem =
               map (fun '(n, _, _, _) => n) qs ++ name :: Nq).
  { unfold telem. rewrite flat_map_app, E1. cbn [flat_map].
    unfold item_names at 2. cbn [fst snd]. rewrite Er. reflexivity. }
  assert (Hb : flat_map (@item_basenames V) telem =
               map (fun '(_, b, _, _) => b) qs ++ name :: Bq).
  { unfold telem. rewrite flat_map_app, E2. cbn [flat_map].
    unfold item_basenames at 2. cbn [fst snd]. rewrite Er. reflexivity. }
  assert (Hf : flat_map (@item_formats V) telem =
               map (fun '(_, _, f, _) => f) qs ++ fmt :: Fq).
  { unfold telem. rewrite flat_map_app, E3. cbn [flat_map].
    unfold item_formats at 2. cbn [fst snd]. rewrite Er. reflexivity. }
  unfold new_LineDataWindow. rewrite fold_add_names. cbn [app].
  rewrite Hn, Hb, Hf.
  set (names := map (fun '(n, _, _, _) => n) qs ++ name :: Nq).
  set (bases := map (fun '(_, b, _, _) => b) qs ++ name :: Bq).
  set (fmts := map (fun '(_, _, f, _) => f) qs ++ fmt :: Fq).
  rewrite !bind_state. unfold modify at 1.
  cbn [labels with_labels app telem_data data_names data_basenames formats
       nrows].
  replace (S (length names) - 1)%nat with (length names) by lia.
  pose proof (fun w => init_rows names names [] w eq_refl) as I.
  cbn [length] in I. rewrite bind_state, I.
  set (w0 := mkLineDataWindow telem names bases fmts (S (length names))
               (("date", EmptyString) ::
                map (fun n => (n, EmptyString)) names)).
  match goal with
  | |- context [update_data format dates pos ?w] => change w with w0
  end.
  unfold update_data. rewrite bind_state. unfold list_getitem at 1.
  rewrite Ed. unfold ret at 1. rewrite bind_state.
  rewrite (setText_value_at w0 [] (map (fun n => (n, EmptyString)) names)
             "date" EmptyString 0 (ret date) date eq_refl eq_refl eq_refl).
  rewrite bind_state. unfold get at 1.
  cbn [nrows with_labels app w0].
  replace (S (length names) - 1)%nat with (length names) by lia.
  set (w1 := with_labels _ w0).
  assert (Ln : length names = (length qs + S (length Nq))%nat).
  { unfold names. rewrite length_app, length_map. reflexivity. }
  rewrite Ln, seq_app, for_in_app.
  pose proof (update_data_rows pos telem qs w1 [] (name :: Nq) []
                (name :: Bq) [] (fmt :: Fq) [("date", date)]
                (map (fun n => (n, EmptyString))
                   (map (fun '(n, _, _, _) => n) qs))
                ((name, EmptyString) ::
                 map (fun n => (n, EmptyString)) Nq)) as U.
  cbn [length app] in U.
  rewrite U; trivial.
  - cbn [seq for_in]. rewrite bind_state.
    rewrite (update_data_row_no_mvals pos (1 + length qs) _ name name data);
      trivial.
    + cbn [data_names with_labels w1 w0].
      replace (1 + length qs - 1)%nat with (length qs) by lia.
      unfold names. rewrite nth_error_app2 by (rewrite length_map; lia).
      rewrite length_map, Nat.sub_diag. reflexivity.
    + cbn [data_basenames with_labels w1 w0].
      replace (1 + length qs - 1)%nat with (length qs) by lia.
      unfold bases. rewrite nth_error_app2 by (rewrite length_map; lia).
      rewrite length_map, Nat.sub_diag. reflexivity.
  - unfold w1. cbn [labels with_labels w0 app]. unfold names.
    rewrite map_app. reflexivity.
  - rewrite map_map. cbn. apply map_id.
Qed.

End LineData.

Lemma line_data_window_shows_witness :
  exists w,
    new_LineDataWindow format_nat node_and_pitch two_dates 1 = inr w /\
    labels w =
      ("date", "2020:002") ::
      concat [[("aacccdpt", format_nat "{0:.4f}" 12);
               ("aacccdpt_model", format_nat "{0:.4f}" 22);
               ("aacccdpt_resid", format_nat "{0:.4f}" 32)];
              [("pitch", format_nat "{0}" 160)]] /\
    nrows w = S (length (concat
                [[("aacccdpt", format_nat "{0:.4f}" 12);
                  ("aacccdpt_model", format_nat "{0:.4f}" 22);
                  ("aacccdpt_resid", format_nat "{0:.4f}" 32)];
                 [("pitch", format_nat "{0}" 160)]])) /\
    forall pos' date' rowss',
      nth_error two_dates pos' = Some date' ->
      Forall2 (shows format_nat pos') node_and_pitch rowss' ->
      update_data format_nat two_dates pos' w =
        (with_labels (("date", date') :: concat rowss') w, inr tt).
Proof.
  apply (line_data_window_shows nat format_nat node_and_pitch two_dates 1
           "2020:002").
  - repeat constructor; cbn; intuition discriminate.
  - repeat constructor.
  - reflexivity.
  - constructor; [|constructor; [|constructor]].
    + exists 12%nat. split; [reflexivity|].
      exists [21; 22]%nat, 22%nat, 32%nat. repeat split; reflexivity.
    + exists 160%nat. split; reflexivity.
Defined.

Lemma model_suffix_taken_for_model_witness :
  new_LineDataWindow format_nat
    ([("pitch", mkTelemData [150; 160]%nat false None None)] ++
     ("roll_model", mkTelemData [1; 2]%nat false None None) :: [])
    two_dates 1 =
  inl (AttributeError "mvals").
Proof.
  apply (model_suffix_taken_for_model nat format_nat
           [("pitch", mkTelemData [150; 160]%nat false None None)] []
           "roll_model" (mkTelemData [1; 2]%nat false None None)
           two_dates 1 "2020:002" [[("pitch", format_nat "{0}" 160)]]).
  - repeat constructor; cbn; intuition discriminate.
  - repeat constructor.
  - reflexivity.
  - constructor; [|constructor].
    exists 160%nat. split; reflexivity.
  - reflexivity.
  - reflexivity.
  - reflexivity.
Defined.

(** ** The slider's bounds and the parameter's *)

Section Mirror.

Context {F : Type} `{PyFloat F}.

Lemma same_bounds_refl (r : Row F) : same_bounds r r.
Proof. unfold same_bounds. auto. Qed.

Lemma same_bounds_mirrors (r r' : Row F) :
  same_bounds r r' -> mirrors r -> mirrors r'.
Proof.
  unfold same_bounds, mirrors. intros (A & B & C & D) [M1 M2].
  split; congruence.
Qed.

Lemma Forall2_same_bounds_mirrors (rs rs' : list (Row F)) :
  Forall2 same_bounds rs rs' -> Forall mirrors rs -> Forall mirrors rs'.
Proof.
  induction 1 as [|r r' rs rs' S _ IH]; intros M; [constructor|].
  inversion M as [|? ? M0 M1]; subst.
  constructor; [exact (same_bounds_mirrors r r' S M0) | exact (IH M1)].
Qed.

Lemma Forall2_same_bounds_refl (rs : list (Row F)) : Forall2 same_bounds rs rs.
Proof. induction rs; constructor; trivial. apply same_bounds_refl. Qed.

Lemma Forall2_same_bounds_trans (rs rs' rs'' : list (Row F)) :
  Forall2 same_bounds rs rs' -> Forall2 same_bounds rs' rs'' ->
  Forall2 same_bounds rs rs''.
Proof.
  intros A. revert rs''. induction A as [|r r' rs rs' S _ IH]; intros rs'' B.
  - inversion B. constructor.
  - inversion B as [|? r'' ? rs3 S' B']; subst.
    constructor; [|exact (IH _ B')].
    unfold same_bounds in *. intuition congruence.
Qed.

Lemma untouched_same_bounds (rs rs' : list (Row F)) :
  Forall2 untouched rs rs' -> Forall2 same_bounds rs rs'.
Proof.
  induction 1 as [|r r' rs rs' U _ IH]; constructor; trivial.
  destruct U as (_ & _ & A & B & _ & _ & _ & C).
  unfold same_bounds. rewrite C. auto.
Qed.

(** The rows built mirror their parameters. *)
Lemma new_ParamsPanel_mirrors (pars : list (Par F)) :
  forall rows, new_ParamsPanel pars = inr rows -> Forall mirrors rows.
Proof.
  induction pars as [|p pars IH]; intros rows; cbn.
  - intros E. injection E as <-. constructor.
  - destruct (new_PanelSlider p) as [e|s] eqn:Es; [discriminate|].
    destruct (new_ParamsPanel pars) as [e|rs]; [discriminate|].
    intros E. injection E as <-.
    destruct (new_PanelSlider_built p s Es) as (_ & P1 & P2 & _).
    constructor; [split; assumption | apply IH; reflexivity].
Qed.

(** A write through an entry keeps the mirror, whether it returns or
    raises. *)
Lemma set_par_attr_mirrors (a : attr) (v : F) (p : Panel F) :
  mirrors (row p) -> mirrors (row (state_of (set_par_attr a v p))).
Proof.
  intros [M1 M2].
  destruct (set_par_attr_run a v p) as (p1 & msg & s' & r & E1 & E2 & ->).
  destruct (bounds_check_run a (on_row (with_par_of (setattr_par a v)) p))
    as (p1' & msg' & E1' & Ep & _).
  rewrite E1 in E1'. injection E1' as <- <-.
  destruct (bounds_checked_bounds
              (par (row (on_row (with_par_of (setattr_par a v)) p))))
    as (B1 & B2 & _).
  destruct (update_slider_val_pars v a (slider (row p))) as (S1 & S2 & _).
  unfold state_of in *. rewrite E2 in S1, S2. cbn [fst] in S1, S2.
  unfold mirrors. cbn [fst row slider par with_slider].
  rewrite Ep, B1, B2, S1, S2.
  destruct a; cbn; auto.
Qed.

(** A drag keeps the mirror. *)
Lemma slider_moved_mirrors (p : Panel F) :
  mirrors (row p) -> mirrors (row (state_of (slider_moved p))).
Proof.
  intros M. unfold slider_moved, zoom, get_value_from_step, getattr, bind,
    get, modify, ret, raise, when, plot, on_row, state_of.
  destruct p as [[q c tv tm s tx] pl so]. cbn in *.
  destruct (idx s) as [i|]; cbn; [|exact M].
  destruct (update_plots s); cbn; exact M.
Qed.

(** The refresh of a row touches no bound. *)
Lemma update_row_same_bounds (r : Row F) :
  same_bounds r (state_of (update_row r)).
Proof.
  rewrite update_row_cases.
  destruct (String.eqb _ _); [apply same_bounds_refl|]. cbv zeta.
  destruct (set_step_from_value_frame (val (par r))
              (with_update_plots false (slider r))) as [n E].
  unfold state_of in *.
  destruct (set_step_from_value _ _) as [s' [e|[]]]; cbn [fst] in *;
    subst s'; unfold same_bounds; cbn; auto.
Qed.

Lemma for_each_update_same_bounds (rs : list (Row F)) :
  Forall2 same_bounds rs (fst (for_each update_row rs)).
Proof.
  induction rs as [|r rs IH]; cbn [for_each fst]; [constructor|].
  pose proof (update_row_same_bounds r) as S. unfold state_of in S.
  destruct (update_row r) as [r' [e|[]]]; cbn [fst] in *.
  - constructor; [exact S | apply Forall2_same_bounds_refl].
  - destruct (for_each update_row rs) as [rs' o]. cbn [fst] in *.
    constructor; assumption.
Qed.

Lemma update_same_bounds (w : MainWindow F) :
  Forall2 same_bounds (table w) (table (state_of (update w))).
Proof.
  unfold update, state_of.
  pose proof (for_each_update_same_bounds (table w)) as S.
  destruct (for_each update_row (table w)) as [rs o]. exact S.
Qed.

Lemma combine_same_bounds (rs : list (Row F)) :
  forall vals : list F, length vals = length rs ->
  Forall2 same_bounds rs
    (map (fun rv => with_par_of (set_val (snd rv)) (fst rv)) (combine rs vals)).
Proof.
  induction rs as [|r rs IH]; intros [|v vals] E; try discriminate E.
  - constructor.
  - cbn. constructor; [unfold same_bounds; cbn; auto|].
    apply IH. injection E as E. exact E.
Qed.

(** A tick of the monitor touches no bound. *)
Lemma fit_monitor_same_bounds (w : MainWindow F) :
  Forall2 same_bounds (table w) (table (state_of (fit_monitor w))).
Proof.
  destruct (recv_loop_shape (parent_pipe w) None w eq_refl)
    as (consumed & _ & B & _).
  destruct (recv_loop (parent_pipe w) None w) as [w1 r] eqn:L.
  unfold state_of in B. cbn [fst] in B.
  destruct r as [e|[msg stop]].
  - rewrite (fit_monitor_raised w w1 e L). unfold state_of. cbn [fst].
    rewrite B. apply Forall2_same_bounds_refl.
  - destruct msg as [m|].
    + destruct (parvals m) as [vals|] eqn:Hp.
      * destruct (Nat.eq_dec (length vals) (length (table w1))) as [Hl|Hl].
        -- set (w2 := with_assigned (assigned w1 ++ [vals])
                  (with_table
                     (map (fun rv => with_par_of (set_val (snd rv)) (fst rv))
                        (combine (table w1) vals)) w1)).
           assert (T : table (state_of (fit_monitor w)) =
                       table (state_of (update w2))).
           { remember (fit_monitor w) as X eqn:EX.
             unfold fit_monitor in EX. rewrite bind_state in EX.
             unfold get at 1 in EX. rewrite bind_state, L in EX.
             rewrite bind_state in EX. unfold nonempty in EX.
             rewrite Hp in EX.
             assert (N : match status m with Some _ | _ => true end = true)
               by (destruct (status m); trivial).
             rewrite N in EX. unfold when, getitem in EX.
             rewrite !bind_state in EX. unfold ret at 1 in EX.
             rewrite bind_state in EX.
             rewrite (set_parvals_ok vals w1 Hl) in EX. fold w2 in EX.
             rewrite bind_state in EX. unfold state_of.
             destruct (update w2) as [w3 [e|[]]]; cbn [fst].
             - subst X. reflexivity.
             - rewrite bind_state in EX.
               unfold update_plots_box, modify at 1 in EX.
               rewrite bind_state in EX. unfold get at 1 in EX.
               cbn beta iota in EX.
               destruct (show_line _); destruct stop; subst X; reflexivity. }
           rewrite T.
           apply (Forall2_same_bounds_trans _ (table w2)).
           ++ unfold w2. cbn [table with_assigned with_table]. rewrite <- B.
              apply combine_same_bounds. exact Hl.
           ++ apply update_same_bounds.
        -- rewrite (fit_monitor_mismatch w w1 m stop vals L Hp Hl).
           unfold state_of. cbn [fst].
           destruct stop; cbn; rewrite B; apply Forall2_same_bounds_refl.
      * destruct (status m) as [st|] eqn:Hs.
        -- rewrite (fit_monitor_no_parvals w w1 m stop L); trivial;
             [|congruence].
           unfold state_of. cbn [fst].
           destruct stop; cbn; rewrite B; apply Forall2_same_bounds_refl.
        -- remember (fit_monitor w) as X eqn:EX.
           unfold fit_monitor in EX. rewrite bind_state in EX.
           unfold get at 1 in EX. rewrite bind_state, L in EX.
           rewrite bind_state in EX. unfold nonempty in EX.
           rewrite Hs, Hp in EX. unfold when, ret at 1 in EX.
           destruct stop; subst X; unfold state_of; cbn; rewrite B;
             apply Forall2_same_bounds_refl.
    + remember (fit_monitor w) as X eqn:EX.
      unfold fit_monitor in EX. rewrite bind_state in EX.
      unfold get at 1 in EX. rewrite bind_state, L in EX.
      destruct stop; subst X; unfold state_of; cbn; rewrite B;
        apply Forall2_same_bounds_refl.
Qed.

(** X29: the slider's bounds are the parameter's, always.  The rows
    [ParamsPanel.__init__] builds have [parmin] and [parmax] of each slider
    equal to the min and max of its parameter, and every operation of the
    window keeps them equal, whether it returns or raises: a write through
    an entry ([par_attr_changed], [set_par_attr]), a drag
    ([slider_moved]), a command ([parse_command]), a refresh
    ([ParamsPanel.update]) and a tick of the monitor ([fit_monitor]). *)
Theorem slider_bounds_mirror_parameter
  (DateTime_date : list string -> option (list string))
  (float_of : string -> option F) :
  (forall (pars : list (Par F)) rows,
     new_ParamsPanel pars = inr rows -> Forall mirrors rows) /\
  (forall a v (p : Panel F), mirrors (row p) ->
     mirrors (row (state_of (set_par_attr a v p)))) /\
  (forall a (p : Panel F), mirrors (row p) ->
     mirrors (row (state_of (par_attr_changed float_of a p)))) /\
  (forall p : Panel F, mirrors (row p) -> mirrors (row (state_of (slider_moved p)))) /\
  (forall command (w : MainWindow F), Forall mirrors (table w) ->
     Forall mirrors
       (table (state_of (parse_command DateTime_date command w)))) /\
  (forall w : MainWindow F, Forall mirrors (table w) ->
     Forall mirrors (table (state_of (update w)))) /\
  (forall w : MainWindow F, Forall mirrors (table w) ->
     Forall mirrors (table (state_of (fit_monitor w)))).
Proof.
  split; [exact new_ParamsPanel_mirrors|].
  split; [exact set_par_attr_mirrors|].
  split.
  { intros a p M. unfold par_attr_changed. rewrite bind_state.
    unfold get at 1.
    destruct (float_of (strip (text a (row p)))) as [v|].
    - apply set_par_attr_mirrors. exact M.
    - exact M. }
  split; [exact slider_moved_mirrors|].
  split.
  { intros command w M.
    apply (Forall2_same_bounds_mirrors (table w)); [|exact M].
    apply untouched_same_bounds.
    destruct (parse_command_ends DateTime_date command w)
      as [[Es E] | [(thaw & pats & _ & _ & E) | [(line & E) | (mask & E & _)]]];
      rewrite E; unfold state_of; cbn;
      auto using Forall2_untouched_refl.
    apply Forall2_untouched_map, freeze_row_untouched. }
  split.
  - intros w M.
    exact (Forall2_same_bounds_mirrors _ _ (update_same_bounds w) M).
  - intros w M.
    exact (Forall2_same_bounds_mirrors _ _ (fit_monitor_same_bounds w) M).
Qed.

End Mirror.
